(** * Clinic assistant: markup renderer, gateway service and session handlers

    A shallow embedding of
      - [src/components/ChatInterface.tsx]  ([renderMarkdown]),
      - [src/services/geminiService.ts]     (the gateway service),
      - the application component           (the session handlers),
    followed by the properties established about them.

    JavaScript strings are sequences of UTF-16 code units; they are modelled
    as lists of such units, so that [includes], [startsWith], [split] and the
    regular expressions of the source act on the same positions as in the
    program. *)

From Stdlib Require Import List NArith Ascii String Bool Arith Lia.
Import ListNotations.

(* ===================================================================== *)
(** * JavaScript strings                                                   *)
(* ===================================================================== *)

Module Js.

Definition jsstring := list N.

(** Source literals are written as in the program text (UTF-8) and decoded
    to code units; a code point beyond the BMP becomes a surrogate pair. *)
Definition low6 (b : N) : N := N.land b 63.

Fixpoint utf16_of_utf8 (bs : list N) : jsstring :=
  match bs with
  | [] => []
  | b :: r1 =>
    if (b <? 128)%N then b :: utf16_of_utf8 r1
    else if (b <? 224)%N then
      match r1 with
      | b2 :: r2 =>
          N.lor (N.shiftl (N.land b 31) 6) (low6 b2) :: utf16_of_utf8 r2
      | _ => [65533%N]
      end
    else if (b <? 240)%N then
      match r1 with
      | b2 :: b3 :: r3 =>
          N.lor (N.shiftl (N.land b 15) 12)
                (N.lor (N.shiftl (low6 b2) 6) (low6 b3)) :: utf16_of_utf8 r3
      | _ => [65533%N]
      end
    else
      match r1 with
      | b2 :: b3 :: b4 :: r4 =>
          let cp := N.lor (N.shiftl (N.land b 7) 18)
                     (N.lor (N.shiftl (low6 b2) 12)
                        (N.lor (N.shiftl (low6 b3) 6) (low6 b4))) in
          let v := (cp - 65536)%N in
          (55296 + N.shiftr v 10)%N :: (56320 + N.land v 1023)%N
            :: utf16_of_utf8 r4
      | _ => [65533%N]
      end
  end.

Definition js (s : string) : jsstring :=
  utf16_of_utf8 (map N_of_ascii (list_ascii_of_string s)).

(** A markup literal of the source: written with an apostrophe wherever the
    program text has a double quote (none of the program's markup literals
    contains an apostrophe). *)
Definition html (s : string) : jsstring :=
  map (fun c => if (c =? 39)%N then 34%N else c) (js s).

Definition LF : N := 10%N.

(** Truthiness of a string: non-empty. *)
Definition truthy (s : jsstring) : bool :=
  match s with [] => false | _ => true end.

Fixpoint jseqb (a b : jsstring) : bool :=
  match a, b with
  | [], [] => true
  | x :: a', y :: b' => (x =? y)%N && jseqb a' b'
  | _, _ => false
  end.

(** [s.startsWith(p)] *)
Fixpoint startsWith (p s : jsstring) : bool :=
  match p, s with
  | [], _ => true
  | x :: p', y :: s' => (x =? y)%N && startsWith p' s'
  | _ :: _, [] => false
  end.

(** [s.includes(sub)] *)
Fixpoint includes (s sub : jsstring) : bool :=
  startsWith sub s ||
  match s with
  | [] => false
  | _ :: s' => includes s' sub
  end.

(** [s.substring(n)] *)
Definition substring (n : nat) (s : jsstring) : jsstring := skipn n s.

(** [s.split('\n')] *)
Fixpoint split_lines (s : jsstring) : list jsstring :=
  match s with
  | [] => [[]]
  | c :: r =>
    if (c =? LF)%N then [] :: split_lines r
    else match split_lines r with
         | l :: ls => (c :: l) :: ls
         | [] => [[c]]
         end
  end.

(** [parts.join(sep)] *)
Fixpoint join (sep : jsstring) (parts : list jsstring) : jsstring :=
  match parts with
  | [] => []
  | [p] => p
  | p :: ps => p ++ sep ++ join sep ps
  end.

(** Character classes of ECMAScript regular expressions (no [u] flag). *)
Definition isLineTerminator (c : N) : bool :=
  (c =? 10)%N || (c =? 13)%N || (c =? 8232)%N || (c =? 8233)%N.

(** [\s], which is also the set removed by [trim]: WhiteSpace and
    LineTerminator. *)
Definition isWhiteSpace (c : N) : bool :=
  ((9 <=? c) && (c <=? 13))%N || (c =? 32)%N || (c =? 160)%N
  || (c =? 5760)%N || ((8192 <=? c) && (c <=? 8202))%N
  || (c =? 8232)%N || (c =? 8233)%N || (c =? 8239)%N || (c =? 8287)%N
  || (c =? 12288)%N || (c =? 65279)%N.

(** [\d] *)
Definition isDigit (c : N) : bool := ((48 <=? c) && (c <=? 57))%N.

Fixpoint takeWhile (p : N -> bool) (s : jsstring) : jsstring :=
  match s with
  | [] => []
  | c :: r => if p c then c :: takeWhile p r else []
  end.

Fixpoint dropWhile (p : N -> bool) (s : jsstring) : jsstring :=
  match s with
  | [] => []
  | c :: r => if p c then dropWhile p r else s
  end.

(** [s.trim()] *)
Definition trim (s : jsstring) : jsstring :=
  rev (dropWhile isWhiteSpace (rev (dropWhile isWhiteSpace s))).

(** ** Regular-expression replacement

    [s.replace(re, template)] with a global [re]: the string is scanned from
    the left; where [re] matches at the current position the instantiated
    template is emitted and the scan resumes after the match, otherwise the
    current unit is copied.  A matcher receives the remaining input and
    answers with the text to emit and the number of units of the match
    (every pattern below matches at least two units). *)
Definition matcher := jsstring -> option (jsstring * nat).

Fixpoint replaceFrom (m : matcher) (skip : nat) (s : jsstring) : jsstring :=
  match s with
  | [] => []
  | c :: r =>
    match skip with
    | S k => replaceFrom m k r
    | O =>
      match m s with
      | Some (out, n) => out ++ replaceFrom m (pred n) r
      | None => c :: replaceFrom m 0 r
      end
    end
  end.

Definition replaceAll (m : matcher) (s : jsstring) : jsstring :=
  replaceFrom m 0 s.

(** The lazy group [(.*?)] followed by the literal [close]: the shortest run
    of units other than line terminators after which [close] stands.
    Answers the group and the number of units up to and including [close]. *)
Fixpoint lazyUntil (close : jsstring) (s : jsstring) {struct s}
  : option (jsstring * nat) :=
  if startsWith close s then Some ([], List.length close)
  else
    match s with
    | [] => None
    | c :: r =>
      if isLineTerminator c then None
      else match lazyUntil close r with
           | Some (g, n) => Some (c :: g, S n)
           | None => None
           end
    end.

(** [open(.*?)close] at the current position: the group and the length of
    the match. *)
Definition delimited (open close : jsstring) (s : jsstring)
  : option (jsstring * nat) :=
  if startsWith open s then
    match lazyUntil close (skipn (List.length open) s) with
    | Some (g, n) => Some (g, List.length open + n)
    | None => None
    end
  else None.

(** [a|b]: the first alternative that matches at the current position. *)
Definition orElse {A} (a b : option A) : option A :=
  match a with Some _ => a | None => b end.

End Js.

(* ===================================================================== *)
(** * The markup renderer ([src/components/ChatInterface.tsx])             *)
(* ===================================================================== *)

Module Markup.
Import Js.

Definition STAR : N := 42%N.
Definition UNDERSCORE : N := 95%N.
Definition BACKTICK : N := 96%N.
Definition HYPHEN : N := 45%N.
Definition DOT : N := 46%N.

(** [/\*\*(.*?)\*\*|__(.*?)__/g] with template [<strong>$1$2</strong>] *)
Definition strongAt : matcher := fun s =>
  match orElse (delimited [STAR; STAR] [STAR; STAR] s)
               (delimited [UNDERSCORE; UNDERSCORE] [UNDERSCORE; UNDERSCORE] s)
  with
  | Some (g, n) => Some (js "<strong>" ++ g ++ js "</strong>", n)
  | None => None
  end.

(** [/\*(.*?)\*|_(.*?)_/g] with template [<em>$1$2</em>] *)
Definition emAt : matcher := fun s =>
  match orElse (delimited [STAR] [STAR] s)
               (delimited [UNDERSCORE] [UNDERSCORE] s)
  with
  | Some (g, n) => Some (js "<em>" ++ g ++ js "</em>", n)
  | None => None
  end.

(** [/`([^`]+)`/g]: a backtick, the longest non-empty run of units other
    than a backtick, a backtick. *)
Definition codeAt : matcher := fun s =>
  match s with
  | c :: r =>
    if (c =? BACKTICK)%N then
      let g := takeWhile (fun x => negb (x =? BACKTICK)%N) r in
      match g, dropWhile (fun x => negb (x =? BACKTICK)%N) r with
      | _ :: _, _ :: _ =>
          Some (html "<code class='bg-gem-mist/50 px-1 py-0.5 rounded-sm font-mono text-sm'>"
                  ++ g ++ js "</code>",
                S (S (List.length g)))
      | _, _ => None
      end
    else None
  | [] => None
  end.

(** The three chained [replace] calls of the loop body. *)
Definition inline (line : jsstring) : jsstring :=
  replaceAll codeAt (replaceAll emAt (replaceAll strongAt line)).

(** The greedy group that closes both list patterns (any units, as many as
    possible): up to the first line terminator. *)
Definition restOfLine (s : jsstring) : jsstring :=
  takeWhile (fun c => negb (isLineTerminator c)) s.

(** [line.match(re)] for the ordered-list pattern: start of input, [\s*],
    [\d+], a dot, one [\s], then the greedy group; the group [1] of the
    match, if any. *)
Definition isOl (line : jsstring) : option jsstring :=
  let s := dropWhile isWhiteSpace line in
  match takeWhile isDigit s with
  | [] => None
  | _ :: _ =>
    match dropWhile isDigit s with
    | d :: w :: rest =>
        if (d =? DOT)%N && isWhiteSpace w then Some (restOfLine rest) else None
    | _ => None
    end
  end.

(** [line.match(re)] for the unordered-list pattern: start of input, [\s*],
    a star or a hyphen, one [\s], then the greedy group; the group [1] of
    the match, if any. *)
Definition isUl (line : jsstring) : option jsstring :=
  match dropWhile isWhiteSpace line with
  | b :: w :: rest =>
      if ((b =? STAR)%N || (b =? HYPHEN)%N) && isWhiteSpace w
      then Some (restOfLine rest) else None
  | _ => None
  end.

Inductive ListType := ul | ol.

Definition tagName (t : ListType) : jsstring :=
  match t with ul => js "ul" | ol => js "ol" end.

Definition isType (t : ListType) (o : option ListType) : bool :=
  match t, o with
  | ul, Some ul | ol, Some ol => true
  | _, _ => false
  end.

(** The three local variables of [renderMarkdown]. *)
Record RenderState := mkRender {
  out : jsstring;               (* html *)
  listType : option ListType;
  paraBuffer : jsstring
}.

Definition emit (t : jsstring) (st : RenderState) : RenderState :=
  mkRender (out st ++ t) (listType st) (paraBuffer st).

Definition P_OPEN : jsstring := html "<p class='my-2'>".
Definition P_CLOSE : jsstring := js "</p>".
Definition BR : jsstring := js "<br/>".

Definition flushPara (st : RenderState) : RenderState :=
  if truthy (paraBuffer st)
  then mkRender (out st ++ P_OPEN ++ paraBuffer st ++ P_CLOSE) (listType st) []
  else st.

Definition flushList (st : RenderState) : RenderState :=
  match listType st with
  | Some t =>
      mkRender (out st ++ js "</" ++ tagName t ++ js ">") None (paraBuffer st)
  | None => st
  end.

Definition openList (t : ListType) (st : RenderState) : RenderState :=
  if isType t (listType st) then st
  else
    let st := flushList st in
    let opening :=
      match t with
      | ol => html "<ol class='list-decimal list-inside my-2 pl-5 space-y-1'>"
      | ul => html "<ul class='list-none my-2 pl-2 space-y-1'>"
      end in
    mkRender (out st ++ opening) (Some t) (paraBuffer st).

(** One iteration of [for (const rawLine of lines)]. *)
Definition renderLine (st : RenderState) (rawLine : jsstring) : RenderState :=
  if startsWith (js "# ") rawLine then
    emit (html "<h1 class='text-xl font-bold text-clinic-orange mt-4 mb-2 border-b border-clinic-orange/20 pb-1'>"
            ++ substring 2 rawLine ++ js "</h1>")
         (flushList (flushPara st))
  else if startsWith (js "## ") rawLine then
    emit (html "<h2 class='text-lg font-bold text-clinic-blue mt-3 mb-2'>"
            ++ substring 3 rawLine ++ js "</h2>")
         (flushList (flushPara st))
  else
    let line := inline rawLine in
    match isOl line, isUl line with
    | Some item, _ =>
        emit (js "<li>" ++ item ++ js "</li>") (openList ol (flushPara st))
    | None, Some item =>
        emit (html "<li class='flex items-start'><span class='mr-2 text-clinic-orange font-bold text-lg leading-none'>•</span><span>"
                ++ item ++ js "</span></li>")
             (openList ul (flushPara st))
    | None, None =>
        let st := flushList st in
        if jseqb (trim line) [] then flushPara st
        else mkRender (out st) (listType st)
               (paraBuffer st
                  ++ (if truthy (paraBuffer st) then BR else []) ++ line)
    end.

Definition renderInit : RenderState := mkRender [] None [].

(** [renderMarkdown(text).__html] *)
Definition renderMarkdown (text : jsstring) : jsstring :=
  if negb (truthy text) then []
  else
    let st := fold_left renderLine (split_lines text) renderInit in
    out (flushList (flushPara st)).

(** ** Input without recognised syntax

    A line is plain when none of the constructs of the renderer applies to
    it: it holds no inline delimiter, it is neither a heading nor a list
    item, and it is not blank (by the test of the loop body itself). *)
Definition isDelimiter (c : N) : bool :=
  (c =? STAR)%N || (c =? UNDERSCORE)%N || (c =? BACKTICK)%N.

Definition isNone {A} (o : option A) : bool :=
  match o with None => true | Some _ => false end.

Definition plainLine (l : jsstring) : bool :=
  forallb (fun c => negb (isDelimiter c)) l
  && negb (startsWith (js "# ") l)
  && negb (startsWith (js "## ") l)
  && isNone (isOl l)
  && isNone (isUl l)
  && negb (jseqb (trim l) []).

Definition plainText (text : jsstring) : bool :=
  forallb plainLine (split_lines text).

(** The paragraph container around a content. *)
Definition paragraph (content : jsstring) : jsstring :=
  P_OPEN ++ content ++ P_CLOSE.

(** Number of occurrences of a unit in a line. *)
Definition occurrences (c : N) (l : jsstring) : nat :=
  count_occ N.eq_dec l c.

End Markup.

(* ===================================================================== *)
(** * Data of the session                                                  *)
(* ===================================================================== *)

Module Types.
Import Js.

(** Modelled from the spec: the enumeration [AppStatus] of the type
    declarations imported by the application component (the declaring file
    is not part of the sources at hand); its six members are the statuses
    of section 3 of the specification, each of them used by the component. *)
Inductive AppStatus :=
  Initializing | Welcome | Uploading | Binding | Chatting | Error.

Inductive Role := user | model.

(** A grounding chunk: [chunk.retrievedContext?.text]. *)
Record Chunk := { retrievedText : option jsstring }.

(** Modelled from the spec: the record [ChatMessage] of the same type
    declarations, with the fields the component and the chat view read and
    write: [role], [parts] (each with a [text]), and the optional
    [groundingChunks] and [isCrisis]. *)
Record ChatMessage := {
  role : Role;
  parts : list (option jsstring);
  groundingChunks : option (list Chunk);
  isCrisis : option bool
}.

(** Modelled from the spec: the record [QueryResult] returned by
    [fileSearch]. *)
Record QueryResult := {
  q_text : option jsstring;
  q_groundingChunks : list Chunk;
  q_isCrisis : bool
}.

(** A file handed to the upload: its name and its content, the latter
    identified by a number. *)
Record File := { file_name : jsstring; file_content : N }.

(** The value of the [uploadProgress] state.  [total] is absent only in an
    object spread from a null previous value. *)
Record Progress := {
  current : nat;
  total : option nat;
  message : option jsstring;
  fileName : option jsstring
}.

(** What is thrown: an [Error] with its message, or any other value with
    its truthiness and its [String(err)]. *)
Inductive JsErr :=
| ErrorObj (msg : jsstring)
| Thrown (isTruthy : bool) (text : jsstring).

Definition errText (e : JsErr) : jsstring :=
  match e with ErrorObj m => m | Thrown _ t => t end.

Definition errTruthy (e : JsErr) : bool :=
  match e with ErrorObj _ => true | Thrown b _ => b end.

Inductive Res (A : Type) :=
| Ok (a : A)
| Throw (e : JsErr).
Arguments Ok {A} a.
Arguments Throw {A} e.

(** Values of [JSON.parse]. *)
#[local] Unset Elimination Schemes.
Inductive Json :=
| JNull
| JBool (b : bool)
| JNumber (literal : jsstring)
| JString (s : jsstring)
| JArray (items : list Json)
| JObject (fields : list (jsstring * Json)).
#[local] Set Elimination Schemes.

(** The built-in functions of the language runtime the program relies on
    and whose tables are not part of it: Unicode lower-casing and the JSON
    parser (which throws on malformed input). *)
Class Builtins := {
  toLowerCase : jsstring -> jsstring;
  JSON_parse : jsstring -> Res Json
}.

(** A request to [ai.models.generateContent]. *)
Record GenRequest := {
  req_model : jsstring;
  req_contents : jsstring;
  req_systemInstruction : option jsstring;
  req_fileSearchStoreNames : list jsstring;
  req_responseMimeType : option jsstring
}.

(** Its response: [response.text] and
    [response.candidates?.[0]?.groundingMetadata?.groundingChunks]. *)
Record GenResponse := {
  resp_text : option jsstring;
  resp_groundingChunks : option (list Chunk)
}.

(** How the gateway answers an upload: the call is rejected; or the
    operation is done after [polls] calls of [operations.get] (none when the
    first answer is already done); or [polls] such calls answer "not done"
    and the next one throws.  An operation that is never done, on which the
    polling loop of [uploadToRagStore] would not end, is not among the
    answers. *)
Inductive UploadBehaviour :=
| UploadRejects (e : JsErr)
| UploadDone (polls : nat)
| UploadPollFails (polls : nat) (e : JsErr).

(** The surroundings of one handler run: the answers of the remote gateway,
    of the key-selection host ([window.aistudio]) and of the clock. *)
Record Env := {
  new_client : option JsErr;                      (* new GoogleGenAI(..) throws? *)
  stores_create : jsstring -> Res (option jsstring);   (* the store's name *)
  stores_upload : jsstring -> File -> UploadBehaviour;
  models_generateContent : GenRequest -> Res GenResponse;
  stores_delete : jsstring -> Res unit;
  hasSelectedApiKey : option (Res bool);          (* absent host: None *)
  openSelectKey : option (Res unit);
  date_now : N
}.

(** The component state, one field per [useState]. *)
Record AppState := {
  status : AppStatus;
  isApiKeySelected : bool;
  apiKeyError : option jsstring;
  error : option jsstring;
  uploadProgress : option Progress;
  activeRagStoreName : option jsstring;
  chatHistory : list ChatMessage;
  isQueryLoading : bool;
  exampleQuestions : list jsstring;
  documentName : jsstring;
  files : list File;
  patientName : jsstring
}.

(** What a run does to its surroundings, in order. *)
Inductive Event :=
| EvCreate (displayName : jsstring)        (* ai.fileSearchStores.create *)
| EvUpload (store : jsstring) (f : File)   (* ...uploadToFileSearchStore *)
| EvOperationsGet                          (* ai.operations.get *)
| EvGenerateContent (req : GenRequest)     (* ai.models.generateContent *)
| EvDelete (store : jsstring)              (* ai.fileSearchStores.delete *)
| EvDelay (ms : nat)                       (* setTimeout *)
| EvConsoleError (label : jsstring) (e : JsErr)
| EvAlert (text : jsstring)
| EvProgress (p : option Progress).        (* setUploadProgress *)

(** The whole program state: the module variable [ai] of the service (set
    or not), the component state, and the events so far. *)
Record World := {
  ai : bool;
  state : AppState;
  trace : list Event
}.

End Types.

(* ===================================================================== *)
(** * Effects: state, events and exceptions                                *)
(* ===================================================================== *)

Module Effects.
Import Js Types.

Definition M (A : Type) : Type := Env -> World -> Res A * World.

Definition ret {A} (a : A) : M A := fun _ w => (Ok a, w).

Definition bind {A B} (c : M A) (k : A -> M B) : M B :=
  fun env w =>
    match c env w with
    | (Ok a, w') => k a env w'
    | (Throw e, w') => (Throw e, w')
    end.

Declare Scope js_scope.
Delimit Scope js_scope with js.
Notation "x <- c ;; k" := (bind c (fun x => k))
  (at level 61, c at next level, right associativity) : js_scope.
Notation "c ;; k" := (bind c (fun _ => k))
  (at level 61, right associativity) : js_scope.
Local Open Scope js_scope.

Definition throw {A} (e : JsErr) : M A := fun _ w => (Throw e, w).

Definition lift {A} (r : Res A) : M A := fun _ w => (r, w).

(** [try { body } catch (err) { handler }] *)
Definition tryCatch {A} (body : M A) (handler : JsErr -> M A) : M A :=
  fun env w =>
    match body env w with
    | (Ok a, w') => (Ok a, w')
    | (Throw e, w') => handler e env w'
    end.

(** [try { body } finally { fin }] *)
Definition tryFinally {A} (body : M A) (fin : M unit) : M A :=
  fun env w =>
    let (r, w') := body env w in
    match fin env w' with
    | (Ok _, w'') => (r, w'')
    | (Throw e, w'') => (Throw e, w'')
    end.

Definition env : M Env := fun e w => (Ok e, w).

Definition world : M World := fun _ w => (Ok w, w).

Definition emitEvent (ev : Event) : M unit :=
  fun _ w => (Ok tt, Build_World (ai w) (state w) (trace w ++ [ev])).

Definition setAi (b : bool) : M unit :=
  fun _ w => (Ok tt, Build_World b (state w) (trace w)).

Definition modifyApp (f : AppState -> AppState) : M unit :=
  fun _ w => (Ok tt, Build_World (ai w) (f (state w)) (trace w)).

(** A call of the remote gateway: the call is recorded, then answered. *)
Definition call {A} (ev : Event) (answer : Env -> Res A) : M A :=
  emitEvent ev ;; e <- env ;; lift (answer e).

Definition delay (ms : nat) : M unit := emitEvent (EvDelay ms).

Definition consoleError (label : jsstring) (e : JsErr) : M unit :=
  emitEvent (EvConsoleError label e).

End Effects.

(* ===================================================================== *)
(** * The gateway service ([src/services/geminiService.ts])                *)
(* ===================================================================== *)

Module Gemini.
Import Js Types Effects.
Local Open Scope js_scope.

Definition CRISIS_KEYWORDS : list jsstring :=
  [js "想死"; js "自殺"; js "suicide"; js "hurt myself"; js "絕望";
   js "不想活"; js "結束生命"; js "痛苦"; js "找不到出口"].

Definition initialize : M unit :=
  e <- env ;;
  match new_client e with
  | Some err => throw err
  | None => setAi true
  end.

(** [if (!ai) throw new Error("Gemini AI not initialized")] *)
Definition requireAi : M unit :=
  w <- world ;;
  if ai w then ret tt else throw (ErrorObj (js "Gemini AI not initialized")).

Definition createRagStore (displayName : jsstring) : M jsstring :=
  requireAi ;;
  name <- call (EvCreate displayName) (fun e => stores_create e displayName) ;;
  match name with
  | Some n =>
      if truthy n then ret n
      else throw (ErrorObj (js "Failed to create RAG store: name is missing."))
  | None => throw (ErrorObj (js "Failed to create RAG store: name is missing."))
  end.

(** [while (!op.done) { await delay(3000); op = await ai.operations.get(..) }]
    for an operation that needs [polls] more answers. *)
Fixpoint pollUntilDone (polls : nat) (last : M unit) : M unit :=
  match polls with
  | O => last
  | S k => delay 3000 ;; emitEvent EvOperationsGet ;; pollUntilDone k last
  end.

Definition uploadToRagStore (ragStoreName : jsstring) (file : File) : M unit :=
  requireAi ;;
  emitEvent (EvUpload ragStoreName file) ;;
  e <- env ;;
  match stores_upload e ragStoreName file with
  | UploadRejects err => throw err
  | UploadDone polls => pollUntilDone polls (ret tt)
  | UploadPollFails polls err =>
      pollUntilDone polls
        (delay 3000 ;; emitEvent EvOperationsGet ;; throw err)
  end.

(** [CRISIS_KEYWORDS.some(keyword => lowerQuery.includes(keyword))] *)
Definition crisisQuery `{Builtins} (query : jsstring) : bool :=
  let lowerQuery := toLowerCase query in
  existsb (fun keyword => includes lowerQuery keyword) CRISIS_KEYWORDS.

Definition SYSTEM_INSTRUCTION : jsstring :=
  js "你是一間身心科診所的溫暖、具同理心的 AI 助理。請務必使用繁體中文 (Traditional Chinese) 回答。回答請簡潔。如果是醫療建議，請加上標準免責聲明：「請親自諮詢醫師」。不要提及你是 AI，專注於提供協助。請使用 Markdown 格式回答："
  ++ [LF; LF] ++ js "- 使用 # 或 ## 標示重點標題（會轉換為醒目的顏色）。"
  ++ [LF] ++ js "- 使用清單項目（- 或 *）條列資訊。".

Definition queryRequest (ragStoreName query : jsstring) : GenRequest :=
  {| req_model := js "gemini-2.5-flash";
     req_contents := query;
     req_systemInstruction := Some SYSTEM_INSTRUCTION;
     req_fileSearchStoreNames := [ragStoreName];
     req_responseMimeType := None |}.

Definition fileSearch `{Builtins} (ragStoreName query : jsstring)
  : M QueryResult :=
  requireAi ;;
  if crisisQuery query then
    ret {| q_text := Some (js "CRISIS_DETECTED");
           q_groundingChunks := [];
           q_isCrisis := true |}
  else
    let req := queryRequest ragStoreName query in
    response <- call (EvGenerateContent req)
                     (fun e => models_generateContent e req) ;;
    let groundingChunks :=
      match resp_groundingChunks response with
      | Some cs => cs
      | None => []
      end in
    ret {| q_text := resp_text response;
           q_groundingChunks := groundingChunks;
           q_isCrisis := false |}.

Definition QUESTIONS_PROMPT : jsstring :=
  js "根據提供的診所文件（手冊、FAQ、政策），找出相關語境並生成 4 個病患可能會問的通用、溫暖且有幫助的問題（例如：「如何預約？」、「營業時間為何？」、「我的資料隱私安全嗎？」）。請務必使用繁體中文 (Traditional Chinese) 回傳。格式為 JSON 字串陣列。".

Definition questionsRequest (ragStoreName : jsstring) : GenRequest :=
  {| req_model := js "gemini-2.5-flash";
     req_contents := QUESTIONS_PROMPT;
     req_systemInstruction := None;
     req_fileSearchStoreNames := [ragStoreName];
     req_responseMimeType := Some (js "application/json") |}.

Definition DEFAULT_QUESTIONS_4 : list jsstring :=
  [js "診所的營業時間是幾點？"; js "請問該如何預約？";
   js "第一次看診需要準備什麼？"; js "診所有健保嗎？"].

Definition DEFAULT_QUESTIONS_2 : list jsstring :=
  [js "診所的營業時間是幾點？"; js "請問該如何預約？"].

(** The lazy group of the fence pattern, which spans any units, followed by
    the closing fence: the shortest run after which [close] stands. *)
Fixpoint lazyAnyUntil (close : jsstring) (s : jsstring) {struct s}
  : option jsstring :=
  if startsWith close s then Some []
  else
    match s with
    | [] => None
    | c :: r =>
      match lazyAnyUntil close r with
      | Some g => Some (c :: g)
      | None => None
      end
    end.

Definition FENCE_OPEN : jsstring := js "```json" ++ [LF].
Definition FENCE_CLOSE : jsstring := [LF] ++ js "```".

(** [jsonText.match(re)] for the fenced-block pattern (the opening fence
    with its tag and a line feed, the lazy group, a line feed and the
    closing fence): the group [1] of the leftmost match, if any. *)
Fixpoint fencedJson (s : jsstring) {struct s} : option jsstring :=
  let here :=
    if startsWith FENCE_OPEN s
    then lazyAnyUntil FENCE_CLOSE (skipn (List.length FENCE_OPEN) s)
    else None in
  match here with
  | Some g => Some g
  | None =>
    match s with
    | [] => None
    | _ :: r => fencedJson r
    end
  end.

(** [parsedData.filter(q => typeof q === 'string')] *)
Fixpoint stringsOf (items : list Json) : list jsstring :=
  match items with
  | [] => []
  | JString s :: r => s :: stringsOf r
  | _ :: r => stringsOf r
  end.

(** The [TypeError] of calling [trim] on an absent text (the wording of the
    message is the engine's). *)
Definition TRIM_OF_UNDEFINED : JsErr :=
  ErrorObj (js "Cannot read properties of undefined (reading 'trim')").

(** The inner [try]/[catch] of [generateExampleQuestions]: the parsed data,
    or the list returned at once from the [catch] block. *)
Definition parseQuestions `{Builtins} (jsonText : jsstring)
  : M (list jsstring + Json) :=
  match JSON_parse jsonText with
  | Ok v => ret (inr v)
  | Throw _ =>
    match fencedJson jsonText with
    | Some g =>
      if truthy g then
        match JSON_parse g with
        | Ok v => ret (inr v)
        | Throw e => throw e
        end
      else ret (inl DEFAULT_QUESTIONS_4)
    | None => ret (inl DEFAULT_QUESTIONS_4)
    end
  end.

Definition generateExampleQuestions `{Builtins} (ragStoreName : jsstring)
  : M (list jsstring) :=
  requireAi ;;
  tryCatch
    (let req := questionsRequest ragStoreName in
     response <- call (EvGenerateContent req)
                      (fun e => models_generateContent e req) ;;
     jsonText <- match resp_text response with
                 | Some t => ret (trim t)
                 | None => throw TRIM_OF_UNDEFINED
                 end ;;
     parsedData <- parseQuestions jsonText ;;
     match parsedData with
     | inl early => ret early
     | inr (JArray items) => ret (firstn 4 (stringsOf items))
     | inr _ => ret DEFAULT_QUESTIONS_4
     end)
    (fun error =>
       consoleError (js "Failed to generate or parse example questions:") error ;;
       ret DEFAULT_QUESTIONS_2).

Definition deleteRagStore (ragStoreName : jsstring) : M unit :=
  requireAi ;;
  call (EvDelete ragStoreName) (fun e => stores_delete e ragStoreName).

End Gemini.

(* ===================================================================== *)
(** * The application component: session handlers                          *)
(* ===================================================================== *)

Module App.
Import Js Types Effects Gemini.
Local Open Scope js_scope.

(** ** State updates *)

Definition with_status (v : AppStatus) (a : AppState) : AppState :=
  Build_AppState v (isApiKeySelected a) (apiKeyError a) (error a) (uploadProgress a) (activeRagStoreName a) (chatHistory a) (isQueryLoading a) (exampleQuestions a) (documentName a) (files a) (patientName a).

Definition with_isApiKeySelected (v : bool) (a : AppState) : AppState :=
  Build_AppState (status a) v (apiKeyError a) (error a) (uploadProgress a) (activeRagStoreName a) (chatHistory a) (isQueryLoading a) (exampleQuestions a) (documentName a) (files a) (patientName a).

Definition with_apiKeyError (v : option jsstring) (a : AppState) : AppState :=
  Build_AppState (status a) (isApiKeySelected a) v (error a) (uploadProgress a) (activeRagStoreName a) (chatHistory a) (isQueryLoading a) (exampleQuestions a) (documentName a) (files a) (patientName a).

Definition with_error (v : option jsstring) (a : AppState) : AppState :=
  Build_AppState (status a) (isApiKeySelected a) (apiKeyError a) v (uploadProgress a) (activeRagStoreName a) (chatHistory a) (isQueryLoading a) (exampleQuestions a) (documentName a) (files a) (patientName a).

Definition with_uploadProgress (v : option Progress) (a : AppState) : AppState :=
  Build_AppState (status a) (isApiKeySelected a) (apiKeyError a) (error a) v (activeRagStoreName a) (chatHistory a) (isQueryLoading a) (exampleQuestions a) (documentName a) (files a) (patientName a).

Definition with_activeRagStoreName (v : option jsstring) (a : AppState) : AppState :=
  Build_AppState (status a) (isApiKeySelected a) (apiKeyError a) (error a) (uploadProgress a) v (chatHistory a) (isQueryLoading a) (exampleQuestions a) (documentName a) (files a) (patientName a).

Definition with_chatHistory (v : list ChatMessage) (a : AppState) : AppState :=
  Build_AppState (status a) (isApiKeySelected a) (apiKeyError a) (error a) (uploadProgress a) (activeRagStoreName a) v (isQueryLoading a) (exampleQuestions a) (documentName a) (files a) (patientName a).

Definition with_isQueryLoading (v : bool) (a : AppState) : AppState :=
  Build_AppState (status a) (isApiKeySelected a) (apiKeyError a) (error a) (uploadProgress a) (activeRagStoreName a) (chatHistory a) v (exampleQuestions a) (documentName a) (files a) (patientName a).

Definition with_exampleQuestions (v : list jsstring) (a : AppState) : AppState :=
  Build_AppState (status a) (isApiKeySelected a) (apiKeyError a) (error a) (uploadProgress a) (activeRagStoreName a) (chatHistory a) (isQueryLoading a) v (documentName a) (files a) (patientName a).

Definition with_documentName (v : jsstring) (a : AppState) : AppState :=
  Build_AppState (status a) (isApiKeySelected a) (apiKeyError a) (error a) (uploadProgress a) (activeRagStoreName a) (chatHistory a) (isQueryLoading a) (exampleQuestions a) v (files a) (patientName a).

Definition with_files (v : list File) (a : AppState) : AppState :=
  Build_AppState (status a) (isApiKeySelected a) (apiKeyError a) (error a) (uploadProgress a) (activeRagStoreName a) (chatHistory a) (isQueryLoading a) (exampleQuestions a) (documentName a) v (patientName a).

Definition with_patientName (v : jsstring) (a : AppState) : AppState :=
  Build_AppState (status a) (isApiKeySelected a) (apiKeyError a) (error a) (uploadProgress a) (activeRagStoreName a) (chatHistory a) (isQueryLoading a) (exampleQuestions a) (documentName a) (files a) v.

Definition setStatus (v : AppStatus) : M unit := modifyApp (with_status v).
Definition setIsApiKeySelected (v : bool) : M unit := modifyApp (with_isApiKeySelected v).
Definition setApiKeyError (v : option jsstring) : M unit := modifyApp (with_apiKeyError v).
Definition setError (v : option jsstring) : M unit := modifyApp (with_error v).
Definition setActiveRagStoreName (v : option jsstring) : M unit := modifyApp (with_activeRagStoreName v).
Definition setChatHistory (v : list ChatMessage) : M unit := modifyApp (with_chatHistory v).
Definition setIsQueryLoading (v : bool) : M unit := modifyApp (with_isQueryLoading v).
Definition setExampleQuestions (v : list jsstring) : M unit := modifyApp (with_exampleQuestions v).
Definition setDocumentName (v : jsstring) : M unit := modifyApp (with_documentName v).
Definition setFiles (v : list File) : M unit := modifyApp (with_files v).
Definition setPatientName (v : jsstring) : M unit := modifyApp (with_patientName v).

(** [setUploadProgress]: every update of the progress is also recorded in
    the trace, in the order of the calls. *)
Definition updateUploadProgress (f : option Progress -> option Progress)
  : M unit :=
  w <- world ;;
  let p := f (uploadProgress (state w)) in
  modifyApp (with_uploadProgress p) ;; emitEvent (EvProgress p).

Definition setUploadProgress (p : option Progress) : M unit :=
  updateUploadProgress (fun _ => p).

Definition appendChat (m : ChatMessage) : M unit :=
  modifyApp (fun a => with_chatHistory (chatHistory a ++ [m]) a).

(** The initial values of the [useState] calls. *)
Definition initialState : AppState :=
  {| status := Initializing;
     isApiKeySelected := false;
     apiKeyError := None;
     error := None;
     uploadProgress := None;
     activeRagStoreName := None;
     chatHistory := [];
     isQueryLoading := false;
     exampleQuestions := [];
     documentName := [];
     files := [];
     patientName := [] |}.

Definition initialWorld : World :=
  {| ai := false; state := initialState; trace := [] |}.

(** ** Decimal rendering of numbers in template literals *)

Fixpoint digitsOf (u : Decimal.uint) : jsstring :=
  match u with
  | Decimal.Nil => []
  | Decimal.D0 u => 48%N :: digitsOf u
  | Decimal.D1 u => 49%N :: digitsOf u
  | Decimal.D2 u => 50%N :: digitsOf u
  | Decimal.D3 u => 51%N :: digitsOf u
  | Decimal.D4 u => 52%N :: digitsOf u
  | Decimal.D5 u => 53%N :: digitsOf u
  | Decimal.D6 u => 54%N :: digitsOf u
  | Decimal.D7 u => 55%N :: digitsOf u
  | Decimal.D8 u => 56%N :: digitsOf u
  | Decimal.D9 u => 57%N :: digitsOf u
  end.

Definition decimal (n : N) : jsstring := digitsOf (N.to_uint n).

(** ** Handlers *)

Definition checkApiKey : M unit :=
  e <- env ;;
  match hasSelectedApiKey e with
  | None => ret tt
  | Some (Ok hasKey) => setIsApiKeySelected hasKey
  | Some (Throw err) =>
      consoleError (js "Error checking for API key:") err ;;
      setIsApiKeySelected false
  end.

(** [handleUnload], registered for [beforeunload]. *)
Definition handleUnload : M unit :=
  w <- world ;;
  match activeRagStoreName (state w) with
  | Some name =>
      if truthy name then
        tryCatch (deleteRagStore name)
          (fun err => consoleError (js "Error deleting RAG store on unload:") err)
      else ret tt
  | None => ret tt
  end.

Definition handleError (message : jsstring) (err : JsErr) : M unit :=
  consoleError message err ;;
  setError (Some (message
                  ++ (if errTruthy err then js ": " ++ errText err else []))) ;;
  setStatus Error.

Definition clearError : M unit :=
  setError None ;;
  setStatus Welcome.

(** The effects run once the component is mounted. *)
Definition mount : M unit :=
  checkApiKey ;;
  setStatus Welcome.

Definition handleSelectKey : M unit :=
  e <- env ;;
  match openSelectKey e with
  | Some answer =>
      tryCatch (lift answer ;; checkApiKey)
        (fun err =>
           consoleError (js "Failed to open API key selection dialog") err)
  | None =>
      emitEvent (EvAlert (js "API key selection is not available in this environment."))
  end.

(** The [for] loop over [files], entered at index [i] with the files from
    [i] on still to be uploaded; [count] is [files.length]. *)
Fixpoint uploadLoop (ragStoreName : jsstring) (count i : nat)
  (rest : list File) : M unit :=
  match rest with
  | [] => ret tt
  | f :: rest' =>
    updateUploadProgress (fun prev =>
      Some {| current := i + 1;
              total := match prev with Some p => total p | None => None end;
              message := Some (js "正在匯入文件...");
              fileName := Some (js "(" ++ decimal (N.of_nat (i + 1)) ++ js "/"
                                ++ decimal (N.of_nat count) ++ js ") "
                                ++ file_name f) |}) ;;
    uploadToRagStore ragStoreName f ;;
    uploadLoop ragStoreName count (S i) rest'
  end.

(** The body of the [try] block of [handleAdminSetupComplete]. *)
Definition provision `{Builtins} (files : list File) (totalSteps : nat)
  : M unit :=
  e <- env ;;
  let storeName := js "clinic-session-" ++ decimal (date_now e) in
  ragStoreName <- createRagStore storeName ;;
  setUploadProgress
    (Some {| current := 1; total := Some totalSteps;
             message := Some (js "正在處理知識庫..."); fileName := None |}) ;;
  uploadLoop ragStoreName (List.length files) 0 files ;;
  setUploadProgress
    (Some {| current := List.length files + 1; total := Some totalSteps;
             message := Some (js "正在生成建議問題..."); fileName := Some [] |}) ;;
  questions <- generateExampleQuestions ragStoreName ;;
  setExampleQuestions questions ;;
  setUploadProgress
    (Some {| current := totalSteps; total := Some totalSteps;
             message := Some (js "系統準備就緒"); fileName := Some [] |}) ;;
  delay 500 ;;
  let docName :=
    if 0 <? List.length files then js "診所知識庫" else js "診所 AI 助理" in
  setDocumentName docName ;;
  setActiveRagStoreName (Some ragStoreName) ;;
  setChatHistory [] ;;
  setStatus Binding ;;
  setFiles [].

(** The test of the [catch] block on the lower-cased failure message. *)
Definition invalidCredential `{Builtins} (err : JsErr) : bool :=
  let errorMessage := toLowerCase (errText err) in
  includes errorMessage (js "api key not valid")
  || includes errorMessage (js "requested entity was not found").

(** The [catch] block of [handleAdminSetupComplete]. *)
Definition provisionFailed `{Builtins} (err : JsErr) : M unit :=
  (if invalidCredential err then
     setApiKeyError (Some (js "選擇的 API Key 無效，請重新選擇。")) ;;
     setIsApiKeySelected false ;;
     setStatus Welcome
   else
     handleError (js "啟動會話失敗") err) ;;
  throw err.

Definition handleAdminSetupComplete `{Builtins} : M unit :=
  w <- world ;;
  let files := files (state w) in
  if negb (isApiKeySelected (state w)) then
    setApiKeyError (Some (js "請先選擇您的 Gemini API Key。")) ;;
    throw (ErrorObj (js "API Key is required."))
  else
    setApiKeyError None ;;
    tryCatch initialize
      (fun err =>
         handleError (js "初始化失敗，請選擇有效的 API Key。") err ;;
         throw err) ;;
    setStatus Uploading ;;
    let totalSteps := List.length files + 2 in
    setUploadProgress
      (Some {| current := 0; total := Some totalSteps;
               message := Some (js "正在初始化診所資料庫..."); fileName := None |}) ;;
    tryFinally
      (tryCatch (provision files totalSteps) provisionFailed)
      (setUploadProgress None).

Definition welcomeText (name : jsstring) : jsstring :=
  js "# 歡迎回來，" ++ name ++ js " " ++ [LF; LF]
  ++ js "今天有什麼我可以幫您的嗎？您可以詢問：" ++ [LF; LF]
  ++ js "- 門診時間" ++ [LF] ++ js "- 預約掛號" ++ [LF] ++ js "- 醫師介紹".

Definition handlePatientLogin (name phone : jsstring) : M unit :=
  setPatientName name ;;
  setChatHistory [ {| role := model; parts := [Some (welcomeText name)];
                      groundingChunks := None; isCrisis := None |} ] ;;
  setStatus Chatting.

(** [if (activeRagStoreName)]: the name when it is neither null nor empty. *)
Definition activeStore (a : AppState) : option jsstring :=
  match activeRagStoreName a with
  | Some name => if truthy name then Some name else None
  | None => None
  end.

Definition handleEndChat : M unit :=
  w <- world ;;
  match activeStore (state w) with
  | Some name =>
      tryCatch (deleteRagStore name)
        (fun err =>
           consoleError (js "Failed to delete RAG store in background") err)
  | None => ret tt
  end ;;
  setActiveRagStoreName None ;;
  setChatHistory [] ;;
  setExampleQuestions [] ;;
  setDocumentName [] ;;
  setFiles [] ;;
  setStatus Welcome.

Definition APOLOGY : jsstring := js "抱歉，發生錯誤，請重試。".

Definition handleSendMessage `{Builtins} (message : jsstring) : M unit :=
  w <- world ;;
  match activeStore (state w) with
  | None => ret tt
  | Some name =>
    let userMessage :=
      {| role := user; parts := [Some message];
         groundingChunks := None; isCrisis := None |} in
    appendChat userMessage ;;
    setIsQueryLoading true ;;
    tryFinally
      (tryCatch
         (result <- fileSearch name message ;;
          let modelMessage :=
            {| role := model; parts := [q_text result];
               groundingChunks := Some (q_groundingChunks result);
               isCrisis := Some (q_isCrisis result) |} in
          appendChat modelMessage)
         (fun err =>
            let errorMessage :=
              {| role := model; parts := [Some APOLOGY];
                 groundingChunks := None; isCrisis := None |} in
            appendChat errorMessage ;;
            handleError (js "取得回應失敗") err))
      (setIsQueryLoading false)
  end.

(** ** What the user interface offers in each status

    [renderContent] shows one view per status, and each view is given the
    handlers it may call: the welcome view [handleAdminSetupComplete],
    [handleSelectKey] and [setFiles]; the binding view [handlePatientLogin];
    the chat view [handleSendMessage] (for a query that is not blank) and
    [handleEndChat]; the error view [clearError].  Regaining focus or
    visibility ([checkApiKey]) and leaving the page ([handleUnload]) may
    occur in any status. *)
Inductive Action :=
| Mount
| Focus
| Unload
| SelectKey
| EditFiles (fs : list File)
| Setup
| Login (name phone : jsstring)
| Send (message : jsstring)
| EndChat
| AcknowledgeError.

Definition isStatus (a b : AppStatus) : bool :=
  match a, b with
  | Initializing, Initializing | Welcome, Welcome | Uploading, Uploading
  | Binding, Binding | Chatting, Chatting | Error, Error => true
  | _, _ => false
  end.

Definition enabled (act : Action) (a : AppState) : bool :=
  match act with
  | Mount => isStatus (status a) Initializing
  | Focus | Unload => true
  | SelectKey | EditFiles _ | Setup => isStatus (status a) Welcome
  | Login _ _ => isStatus (status a) Binding
  | Send message =>
      isStatus (status a) Chatting && truthy (trim message)
      && negb (isQueryLoading a)
  | EndChat => isStatus (status a) Chatting
  | AcknowledgeError => isStatus (status a) Error
  end.

(** A handler run to its end; what it throws goes to the caller, which is
    the event loop. *)
Definition perform `{Builtins} (act : Action) : M unit :=
  match act with
  | Mount => mount
  | Focus => checkApiKey
  | Unload => handleUnload
  | SelectKey => handleSelectKey
  | EditFiles fs => setFiles fs
  | Setup => handleAdminSetupComplete
  | Login name phone => handlePatientLogin name phone
  | Send message => handleSendMessage message
  | EndChat => handleEndChat
  | AcknowledgeError => clearError
  end.

(** The states the session can be in: the initial one, and those reached
    from it by handlers the interface offers, each run in surroundings of
    its own. *)
Inductive reachable `{Builtins} : World -> Prop :=
| reachable_initial : reachable initialWorld
| reachable_step w act e :
    reachable w ->
    enabled act (state w) = true ->
    reachable (snd (perform act e w)).

(** ** Observations on traces *)

(** The files handed to the gateway's upload, in order. *)
Fixpoint uploadsOf (t : list Event) : list (jsstring * File) :=
  match t with
  | [] => []
  | EvUpload store f :: r => (store, f) :: uploadsOf r
  | _ :: r => uploadsOf r
  end.

(** The progress values set, in order. *)
Fixpoint progressOf (t : list Event) : list (option Progress) :=
  match t with
  | [] => []
  | EvProgress p :: r => p :: progressOf r
  | _ :: r => progressOf r
  end.

(** The values of [current], and of [total], of the progress objects set. *)
Fixpoint currentsOf (ps : list (option Progress)) : list nat :=
  match ps with
  | [] => []
  | Some p :: r => current p :: currentsOf r
  | None :: r => currentsOf r
  end.

Fixpoint totalsOf (ps : list (option Progress)) : list (option nat) :=
  match ps with
  | [] => []
  | Some p :: r => total p :: totalsOf r
  | None :: r => totalsOf r
  end.

(** Progress updates (by their [current]) and uploads (by their file)
    together, in the order in which they happen. *)
Fixpoint milestonesOf (t : list Event) : list (nat + File) :=
  match t with
  | [] => []
  | EvProgress (Some p) :: r => inl (current p) :: milestonesOf r
  | EvUpload _ f :: r => inr f :: milestonesOf r
  | _ :: r => milestonesOf r
  end.

(** The milestones of the upload loop over [fs] entered at index [i]: for
    each file the progress update, then the upload. *)
Definition loopMilestones (i : nat) (fs : list File) : list (nat + File) :=
  flat_map (fun kf => [inl (fst kf); inr (snd kf)])
    (combine (seq (S i) (List.length fs)) fs).

(** The stores whose deletion was requested from the gateway, in order. *)
Fixpoint deletionsOf (t : list Event) : list jsstring :=
  match t with
  | [] => []
  | EvDelete store :: r => store :: deletionsOf r
  | _ :: r => deletionsOf r
  end.

(** The requests to [generateContent], in order. *)
Fixpoint generationsOf (t : list Event) : list GenRequest :=
  match t with
  | [] => []
  | EvGenerateContent req :: r => req :: generationsOf r
  | _ :: r => generationsOf r
  end.

End App.

(* ===================================================================== *)
(** * Concrete surroundings                                                *)
(* ===================================================================== *)

(** Concrete built-ins, gateway answers and files, on which the handlers
    are run in the examples below. *)
Module Scenario.
Import Js Types Effects Gemini App.

(** Lower-casing of the letters A to Z, every other unit kept: what the
    runtime does on the strings of the examples. *)
Definition lowerAscii (s : jsstring) : jsstring :=
  map (fun c => if ((65 <=? c) && (c <=? 90))%N then (c + 32)%N else c) s.

(** The payload of the examples, a JSON array of five strings and a
    number. *)
Definition PAYLOAD : jsstring :=
  html "['q1', 'q2', 7, 'q3', 'q4', 'q5']".

(** A parser that knows the payload above and rejects everything else. *)
Definition parseSample (s : jsstring) : Res Json :=
  if jseqb s PAYLOAD then
    Ok (JArray [JString (js "q1"); JString (js "q2"); JNumber (js "7");
                JString (js "q3"); JString (js "q4"); JString (js "q5")])
  else Throw (ErrorObj (js "Unexpected token")).

Definition sampleBuiltins : Builtins :=
  {| toLowerCase := lowerAscii; JSON_parse := parseSample |}.

Definition STORE : jsstring := js "fileSearchStores/clinic-1".

Definition fileA : File := {| file_name := js "faq.pdf"; file_content := 1 |}.
Definition fileB : File := {| file_name := js "policy.md"; file_content := 2 |}.

(** A gateway on which everything succeeds: uploads are done after one
    poll, a query is answered with a heading and a list, the questions
    with the payload. *)
Definition goodEnv : Env :=
  {| new_client := None;
     stores_create := fun _ => Ok (Some STORE);
     stores_upload := fun _ _ => UploadDone 1;
     models_generateContent := fun req =>
       match req_responseMimeType req with
       | Some _ => Ok {| resp_text := Some (PAYLOAD ++ [LF]);
                         resp_groundingChunks := None |}
       | None => Ok {| resp_text := Some (js "# 門診" ++ [LF] ++ js "- 週一");
                       resp_groundingChunks := None |}
       end;
     stores_delete := fun _ => Ok tt;
     hasSelectedApiKey := Some (Ok true);
     openSelectKey := Some (Ok tt);
     date_now := 1700000000000 |}.

(** The same gateway with every [generateContent] and every deletion
    failing. *)
Definition failingEnv : Env :=
  {| new_client := None;
     stores_create := stores_create goodEnv;
     stores_upload := stores_upload goodEnv;
     models_generateContent := fun _ => Throw (ErrorObj (js "503 unavailable"));
     stores_delete := fun _ => Throw (ErrorObj (js "404"));
     hasSelectedApiKey := Some (Ok true);
     openSelectKey := Some (Ok tt);
     date_now := 1700000000001 |}.



(** Runs of handlers one after the other, each in its surroundings. *)
Fixpoint runAll (steps : list (Action * Env)) (w : World) : World :=
  match steps with
  | [] => w
  | (act, e) :: r => runAll r (snd (@perform sampleBuiltins act e w))
  end.

(** Mount and choose two files: the session is ready to be set up. *)
Definition readyWorld : World :=
  runAll [(Mount, goodEnv); (EditFiles [fileA; fileB], goodEnv)] initialWorld.

(** Set up: the session waits for the patient. *)
Definition boundWorld : World := runAll [(Setup, goodEnv)] readyWorld.

(** Then the patient is verified: the session is chatting. *)
Definition chattingWorld : World :=
  runAll [(Login (js "陳大明") (js "0912345678"), goodEnv)] boundWorld.

(** Then a query is sent while the gateway fails, and the error is
    acknowledged. *)
Definition failedChatWorld : World :=
  runAll [(Send (js "hi"), failingEnv)] chattingWorld.

Definition acknowledgedWorld : World :=
  runAll [(AcknowledgeError, goodEnv)] failedChatWorld.


End Scenario.

(* ===================================================================== *)
(** * Notions used in the statements                                      *)
(* ===================================================================== *)

(** Named states, outcomes and observations in terms of which the
    properties below are stated. *)
Module Notions.
Import Js Markup Types Effects Gemini App Scenario.

(** The paragraph buffer after a run of plain lines. *)
Fixpoint accumulate (b : jsstring) (ls : list jsstring) : jsstring :=
  match ls with
  | [] => b
  | l :: ls' => accumulate (b ++ (if truthy b then BR else []) ++ l) ls'
  end.

(** The world with further events. *)
Definition after (w : World) (t : list Event) : World :=
  Build_World (ai w) (state w) (trace w ++ t).

(** The object [fileSearch] returns from its crisis branch. *)
Definition CRISIS_RESULT : QueryResult :=
  {| q_text := Some (js "CRISIS_DETECTED");
     q_groundingChunks := [];
     q_isCrisis := true |}.

(** The list [generateExampleQuestions] settles on for an answer of the
    gateway. *)
Definition pickQuestions (parsedData : Json) : list jsstring :=
  match parsedData with
  | JArray items => firstn 4 (stringsOf items)
  | _ => DEFAULT_QUESTIONS_4
  end.

(** The list [generateExampleQuestions] returns, as a function of the
    answer of the gateway. *)
Definition questionsOf `{Builtins} (answer : Res GenResponse)
  : list jsstring :=
  match answer with
  | Throw _ => DEFAULT_QUESTIONS_2
  | Ok response =>
    match resp_text response with
    | None => DEFAULT_QUESTIONS_2
    | Some text =>
      match JSON_parse (trim text) with
      | Ok parsedData => pickQuestions parsedData
      | Throw _ =>
        match fencedJson (trim text) with
        | None | Some [] => DEFAULT_QUESTIONS_4
        | Some block =>
          match JSON_parse block with
          | Ok parsedData => pickQuestions parsedData
          | Throw _ => DEFAULT_QUESTIONS_2
          end
        end
      end
    end
  end.

(** Events that concern neither uploads, nor the progress, nor deletions. *)
Definition quiet (t : list Event) : Prop :=
  uploadsOf t = [] /\ progressOf t = [] /\ deletionsOf t = [].

(** The events of [polls] rounds of polling. *)
Fixpoint pollEvents (polls : nat) : list Event :=
  match polls with
  | O => []
  | S k => EvDelay 3000 :: EvOperationsGet :: pollEvents k
  end.

(** [prev.total] of a possibly null previous progress. *)
Definition totalOf (p : option Progress) : option nat :=
  match p with Some p => total p | None => None end.

(** The errors the service throws by itself. *)
Definition NAME_MISSING : JsErr :=
  ErrorObj (js "Failed to create RAG store: name is missing.").

(** What [createRagStore] makes of the answer of the gateway. *)
Definition createOutcome (answer : Res (option jsstring)) : Res jsstring :=
  match answer with
  | Ok (Some n) => if truthy n then Ok n else Throw NAME_MISSING
  | Ok None => Throw NAME_MISSING
  | Throw err => Throw err
  end.

(** The display name given to the store. *)
Definition storeNameOf (e : Env) : jsstring :=
  js "clinic-session-" ++ decimal (date_now e).

(** The label given to the documents. *)
Definition docNameOf (fs : list File) : jsstring :=
  if 0 <? List.length fs then js "診所知識庫" else js "診所 AI 助理".

(** The progress object shown when the system is ready. *)
Definition readyProgress (totalSteps : nat) : Progress :=
  {| current := totalSteps; total := Some totalSteps;
     message := Some (js "系統準備就緒"); fileName := Some [] |}.

(** The two inline texts about the key. *)
Definition KEY_REQUIRED : jsstring := js "請先選擇您的 Gemini API Key。".
Definition KEY_INVALID : jsstring := js "選擇的 API Key 無效，請重新選擇。".

(** The text shown by the error view for a failure reported through
    [handleError]. *)
Definition errorText (message : jsstring) (err : JsErr) : jsstring :=
  message ++ (if errTruthy err then js ": " ++ errText err else []).

(** The state in which the credential is asked for again. *)
Definition credentialRetry (a : AppState) : AppState :=
  {| status := Welcome;
     isApiKeySelected := false;
     apiKeyError := Some KEY_INVALID;
     error := error a;
     uploadProgress := None;
     activeRagStoreName := activeRagStoreName a;
     chatHistory := chatHistory a;
     isQueryLoading := isQueryLoading a;
     exampleQuestions := exampleQuestions a;
     documentName := documentName a;
     files := files a;
     patientName := patientName a |}.

(** The state of the fatal error of the set-up. *)
Definition setupFailed (err : JsErr) (a : AppState) : AppState :=
  {| status := Error;
     isApiKeySelected := isApiKeySelected a;
     apiKeyError := None;
     error := Some (errorText (js "啟動會話失敗") err);
     uploadProgress := None;
     activeRagStoreName := activeRagStoreName a;
     chatHistory := chatHistory a;
     isQueryLoading := isQueryLoading a;
     exampleQuestions := exampleQuestions a;
     documentName := documentName a;
     files := files a;
     patientName := patientName a |}.

(** The state of a session bound to a freshly created store. *)
Definition bound `{Builtins} (e : Env) (store : jsstring) (a : AppState)
  : AppState :=
  {| status := Binding;
     isApiKeySelected := isApiKeySelected a;
     apiKeyError := None;
     error := error a;
     uploadProgress := None;
     activeRagStoreName := Some store;
     chatHistory := [];
     isQueryLoading := isQueryLoading a;
     exampleQuestions :=
       questionsOf (models_generateContent e (questionsRequest store));
     documentName := docNameOf (files a);
     files := [];
     patientName := patientName a |}.

(** The world in which the [try] block of the set-up starts. *)
Definition provisioningStart (w : World) : World :=
  let totalSteps := List.length (files (state w)) + 2 in
  let p := Some {| current := 0; total := Some totalSteps;
                   message := Some (js "正在初始化診所資料庫...");
                   fileName := None |} in
  Build_World true
    (with_uploadProgress p
       (with_status Uploading (with_apiKeyError None (state w))))
    (trace w ++ [EvProgress p]).

(** The three messages [handleSendMessage] builds. *)
Definition userMessage (message : jsstring) : ChatMessage :=
  {| role := user; parts := [Some message];
     groundingChunks := None; isCrisis := None |}.

Definition modelMessage (result : QueryResult) : ChatMessage :=
  {| role := model; parts := [q_text result];
     groundingChunks := Some (q_groundingChunks result);
     isCrisis := Some (q_isCrisis result) |}.

Definition apologyMessage : ChatMessage :=
  {| role := model; parts := [Some APOLOGY];
     groundingChunks := None; isCrisis := None |}.

(** The state after a query that was answered. *)
Definition answered (message : jsstring) (result : QueryResult)
  (a : AppState) : AppState :=
  {| status := status a;
     isApiKeySelected := isApiKeySelected a;
     apiKeyError := apiKeyError a;
     error := error a;
     uploadProgress := uploadProgress a;
     activeRagStoreName := activeRagStoreName a;
     chatHistory := chatHistory a ++ [userMessage message; modelMessage result];
     isQueryLoading := false;
     exampleQuestions := exampleQuestions a;
     documentName := documentName a;
     files := files a;
     patientName := patientName a |}.

(** The state after a query that threw. *)
Definition queryFailed (message : jsstring) (err : JsErr)
  (a : AppState) : AppState :=
  {| status := Error;
     isApiKeySelected := isApiKeySelected a;
     apiKeyError := apiKeyError a;
     error := Some (errorText (js "取得回應失敗") err);
     uploadProgress := uploadProgress a;
     activeRagStoreName := activeRagStoreName a;
     chatHistory := chatHistory a ++ [userMessage message; apologyMessage];
     isQueryLoading := false;
     exampleQuestions := exampleQuestions a;
     documentName := documentName a;
     files := files a;
     patientName := patientName a |}.

(** The state after the end of the session. *)
Definition ended (a : AppState) : AppState :=
  {| status := Welcome;
     isApiKeySelected := isApiKeySelected a;
     apiKeyError := apiKeyError a;
     error := error a;
     uploadProgress := uploadProgress a;
     activeRagStoreName := None;
     chatHistory := [];
     isQueryLoading := isQueryLoading a;
     exampleQuestions := [];
     documentName := [];
     files := [];
     patientName := patientName a |}.

Definition NOT_INITIALIZED : JsErr := ErrorObj (js "Gemini AI not initialized").

(** The result [fileSearch] makes of an answer of the gateway. *)
Definition resultOf (response : GenResponse) : QueryResult :=
  {| q_text := resp_text response;
     q_groundingChunks :=
       match resp_groundingChunks response with
       | Some cs => cs
       | None => []
       end;
     q_isCrisis := false |}.

(** While the patient is being verified or is chatting a store is active;
    and a store is only ever named once the service is initialised. *)
Definition sessionInvariant (w : World) : Prop :=
  (status (state w) = Binding \/ status (state w) = Chatting ->
   exists name, activeStore (state w) = Some name)
  /\ (forall name, activeRagStoreName (state w) = Some name -> ai w = true).

(** Runs of the scenarios are reachable when each handler is offered by the
    interface at its turn. *)
Fixpoint offered (steps : list (Action * Env)) (w : World) : bool :=
  match steps with
  | [] => true
  | (act, e) :: r =>
      enabled act (state w)
      && offered r (snd (@perform sampleBuiltins act e w))
  end.

End Notions.

(* ===================================================================== *)
(** * Blocks of markup                                                     *)
(* ===================================================================== *)

(** The pieces of markup the renderer emits, by name, and the kinds of
    lines its further properties are about. *)
Module Blocks.
Import Js Markup.

Definition H1_OPEN : jsstring :=
  html "<h1 class='text-xl font-bold text-clinic-orange mt-4 mb-2 border-b border-clinic-orange/20 pb-1'>".
Definition H1_CLOSE : jsstring := js "</h1>".
Definition H2_OPEN : jsstring :=
  html "<h2 class='text-lg font-bold text-clinic-blue mt-3 mb-2'>".
Definition H2_CLOSE : jsstring := js "</h2>".
Definition UL_OPEN : jsstring :=
  html "<ul class='list-none my-2 pl-2 space-y-1'>".
Definition UL_CLOSE : jsstring := js "</ul>".
Definition OL_OPEN : jsstring :=
  html "<ol class='list-decimal list-inside my-2 pl-5 space-y-1'>".
Definition OL_CLOSE : jsstring := js "</ol>".
Definition BULLET_OPEN : jsstring :=
  html "<li class='flex items-start'><span class='mr-2 text-clinic-orange font-bold text-lg leading-none'>•</span><span>".
Definition BULLET_CLOSE : jsstring := js "</span></li>".
Definition CODE_OPEN : jsstring :=
  html "<code class='bg-gem-mist/50 px-1 py-0.5 rounded-sm font-mono text-sm'>".

(** An item of an unordered list, and of an ordered list. *)
Definition bulletItem (item : jsstring) : jsstring :=
  BULLET_OPEN ++ item ++ BULLET_CLOSE.
Definition numberedItem (item : jsstring) : jsstring :=
  js "<li>" ++ item ++ js "</li>".

(** Text without inline delimiter. *)
Definition undelimited (s : jsstring) : bool :=
  forallb (fun c => negb (isDelimiter c)) s.

(** Text without line terminator. *)
Definition oneLine (s : jsstring) : bool :=
  forallb (fun c => negb (isLineTerminator c)) s.

(** A line of white space only (the empty line among them). *)
Definition blankLine (l : jsstring) : bool := forallb isWhiteSpace l.

(** The markup of the lines of a text, the final flushes included. *)
Definition renderLines (ls : list jsstring) : jsstring :=
  out (flushList (flushPara (fold_left renderLine ls renderInit))).

(** A matcher that can only match where a delimiter stands. *)
Definition delimiterDriven (m : matcher) : Prop :=
  forall c r, isDelimiter c = false -> m (c :: r) = None.

(** The three inline elements. *)
Definition strong (g : jsstring) : jsstring :=
  js "<strong>" ++ g ++ js "</strong>".
Definition em (g : jsstring) : jsstring := js "<em>" ++ g ++ js "</em>".
Definition code (g : jsstring) : jsstring := CODE_OPEN ++ g ++ js "</code>".

(** One text continues another. *)
Definition continues (a b : jsstring) : Prop := exists s, b = a ++ s.

(** The item, the opening and the closing of a list of either type. *)
Definition itemOf (t : ListType) (item : jsstring) : jsstring :=
  match t with ul => bulletItem item | ol => numberedItem item end.
Definition openOf (t : ListType) : jsstring :=
  match t with ul => UL_OPEN | ol => OL_OPEN end.
Definition closeOf (t : ListType) : jsstring :=
  match t with ul => UL_CLOSE | ol => OL_CLOSE end.

(** A line the loop body takes for an item of a list of type [t]. *)
Definition listLine (t : ListType) (l item : jsstring) : Prop :=
  forall st,
    renderLine st l = emit (itemOf t item) (openList t (flushPara st)).

(** A bullet line: optional indentation, a star or a hyphen, one white
    space, then the item. *)
Definition bulletLine (l item : jsstring) : Prop :=
  exists indent b w,
    l = indent ++ b :: w :: item
    /\ blankLine indent = true
    /\ (b = STAR \/ b = HYPHEN)
    /\ isWhiteSpace w = true.

(** A numbered line: optional indentation, digits, a dot, one white space,
    then the item. *)
Definition numberLine (l item : jsstring) : Prop :=
  exists indent ds w,
    l = indent ++ ds ++ DOT :: w :: item
    /\ blankLine indent = true
    /\ ds <> [] /\ forallb isDigit ds = true
    /\ isWhiteSpace w = true.

(** An item the inline patterns and the greedy group leave as it is. *)
Definition plainItem (item : jsstring) : Prop :=
  undelimited item = true /\ oneLine item = true.

(** At most one block is open: never a paragraph and a list at once. *)
Definition oneOpenBlock (st : RenderState) : Prop :=
  listType st = None \/ paraBuffer st = [].

End Blocks.

(* ===================================================================== *)
(** * The patient verification ([src/components/PatientLogin.tsx])         *)
(* ===================================================================== *)

Module PatientLogin.
Import Js Types Effects.
Local Open Scope js_scope.

Record Patient := { name : jsstring; birthday : jsstring }.

(** The object [MOCK_HIS_DB], by its own keys.  A key that the object only
    inherits from its prototype gives a value without [birthday], on which
    the test of [handleBirthdaySubmit] fails as it does on a missing key;
    such keys are taken as missing. *)
Definition MOCK_HIS_DB : list (jsstring * Patient) :=
  [ (js "0912345678", {| name := js "陳大明"; birthday := js "19900101" |});
    (js "0987654321", {| name := js "林小美"; birthday := js "19950520" |}) ].

(** [db[key]] *)
Fixpoint lookup (db : list (jsstring * Patient)) (key : jsstring)
  : option Patient :=
  match db with
  | [] => None
  | (k, v) :: r => if jseqb k key then Some v else lookup r key
  end.

Inductive Step := PHONE | BIRTHDAY.

(** The component state, one field per [useState], and the number of
    reset timers that are set and have not fired yet. *)
Record LoginState := {
  step : Step;
  phone : jsstring;
  birthdayInput : jsstring;              (* birthday *)
  error : option jsstring;
  timers : nat
}.

Definition initialLogin : LoginState :=
  {| step := PHONE; phone := []; birthdayInput := []; error := None;
     timers := 0 |}.

Definition INVALID_PHONE : jsstring := js "請輸入有效的手機號碼。".
Definition NOT_FOUND : jsstring := js "找不到資料，請檢查您的手機號碼和生日。".

Definition handlePhoneSubmit (s : LoginState) : LoginState :=
  if List.length (phone s) <? 10 then
    {| step := step s; phone := phone s; birthdayInput := birthdayInput s;
       error := Some INVALID_PHONE; timers := timers s |}
  else
    {| step := BIRTHDAY; phone := phone s; birthdayInput := birthdayInput s;
       error := None; timers := timers s |}.

(** The callback of the timer set by a failed verification. *)
Definition resetForm (s : LoginState) : LoginState :=
  {| step := PHONE; phone := []; birthdayInput := []; error := None;
     timers := pred (timers s) |}.

(** [handleBirthdaySubmit], with the [onLoginSuccess] the component is
    given. *)
Definition handleBirthdaySubmit (onLoginSuccess : jsstring -> jsstring -> M unit)
  (s : LoginState) : M LoginState :=
  let cleared :=
    {| step := step s; phone := phone s; birthdayInput := birthdayInput s;
       error := None; timers := timers s |} in
  let failed :=
    {| step := step s; phone := phone s; birthdayInput := birthdayInput s;
       error := Some NOT_FOUND; timers := S (timers s) |} in
  match lookup MOCK_HIS_DB (phone s) with
  | Some patient =>
      if jseqb (birthday patient) (birthdayInput s) then
        onLoginSuccess (name patient) (phone s) ;; ret cleared
      else ret failed
  | None => ret failed
  end.

(** The pairs of a phone number and a birthday for which a patient is on
    record, with the name of the patient. *)
Definition registered (phoneNumber birth patientName : jsstring) : Prop :=
  (phoneNumber = js "0912345678" /\ birth = js "19900101"
   /\ patientName = js "陳大明")
  \/ (phoneNumber = js "0987654321" /\ birth = js "19950520"
      /\ patientName = js "林小美").

End PatientLogin.

(* ===================================================================== *)
(** * The set-up view ([src/components/WelcomeScreen.tsx])                 *)
(* ===================================================================== *)

Module WelcomeScreen.
Import Js Types.

(** [setFiles(prev => [...prev, ...Array.from(event.target.files)])], when
    the event carries files. *)
Definition handleFileChange (selected : option (list File))
  (prev : list File) : list File :=
  match selected with
  | Some fs => prev ++ fs
  | None => prev
  end.

(** [handleDrop] updates the files as [handleFileChange] does. *)
Definition handleDrop (dropped : option (list File))
  (prev : list File) : list File :=
  match dropped with
  | Some fs => prev ++ fs
  | None => prev
  end.

(** The entries of an array with their indices. *)
Definition indexed {A} (l : list A) : list (nat * A) :=
  combine (seq 0 (List.length l)) l.

(** [prevFiles.filter((_, index) => index !== indexToRemove)] *)
Definition handleRemoveFile (indexToRemove : nat) (prevFiles : list File)
  : list File :=
  map snd
    (filter (fun entry => negb (fst entry =? indexToRemove))
       (indexed prevFiles)).

End WelcomeScreen.

(* ===================================================================== *)
(** * The chat view ([src/components/ChatInterface.tsx])                   *)
(* ===================================================================== *)

Module ChatInterface.
Import Js Markup Types Effects.
Local Open Scope js_scope.

(** The update of [suggestionIndex] made by the interval callback. *)
Definition nextSuggestion (count suggestionIndex : nat) : nat :=
  (suggestionIndex + 1) mod count.

(** [suggestionIndex] after a number of ticks of the interval. *)
Fixpoint suggestionIndex (count ticks : nat) : nat :=
  match ticks with
  | O => 0
  | S k => nextSuggestion count (suggestionIndex count k)
  end.

(** [currentSuggestion] after a number of ticks; [None] stands for the
    [undefined] of an index without entry. *)
Definition currentSuggestion (exampleQuestions : list jsstring)
  (ticks : nat) : option jsstring :=
  match exampleQuestions with
  | [] => Some []
  | _ :: _ =>
      nth_error exampleQuestions
        (suggestionIndex (List.length exampleQuestions) ticks)
  end.

(** [handleSubmit]: the value of the input afterwards. *)
Definition handleSubmit (onSendMessage : jsstring -> M unit)
  (query : jsstring) : M jsstring :=
  if truthy (trim query) then onSendMessage query ;; ret []
  else ret query.

(** The buttons of the sources of a message: for each chunk with a text
    that is not empty, its number (from one, by its place among all
    chunks) and its text. *)
Fixpoint sourceButtons (chunkIndex : nat) (chunks : list Chunk)
  : list (nat * jsstring) :=
  match chunks with
  | [] => []
  | chunk :: r =>
      match retrievedText chunk with
      | Some t =>
          if truthy t then (chunkIndex + 1, t) :: sourceButtons (S chunkIndex) r
          else sourceButtons (S chunkIndex) r
      | None => sourceButtons (S chunkIndex) r
      end
  end.

(** What is shown for one message of the history: the crisis card, or the
    rendered text, on the side of the user or not, with the block of the
    sources and its buttons when the block is shown. *)
Inductive Bubble :=
| CrisisCard
| Rendered (ownMessage : bool) (markup : jsstring)
           (sources : option (list (nat * jsstring))).

Definition isUser (r : Role) : bool :=
  match r with user => true | model => false end.

(** The body of [history.map]; [None] stands for the [TypeError] of
    reading the text of a part that is not there. *)
Definition viewMessage (m : ChatMessage) : option Bubble :=
  match isCrisis m with
  | Some true => Some CrisisCard
  | _ =>
    match parts m with
    | [] => None
    | part :: _ =>
      let markup :=
        match part with
        | Some text => renderMarkdown text
        | None => []
        end in
      let sources :=
        match role m, groundingChunks m with
        | model, Some ((_ :: _) as chunks) => Some (sourceButtons 0 chunks)
        | _, _ => None
        end in
      Some (Rendered (isUser (role m)) markup sources)
    end
  end.

End ChatInterface.

(* ===================================================================== *)
(** * Further observations on runs                                         *)
(* ===================================================================== *)

Module Observations.
Import Js Markup Types Effects Gemini App Notions.

(** The number of calls of [operations.get]. *)
Fixpoint getsOf (t : list Event) : nat :=
  match t with
  | [] => 0
  | EvOperationsGet :: r => S (getsOf r)
  | _ :: r => getsOf r
  end.

(** The calls of the remote gateway among the events. *)
Definition isGatewayCall (ev : Event) : bool :=
  match ev with
  | EvCreate _ | EvUpload _ _ | EvOperationsGet | EvGenerateContent _
  | EvDelete _ => true
  | EvDelay _ | EvConsoleError _ _ | EvAlert _ | EvProgress _ => false
  end.

Definition gatewayCalls (t : list Event) : list Event :=
  filter isGatewayCall t.

(** The value [checkApiKey] gives to the key flag. *)
Definition keyAnswer (e : Env) (a : AppState) : bool :=
  match hasSelectedApiKey e with
  | None => isApiKeySelected a
  | Some (Ok hasKey) => hasKey
  | Some (Throw _) => false
  end.

(** What a handler leaves behind when it is over: no progress shown, no
    query pending, not the transient status of the set-up, and at most
    four suggested questions. *)
Definition settled (a : AppState) : Prop :=
  uploadProgress a = None
  /\ isQueryLoading a = false
  /\ status a <> Uploading
  /\ List.length (exampleQuestions a) <= 4.

(** The message the chat starts with. *)
Definition welcomeMessage (name : jsstring) : ChatMessage :=
  {| role := model; parts := [Some (welcomeText name)];
     groundingChunks := None; isCrisis := None |}.

(** The roles of [k] exchanges: a query, then its answer. *)
Definition exchanges (k : nat) : list Role :=
  List.concat (repeat [user; model] k).

(** A chat that is the welcome message of the patient followed by whole
    exchanges. *)
Definition transcript (a : AppState) : Prop :=
  exists k rest,
    chatHistory a = welcomeMessage (patientName a) :: rest
    /\ map role rest = exchanges k.

(** The parts of the welcome message. *)
Definition WELCOME_GREETING : jsstring := js "歡迎回來，".
Definition WELCOME_QUESTION : jsstring :=
  js "今天有什麼我可以幫您的嗎？您可以詢問：".
Definition WELCOME_TOPICS : list jsstring :=
  [js "門診時間"; js "預約掛號"; js "醫師介紹"].

(** The stores [handleUnload] asks the gateway to delete. *)
Definition unloadDeletions (w : World) : list jsstring :=
  match activeStore (state w) with
  | Some name => if ai w then [name] else []
  | None => []
  end.

End Observations.

(* ===================================================================== *)
(** * Further concrete surroundings                                        *)
(* ===================================================================== *)

Module Samples.
Import Js Markup Types Effects Gemini App Scenario Notions.

(** The payload of the examples inside a fenced block, with a sentence
    before it. *)
Definition FENCED_PAYLOAD : jsstring :=
  js "Here you are:" ++ [LF] ++ FENCE_OPEN ++ PAYLOAD ++ FENCE_CLOSE.

(** The gateway of the examples answering the questions with the fenced
    block. *)
Definition fencedEnv : Env :=
  {| new_client := None;
     stores_create := stores_create goodEnv;
     stores_upload := stores_upload goodEnv;
     models_generateContent := fun _ =>
       Ok {| resp_text := Some FENCED_PAYLOAD; resp_groundingChunks := None |};
     stores_delete := stores_delete goodEnv;
     hasSelectedApiKey := Some (Ok true);
     openSelectKey := Some (Ok tt);
     date_now := 1700000000004 |}.

(** A host on which building the client throws. *)
Definition noClientEnv : Env :=
  {| new_client := Some (ErrorObj (js "An API Key must be set"));
     stores_create := stores_create goodEnv;
     stores_upload := stores_upload goodEnv;
     models_generateContent := models_generateContent goodEnv;
     stores_delete := stores_delete goodEnv;
     hasSelectedApiKey := Some (Ok true);
     openSelectKey := Some (Ok tt);
     date_now := 1700000000005 |}.

(** A page without the key-selection host. *)
Definition noHostEnv : Env :=
  {| new_client := None;
     stores_create := stores_create goodEnv;
     stores_upload := stores_upload goodEnv;
     models_generateContent := models_generateContent goodEnv;
     stores_delete := stores_delete goodEnv;
     hasSelectedApiKey := None;
     openSelectKey := None;
     date_now := 1700000000006 |}.

End Samples.

(* ===================================================================== *)
(** * The steps of a run                                                   *)
(* ===================================================================== *)

Module Steps.
Import Js Types Effects Gemini App Notions.

(** What a run asks of the gateway and of the clock and what progress it
    shows, one step per event and in the order of the events; what is
    written to the console or shown in an alert is left out. *)
Inductive Step :=
| SProgress (n : nat)                  (* a progress object with [current] n *)
| SClear                               (* setUploadProgress(null) *)
| SCreate (displayName : jsstring)
| SUpload (store : jsstring) (f : File)
| SWait (ms : nat)
| SPoll                                (* ai.operations.get *)
| SGenerate (req : GenRequest)
| SDelete (store : jsstring).

Fixpoint stepsOf (t : list Event) : list Step :=
  match t with
  | [] => []
  | EvProgress (Some p) :: r => SProgress (current p) :: stepsOf r
  | EvProgress None :: r => SClear :: stepsOf r
  | EvCreate displayName :: r => SCreate displayName :: stepsOf r
  | EvUpload store f :: r => SUpload store f :: stepsOf r
  | EvDelay ms :: r => SWait ms :: stepsOf r
  | EvOperationsGet :: r => SPoll :: stepsOf r
  | EvGenerateContent req :: r => SGenerate req :: stepsOf r
  | EvDelete store :: r => SDelete store :: stepsOf r
  | EvConsoleError _ _ :: r => stepsOf r
  | EvAlert _ :: r => stepsOf r
  end.

(** The steps of [polls] rounds of polling: a wait of three seconds, then
    the poll. *)
Fixpoint pollSteps (polls : nat) : list Step :=
  match polls with
  | O => []
  | S k => SWait 3000 :: SPoll :: pollSteps k
  end.

(** The polls made for an upload, by the answer of the gateway. *)
Definition pollsNeeded (b : UploadBehaviour) : nat :=
  match b with
  | UploadRejects _ => 0
  | UploadDone polls => polls
  | UploadPollFails polls _ => S polls
  end.

(** An upload that the gateway brings to its end. *)
Definition uploadDone (e : Env) (store : jsstring) (f : File) : Prop :=
  exists polls, stores_upload e store f = UploadDone polls.

(** The steps of the upload loop over [fs] entered at index [i]: for each
    file its progress update, the upload, and the polls until the upload
    is done; only then the next file. *)
Fixpoint loopSteps (e : Env) (store : jsstring) (i : nat) (fs : list File)
  : list Step :=
  match fs with
  | [] => []
  | f :: rest =>
      SProgress (i + 1) :: SUpload store f
        :: pollSteps (pollsNeeded (stores_upload e store f))
        ++ loopSteps e store (S i) rest
  end.

(** The steps of a set-up over [fs] that ends normally, bound to
    [store]. *)
Definition setupSteps (e : Env) (store : jsstring) (fs : list File)
  : list Step :=
  SProgress 0 :: SCreate (storeNameOf e) :: SProgress 1
    :: loopSteps e store 0 fs
    ++ [SProgress (List.length fs + 1); SGenerate (questionsRequest store);
        SProgress (List.length fs + 2); SWait 500; SClear].

End Steps.

(* ===================================================================== *)
(** * The renderer with the reads that can throw                           *)
(* ===================================================================== *)

(** Of all that [renderMarkdown] does to a string only one operation can
    throw: the read of group 1 of the result of [line.match], which is
    [null] when the pattern does not match.  Here the function is given a
    second time with that read as an operation that fails on [null], and
    with a text that may be absent, so that "it does not throw" can be
    said of it. *)
Module Checked.
Import Js Markup Types.

(** The [TypeError] of reading an index of [null] (the wording of the
    message is the engine's). *)
Definition NULL_READ : JsErr :=
  ErrorObj (js "Cannot read properties of null (reading '1')").

(** [if (m)] for the result [m] of [line.match(re)] *)
Definition matched (m : option jsstring) : bool :=
  match m with Some _ => true | None => false end.

(** [m[1]] for the result [m] of [line.match(re)] *)
Definition group1 (m : option jsstring) : Res jsstring :=
  match m with
  | Some g => Ok g
  | None => Throw NULL_READ
  end.

(** One iteration of [for (const rawLine of lines)]. *)
Definition renderLineChecked (st : RenderState) (rawLine : jsstring)
  : Res RenderState :=
  if startsWith (js "# ") rawLine then
    Ok (emit (html "<h1 class='text-xl font-bold text-clinic-orange mt-4 mb-2 border-b border-clinic-orange/20 pb-1'>"
                ++ substring 2 rawLine ++ js "</h1>")
             (flushList (flushPara st)))
  else if startsWith (js "## ") rawLine then
    Ok (emit (html "<h2 class='text-lg font-bold text-clinic-blue mt-3 mb-2'>"
                ++ substring 3 rawLine ++ js "</h2>")
             (flushList (flushPara st)))
  else
    let line := inline rawLine in
    let olMatch := isOl line in
    let ulMatch := isUl line in
    if matched olMatch then
      match group1 olMatch with
      | Ok item =>
          Ok (emit (js "<li>" ++ item ++ js "</li>")
                (openList ol (flushPara st)))
      | Throw err => Throw err
      end
    else if matched ulMatch then
      match group1 ulMatch with
      | Ok item =>
          Ok (emit (html "<li class='flex items-start'><span class='mr-2 text-clinic-orange font-bold text-lg leading-none'>•</span><span>"
                      ++ item ++ js "</span></li>")
                (openList ul (flushPara st)))
      | Throw err => Throw err
      end
    else
      let st := flushList st in
      Ok (if jseqb (trim line) [] then flushPara st
          else mkRender (out st) (listType st)
                 (paraBuffer st
                    ++ (if truthy (paraBuffer st) then BR else []) ++ line)).

(** The loop over the lines, left at the first iteration that throws. *)
Fixpoint renderLinesChecked (lines : list jsstring) (st : RenderState)
  : Res RenderState :=
  match lines with
  | [] => Ok st
  | l :: rest =>
      match renderLineChecked st l with
      | Ok st' => renderLinesChecked rest st'
      | Throw err => Throw err
      end
  end.

(** [renderMarkdown(text).__html], for a text that is a string or is
    absent. *)
Definition renderMarkdownChecked (text : option jsstring) : Res jsstring :=
  match text with
  | None => Ok []
  | Some text =>
      if negb (truthy text) then Ok []
      else
        match renderLinesChecked (split_lines text) renderInit with
        | Ok st => Ok (out (flushList (flushPara st)))
        | Throw err => Throw err
        end
  end.

(** The text the unchecked renderer is given for it. *)
Definition textOf (text : option jsstring) : jsstring :=
  match text with Some t => t | None => [] end.

End Checked.

(* ===================================================================== *)
(** * Properties                                                           *)
(* ===================================================================== *)

Import Js Markup Types Effects Gemini App Scenario Notions Blocks.
Import Observations Samples Steps Checked.

(** ** Strings *)

Lemma startsWith_cons d p s :
  startsWith (d :: p) s = true -> exists r, s = d :: r.
Proof.
  destruct s as [|c r]; simpl; [discriminate|].
  intros H. apply andb_prop in H as [H _].
  apply N.eqb_eq in H. subst. now exists r.
Qed.

Lemma startsWith_app p s : startsWith p (p ++ s) = true.
Proof.
  induction p as [|x p IH]; simpl; [reflexivity|].
  now rewrite N.eqb_refl, IH.
Qed.

Lemma in_skipn {A} (x : A) n l : In x (skipn n l) -> In x l.
Proof.
  intros H. rewrite <- (firstn_skipn n l). apply in_or_app. now right.
Qed.

Lemma occurrences_zero_not_in c l : occurrences c l = 0 <-> ~ In c l.
Proof. unfold occurrences. symmetry. apply count_occ_not_In. Qed.

Lemma occurrences_app c a b :
  occurrences c (a ++ b) = occurrences c a + occurrences c b.
Proof. unfold occurrences. apply count_occ_app. Qed.

Lemma occurrences_head c r : occurrences c (c :: r) = S (occurrences c r).
Proof. unfold occurrences. simpl. destruct (N.eq_dec c c); congruence. Qed.

Lemma dropWhile_all p s : forallb p s = true -> dropWhile p s = [].
Proof.
  induction s as [|c r IH]; simpl; [reflexivity|].
  intros H. apply andb_prop in H as [Hc Hr]. rewrite Hc. auto.
Qed.




(** ** Inline patterns on lines that cannot match *)

Lemma lazyUntil_in d p s x : lazyUntil (d :: p) s = Some x -> In d s.
Proof.
  revert x. induction s as [|c r IH]; intros x.
  - simpl. discriminate.
  - cbn [lazyUntil].
    destruct (startsWith (d :: p) (c :: r)) eqn:E.
    + apply startsWith_cons in E as [r' E]. injection E as -> _. now left.
    + destruct (isLineTerminator c); [discriminate|].
      destruct (lazyUntil (d :: p) r) as [[g n]|] eqn:E'; [|discriminate].
      intros _. right. eapply IH. reflexivity.
Qed.

Lemma delimited_lone d p q s :
  occurrences d s <= 1 -> delimited (d :: p) (d :: q) s = None.
Proof.
  intros Hocc. unfold delimited.
  destruct (startsWith (d :: p) s) eqn:E; [|reflexivity].
  apply startsWith_cons in E as [r ->].
  rewrite occurrences_head in Hocc.
  assert (Hr : ~ In d r) by (apply occurrences_zero_not_in; lia).
  destruct (lazyUntil (d :: q) (skipn (List.length (d :: p)) (d :: r)))
    as [x|] eqn:E'; [|reflexivity].
  apply lazyUntil_in in E'. simpl in E'. apply in_skipn in E'. contradiction.
Qed.

Lemma strongAt_lone s :
  occurrences STAR s <= 1 -> occurrences UNDERSCORE s <= 1 ->
  strongAt s = None.
Proof.
  intros H1 H2. unfold strongAt.
  now rewrite (delimited_lone STAR), (delimited_lone UNDERSCORE).
Qed.

Lemma emAt_lone s :
  occurrences STAR s <= 1 -> occurrences UNDERSCORE s <= 1 ->
  emAt s = None.
Proof.
  intros H1 H2. unfold emAt.
  now rewrite (delimited_lone STAR), (delimited_lone UNDERSCORE).
Qed.

Lemma codeAt_lone s : occurrences BACKTICK s <= 1 -> codeAt s = None.
Proof.
  intros Hocc. destruct s as [|c r]; [reflexivity|]. unfold codeAt.
  destruct (c =? BACKTICK)%N eqn:E; [|reflexivity].
  apply N.eqb_eq in E. subst c. rewrite occurrences_head in Hocc.
  assert (Hr : ~ In BACKTICK r) by (apply occurrences_zero_not_in; lia).
  rewrite dropWhile_all.
  - now destruct (takeWhile _ r).
  - apply forallb_forall. intros x Hx. apply negb_true_iff, N.eqb_neq.
    intros ->. contradiction.
Qed.

(** A scan in which the pattern matches at no position copies its input. *)
Lemma replaceAll_no_match (m : matcher) s :
  (forall p t, s = p ++ t -> m t = None) -> replaceAll m s = s.
Proof.
  unfold replaceAll. induction s as [|c r IH]; intros H; [reflexivity|].
  cbn [replaceFrom]. rewrite (H [] (c :: r) eq_refl). f_equal.
  apply IH. intros p t ->. apply (H (c :: p) t). reflexivity.
Qed.

Lemma occurrences_suffix c p t n :
  occurrences c (p ++ t) <= n -> occurrences c t <= n.
Proof. rewrite occurrences_app. lia. Qed.

(** An unterminated delimiter stays as it is. *)
Lemma inline_lone line :
  occurrences STAR line <= 1 ->
  occurrences UNDERSCORE line <= 1 ->
  occurrences BACKTICK line <= 1 ->
  inline line = line.
Proof.
  intros Hs Hu Hb. unfold inline.
  rewrite (replaceAll_no_match strongAt line).
  2:{ intros p t ->. apply strongAt_lone; eapply occurrences_suffix; eauto. }
  rewrite (replaceAll_no_match emAt line).
  2:{ intros p t ->. apply emAt_lone; eapply occurrences_suffix; eauto. }
  apply replaceAll_no_match.
  intros p t ->. apply codeAt_lone; eapply occurrences_suffix; eauto.
Qed.

Lemma no_delimiter_occurrences l c :
  forallb (fun c => negb (isDelimiter c)) l = true ->
  isDelimiter c = true -> occurrences c l = 0.
Proof.
  intros Hall Hc. apply occurrences_zero_not_in. intros Hin.
  rewrite forallb_forall in Hall. specialize (Hall c Hin).
  rewrite Hc in Hall. discriminate.
Qed.

Lemma inline_plain l :
  forallb (fun c => negb (isDelimiter c)) l = true -> inline l = l.
Proof.
  intros H. apply inline_lone.
  - rewrite (no_delimiter_occurrences l STAR H eq_refl). lia.
  - rewrite (no_delimiter_occurrences l UNDERSCORE H eq_refl). lia.
  - rewrite (no_delimiter_occurrences l BACKTICK H eq_refl). lia.
Qed.

(** ** Lines and their joining *)

Lemma split_lines_nonempty s : split_lines s <> [].
Proof.
  destruct s as [|c r]; simpl; [discriminate|].
  destruct (c =? LF)%N; [discriminate|].
  destruct (split_lines r); discriminate.
Qed.

Lemma join_split_lines s : join [LF] (split_lines s) = s.
Proof.
  induction s as [|c r IH]; [reflexivity|]. simpl.
  destruct (c =? LF)%N eqn:E.
  - apply N.eqb_eq in E. subst c.
    pose proof (split_lines_nonempty r) as Hne.
    destruct (split_lines r) as [|l ls] eqn:El; [congruence|].
    rewrite <- IH. reflexivity.
  - destruct (split_lines r) as [|l ls] eqn:El.
    + now destruct (split_lines_nonempty r).
    + rewrite <- IH. destruct ls; reflexivity.
Qed.


Lemma split_lines_single s : ~ In LF s -> split_lines s = [s].
Proof.
  induction s as [|c r IH]; intros H; [reflexivity|]. simpl.
  destruct (c =? LF)%N eqn:E.
  - apply N.eqb_eq in E. subst c. exfalso. apply H. now left.
  - rewrite IH; [reflexivity|]. intros Hin. apply H. now right.
Qed.

Lemma join_cons_app sep a b ls :
  join sep ((a ++ b) :: ls) = a ++ join sep (b :: ls).
Proof. destruct ls; cbn [join]; [reflexivity | now rewrite <- app_assoc]. Qed.


(** ** Paragraph accumulation *)

Ltac split_plain H :=
  unfold plainLine in H;
  repeat (let H' := fresh "Hp" in apply andb_prop in H as [H H']).

Lemma plainLine_truthy l : plainLine l = true -> truthy l = true.
Proof. destruct l; [discriminate | reflexivity]. Qed.

Lemma renderLine_plain o b l :
  plainLine l = true ->
  renderLine (mkRender o None b) l
  = mkRender o None (b ++ (if truthy b then BR else []) ++ l).
Proof.
  intros H. split_plain H. unfold renderLine.
  apply negb_true_iff in Hp3, Hp2, Hp. rewrite Hp3, Hp2, (inline_plain l H).
  destruct (isOl l); [discriminate|]. destruct (isUl l); [discriminate|].
  cbn [flushList listType paraBuffer out]. now rewrite Hp.
Qed.

Lemma fold_plain ls : forall o b,
  forallb plainLine ls = true ->
  fold_left renderLine ls (mkRender o None b)
  = mkRender o None (accumulate b ls).
Proof.
  induction ls as [|l ls IH]; intros o b H; [reflexivity|].
  cbn [forallb] in H. apply andb_prop in H as [Hl Hls].
  cbn [fold_left accumulate]. rewrite (renderLine_plain o b l Hl).
  now apply IH.
Qed.

Lemma accumulate_join ls : forall l,
  truthy l = true -> accumulate l ls = join BR (l :: ls).
Proof.
  induction ls as [|x ls IH]; intros l Hl; [reflexivity|].
  cbn [accumulate]. rewrite Hl. rewrite IH.
  - rewrite join_cons_app. destruct ls; reflexivity.
  - destruct l; [discriminate | reflexivity].
Qed.

Lemma truthy_join_cons sep l ls :
  truthy l = true -> truthy (join sep (l :: ls)) = true.
Proof. destruct l; [discriminate|]. destruct ls; reflexivity. Qed.

(** ** Plain input is rendered as one paragraph *)

Lemma plainText_truthy text : plainText text = true -> truthy text = true.
Proof. destruct text; [discriminate | reflexivity]. Qed.

(** A run of plain lines from the initial state ends as one paragraph. *)
Lemma render_plain_lines l ls :
  forallb plainLine (l :: ls) = true ->
  out (flushList (flushPara (fold_left renderLine (l :: ls) renderInit)))
  = paragraph (join BR (l :: ls)).
Proof.
  intros H. unfold renderInit. rewrite (fold_plain _ [] [] H).
  cbn [forallb] in H. apply andb_prop in H as [Hl _].
  apply plainLine_truthy in Hl.
  cbn [accumulate truthy app]. rewrite (accumulate_join ls l Hl).
  unfold flushPara. cbn [paraBuffer out listType].
  rewrite (truthy_join_cons BR l ls Hl). reflexivity.
Qed.

Lemma renderMarkdown_plain (text : jsstring) :
  plainText text = true ->
  renderMarkdown text = paragraph (join BR (split_lines text)).
Proof.
  intros H. unfold renderMarkdown. rewrite (plainText_truthy text H).
  cbn [negb]. unfold plainText in H.
  destruct (split_lines text) as [|l ls] eqn:E.
  - now destruct (split_lines_nonempty text).
  - now apply render_plain_lines.
Qed.

(** C7. An input in which no line carries recognised syntax (no inline
    delimiter, no heading prefix, no list pattern, no blank line) is
    rendered as one paragraph container around the input itself, its lines
    joined by the line-break marker in their order; the lines are those of
    the input, which joining them by line feeds gives back. *)
Theorem renderMarkdown_plain_paragraph (text : jsstring) :
  plainText text = true ->
  renderMarkdown text = paragraph (join BR (split_lines text))
  /\ join [LF] (split_lines text) = text.
Proof.
  intros H. split; [|apply join_split_lines].
  assert (Htruthy : truthy text = true) by now apply plainText_truthy.
  unfold renderMarkdown. rewrite Htruthy. cbn [negb].
  unfold plainText in H.
  pose proof (split_lines_nonempty text) as Hne.
  destruct (split_lines text) as [|l ls]; [congruence|].
  unfold renderInit. rewrite (fold_plain (l :: ls) [] [] H).
  cbn [forallb] in H. apply andb_prop in H as [Hl _].
  apply plainLine_truthy in Hl.
  cbn [accumulate truthy app]. rewrite (accumulate_join ls l Hl).
  unfold flushPara, flushList. cbn [paraBuffer out listType].
  now rewrite (truthy_join_cons BR l ls Hl).
Qed.

Lemma renderMarkdown_plain_paragraph_witness :
  plainText (js "hello" ++ [LF] ++ js "world") = true
  /\ renderMarkdown (js "hello" ++ [LF] ++ js "world")
     = paragraph (js "hello<br/>world").
Proof.
  split; [reflexivity|].
  exact (proj1 (renderMarkdown_plain_paragraph
                  (js "hello" ++ [LF] ++ js "world") eq_refl)).
Defined.

(** ** Rendering twice *)










(** C10. The empty input (the only falsy string) is rendered as the empty
    markup, which holds no paragraph container; flushing an empty paragraph
    buffer, or flushing when no list is open, leaves the renderer state,
    and so the markup emitted so far, unchanged. *)
Theorem renderMarkdown_empty_no_paragraph :
  (forall text, truthy text = false ->
     renderMarkdown text = [] /\ includes (renderMarkdown text) P_OPEN = false)
  /\ (forall st, paraBuffer st = [] -> flushPara st = st)
  /\ (forall st, listType st = None -> flushList st = st).
Proof.
  split; [|split].
  - intros [|c r] H; [split; reflexivity | discriminate].
  - intros st H. unfold flushPara. now rewrite H.
  - intros st H. unfold flushList. now rewrite H.
Qed.

Lemma renderMarkdown_empty_no_paragraph_witness :
  renderMarkdown [] = []
  /\ flushPara (mkRender (js "<h1>x</h1>") (Some ul) [])
     = mkRender (js "<h1>x</h1>") (Some ul) []
  /\ flushList (mkRender (js "<h1>x</h1>") None (js "y"))
     = mkRender (js "<h1>x</h1>") None (js "y").
Proof.
  destruct renderMarkdown_empty_no_paragraph as [He [Hp Hl]].
  split; [|split].
  - apply (He []). reflexivity.
  - apply Hp. reflexivity.
  - apply Hl. reflexivity.
Defined.

(** The renderer on the sample of the specification: a heading, a list of
    two items, a paragraph. *)
Example renderMarkdown_sample :
  renderMarkdown (js "# Title" ++ [LF] ++ js "- one" ++ [LF] ++ js "- two"
                  ++ [LF; LF] ++ js "plain")
  = html "<h1 class='text-xl font-bold text-clinic-orange mt-4 mb-2 border-b border-clinic-orange/20 pb-1'>Title</h1><ul class='list-none my-2 pl-2 space-y-1'><li class='flex items-start'><span class='mr-2 text-clinic-orange font-bold text-lg leading-none'>•</span><span>one</span></li><li class='flex items-start'><span class='mr-2 text-clinic-orange font-bold text-lg leading-none'>•</span><span>two</span></li></ul><p class='my-2'>plain</p>".
Proof. vm_compute. reflexivity. Qed.

(** Matched delimiters, an ordered list, and a line terminator that ends
    the group of a list item. *)
Example renderMarkdown_inline_sample :
  renderMarkdown (js "a **b** and *c* and `d`") 
  = html "<p class='my-2'>a <strong>b</strong> and <em>c</em> and <code class='bg-gem-mist/50 px-1 py-0.5 rounded-sm font-mono text-sm'>d</code></p>"
  /\ renderMarkdown (js "1. x" ++ [LF] ++ js "2. y" ++ [13%N] ++ js "z")
     = html "<ol class='list-decimal list-inside my-2 pl-5 space-y-1'><li>x</li><li>y</li></ol>".
Proof. split; vm_compute; reflexivity. Qed.

(* ===================================================================== *)
(** * Properties of the gateway service                                    *)
(* ===================================================================== *)

Local Open Scope js_scope.

(** ** Running monadic code *)

Lemma bind_ok {A B} (c : M A) (k : A -> M B) e w a w' :
  c e w = (Ok a, w') -> bind c k e w = k a e w'.
Proof. intros H. unfold bind. now rewrite H. Qed.

Lemma bind_throw {A B} (c : M A) (k : A -> M B) e w err w' :
  c e w = (Throw err, w') -> bind c k e w = (Throw err, w').
Proof. intros H. unfold bind. now rewrite H. Qed.

Lemma requireAi_set e w : ai w = true -> requireAi e w = (Ok tt, w).
Proof. intros H. unfold requireAi, bind, world. now rewrite H. Qed.

Lemma requireAi_unset e w :
  ai w = false ->
  requireAi e w = (Throw (ErrorObj (js "Gemini AI not initialized")), w).
Proof. intros H. unfold requireAi, bind, world. now rewrite H. Qed.

Lemma after_nil w : after w [] = w.
Proof. destruct w. unfold after. cbn. now rewrite app_nil_r. Qed.

Lemma after_after w t u : after (after w t) u = after w (t ++ u).
Proof. unfold after. cbn. now rewrite app_assoc. Qed.

Lemma emitEvent_run ev e w : emitEvent ev e w = (Ok tt, after w [ev]).
Proof. reflexivity. Qed.

Lemma call_run {A} ev (answer : Env -> Res A) e w :
  call ev answer e w = (answer e, after w [ev]).
Proof. unfold call, bind, emitEvent, env, lift. now destruct (answer e). Qed.

(** ** The crisis gate *)

Lemma crisisQuery_keyword `{Builtins} query :
  crisisQuery query = true <->
  exists keyword,
    In keyword CRISIS_KEYWORDS /\ includes (toLowerCase query) keyword = true.
Proof. unfold crisisQuery. apply existsb_exists. Qed.

Lemma fileSearch_unset `{Builtins} store query e w :
  ai w = false ->
  fileSearch store query e w
  = (Throw (ErrorObj (js "Gemini AI not initialized")), w).
Proof.
  intros Hai. unfold fileSearch.
  now rewrite (bind_throw _ _ _ _ _ _ (requireAi_unset e w Hai)).
Qed.

Lemma fileSearch_crisis `{Builtins} store query e w :
  ai w = true -> crisisQuery query = true ->
  fileSearch store query e w = (Ok CRISIS_RESULT, w).
Proof.
  intros Hai Hc. unfold fileSearch.
  rewrite (bind_ok _ _ _ _ _ _ (requireAi_set e w Hai)).
  now rewrite Hc.
Qed.

Lemma fileSearch_query `{Builtins} store query e w :
  ai w = true -> crisisQuery query = false ->
  fileSearch store query e w
  = (match models_generateContent e (queryRequest store query) with
     | Ok response =>
         Ok {| q_text := resp_text response;
               q_groundingChunks :=
                 match resp_groundingChunks response with
                 | Some cs => cs
                 | None => []
                 end;
               q_isCrisis := false |}
     | Throw err => Throw err
     end,
     after w [EvGenerateContent (queryRequest store query)]).
Proof.
  intros Hai Hc. unfold fileSearch.
  rewrite (bind_ok _ _ _ _ _ _ (requireAi_set e w Hai)).
  rewrite Hc. unfold bind. rewrite call_run.
  now destruct (models_generateContent e (queryRequest store query)).
Qed.

(** ** Suggested questions *)

Ltac run_service Hai :=
  cbv beta iota zeta delta
    [generateExampleQuestions deleteRagStore createRagStore
     tryCatch bind parseQuestions consoleError requireAi world ret
     throw call emitEvent env lift];
  rewrite Hai.

Lemma generateExampleQuestions_unset `{Builtins} store e w :
  ai w = false ->
  generateExampleQuestions store e w
  = (Throw (ErrorObj (js "Gemini AI not initialized")), w).
Proof. intros Hai. now run_service Hai. Qed.

(** Once the service is initialised [generateExampleQuestions] always
    answers, whatever the gateway and the parser do. *)
Lemma generateExampleQuestions_run `{Builtins} store e w :
  ai w = true ->
  exists t,
    generateExampleQuestions store e w
    = (Ok (questionsOf (models_generateContent e (questionsRequest store))),
       after w t)
    /\ quiet t.
Proof.
  intros Hai. run_service Hai. unfold questionsOf, after.
  destruct (models_generateContent e (questionsRequest store))
    as [response|err]; cbv beta iota.
  2:{ eexists. split; [cbn [ai state trace]; rewrite <- app_assoc; reflexivity|].
      repeat split. }
  destruct (resp_text response) as [text|]; cbv beta iota.
  2:{ eexists. split; [cbn [ai state trace]; rewrite <- app_assoc; reflexivity|].
      repeat split. }
  destruct (JSON_parse (trim text)) as [v|perr]; cbv beta iota.
  { destruct v; (eexists; split; [reflexivity | repeat split]). }
  destruct (fencedJson (trim text)) as [[|c block]|]; cbv beta iota;
    try (eexists; split; [reflexivity | repeat split]).
  cbn [truthy]. cbv beta iota.
  destruct (JSON_parse (c :: block)) as [v|perr2]; cbv beta iota.
  { destruct v; (eexists; split; [reflexivity | repeat split]). }
  eexists. split; [cbn [ai state trace]; rewrite <- app_assoc; reflexivity|].
  repeat split.
Qed.

Lemma pickQuestions_bound v : List.length (pickQuestions v) <= 4.
Proof.
  destruct v; cbn [pickQuestions]; try (vm_compute; lia).
  apply firstn_le_length.
Qed.

Lemma questionsOf_bound `{Builtins} answer :
  List.length (questionsOf answer) <= 4.
Proof.
  unfold questionsOf.
  destruct answer as [response|err]; [|vm_compute; lia].
  destruct (resp_text response) as [text|]; [|vm_compute; lia].
  destruct (JSON_parse (trim text)); [apply pickQuestions_bound|].
  destruct (fencedJson (trim text)) as [[|c block]|]; try (vm_compute; lia).
  destruct (JSON_parse (c :: block));
    [apply pickQuestions_bound | vm_compute; lia].
Qed.

(** A parsed value that is no array. *)
Lemma pickQuestions_other v :
  (forall items, v <> JArray items) -> pickQuestions v = DEFAULT_QUESTIONS_4.
Proof. intros Hv. destruct v; try reflexivity. now destruct (Hv items). Qed.

(** C9 (as the code has it). Before the service is initialised
    [generateExampleQuestions] throws.  Once it is initialised it never
    throws, leaves the component state as it is, and answers with at most
    four strings, which every answer of the gateway determines: the two
    default questions when the gateway throws or its answer has no text;
    when the trimmed text is JSON, the strings of the array cut to four,
    or the four default questions for a value that is no array; when the
    trimmed text is no JSON, the four default questions unless it holds a
    fenced block that is not empty, and then what the block gives: the
    strings of its array cut to four, the four default questions for a
    value that is no array, the two default questions when the block is
    no JSON either. *)
Theorem generateExampleQuestions_best_effort `{Builtins}
  (store : jsstring) (e : Env) (w : World) :
  (ai w = false ->
     fst (generateExampleQuestions store e w)
     = Throw (ErrorObj (js "Gemini AI not initialized")))
  /\ (ai w = true ->
      exists qs,
        fst (generateExampleQuestions store e w) = Ok qs
        /\ state (snd (generateExampleQuestions store e w)) = state w
        /\ List.length qs <= 4
        /\ (forall err,
              models_generateContent e (questionsRequest store) = Throw err ->
              qs = DEFAULT_QUESTIONS_2)
        /\ (forall response,
              models_generateContent e (questionsRequest store) = Ok response ->
              resp_text response = None ->
              qs = DEFAULT_QUESTIONS_2)
        /\ (forall response text,
              models_generateContent e (questionsRequest store) = Ok response ->
              resp_text response = Some text ->
              (forall items,
                 JSON_parse (trim text) = Ok (JArray items) ->
                 qs = firstn 4 (stringsOf items))
              /\ (forall v,
                    JSON_parse (trim text) = Ok v ->
                    (forall items, v <> JArray items) ->
                    qs = DEFAULT_QUESTIONS_4)
              /\ (forall perr,
                    JSON_parse (trim text) = Throw perr ->
                    (fencedJson (trim text) = None
                     \/ fencedJson (trim text) = Some [] ->
                     qs = DEFAULT_QUESTIONS_4)
                    /\ (forall block,
                          fencedJson (trim text) = Some block ->
                          block <> [] ->
                          (forall items,
                             JSON_parse block = Ok (JArray items) ->
                             qs = firstn 4 (stringsOf items))
                          /\ (forall v,
                                JSON_parse block = Ok v ->
                                (forall items, v <> JArray items) ->
                                qs = DEFAULT_QUESTIONS_4)
                          /\ (forall perr2,
                                JSON_parse block = Throw perr2 ->
                                qs = DEFAULT_QUESTIONS_2))))).
Proof.
  split.
  - intros Hai. now rewrite generateExampleQuestions_unset.
  - intros Hai.
    destruct (generateExampleQuestions_run store e w Hai) as [t [-> _]].
    eexists. split; [reflexivity|]. split; [reflexivity|].
    split; [apply questionsOf_bound|].
    unfold questionsOf. split; [|split].
    + intros err ->. reflexivity.
    + intros response -> ->. reflexivity.
    + intros response text -> ->. split; [|split].
      * intros items ->. reflexivity.
      * intros v -> Hv. now apply pickQuestions_other.
      * intros perr ->. split.
        -- intros [-> | ->]; reflexivity.
        -- intros block -> Hne.
           destruct block as [|c block]; [congruence|].
           split; [|split].
           ++ intros items ->. reflexivity.
           ++ intros v -> Hv. now apply pickQuestions_other.
           ++ intros perr2 ->. reflexivity.
Qed.

Lemma generateExampleQuestions_best_effort_witness :
  fst (@generateExampleQuestions sampleBuiltins STORE goodEnv boundWorld)
  = Ok [js "q1"; js "q2"; js "q3"; js "q4"].
Proof.
  destruct (@generateExampleQuestions_best_effort sampleBuiltins STORE
              goodEnv boundWorld) as [_ Hset].
  destruct (Hset eq_refl) as (qs & Hrun & _ & _ & _ & _ & Htext).
  rewrite Hrun. f_equal.
  destruct (Htext {| resp_text := Some (PAYLOAD ++ [LF]);
                     resp_groundingChunks := None |}
                  (PAYLOAD ++ [LF]) eq_refl eq_refl) as [Harray _].
  apply (Harray [JString (js "q1"); JString (js "q2"); JNumber (js "7");
                 JString (js "q3"); JString (js "q4"); JString (js "q5")]).
  reflexivity.
Defined.

(** C9, as stated, fails: called before [initialize], the function throws
    instead of answering with a list. *)
Lemma generateExampleQuestions_throws_uninitialised :
  ai initialWorld = false
  /\ @generateExampleQuestions sampleBuiltins STORE goodEnv initialWorld
     = (Throw (ErrorObj (js "Gemini AI not initialized")), initialWorld).
Proof. split; reflexivity. Qed.

(* ===================================================================== *)
(** * Properties of the session handlers                                   *)
(* ===================================================================== *)

(** ** Observations distribute over the concatenation of traces *)

Lemma uploadsOf_app a b : uploadsOf (a ++ b) = uploadsOf a ++ uploadsOf b.
Proof.
  induction a as [|ev a IH]; [reflexivity|].
  destruct ev; cbn; now rewrite ?IH.
Qed.

Lemma progressOf_app a b : progressOf (a ++ b) = progressOf a ++ progressOf b.
Proof.
  induction a as [|ev a IH]; [reflexivity|].
  destruct ev; cbn; now rewrite ?IH.
Qed.

Lemma deletionsOf_app a b :
  deletionsOf (a ++ b) = deletionsOf a ++ deletionsOf b.
Proof.
  induction a as [|ev a IH]; [reflexivity|].
  destruct ev; cbn; now rewrite ?IH.
Qed.

Lemma generationsOf_app a b :
  generationsOf (a ++ b) = generationsOf a ++ generationsOf b.
Proof.
  induction a as [|ev a IH]; [reflexivity|].
  destruct ev; cbn; now rewrite ?IH.
Qed.

Lemma currentsOf_app a b : currentsOf (a ++ b) = currentsOf a ++ currentsOf b.
Proof.
  induction a as [|[p|] a IH]; cbn; now rewrite ?IH.
Qed.

Lemma totalsOf_app a b : totalsOf (a ++ b) = totalsOf a ++ totalsOf b.
Proof.
  induction a as [|[p|] a IH]; cbn; now rewrite ?IH.
Qed.

Lemma milestonesOf_app a b :
  milestonesOf (a ++ b) = milestonesOf a ++ milestonesOf b.
Proof.
  induction a as [|ev a IH]; [reflexivity|].
  destruct ev as [| | | | | | | |[p|]]; cbn; now rewrite ?IH.
Qed.

Lemma quiet_milestones t : quiet t -> milestonesOf t = [].
Proof.
  intros (Hu & Hp & _). induction t as [|ev t IH]; [reflexivity|].
  destruct ev as [| | | | | | | |[p|]]; cbn in *;
    try discriminate; auto.
Qed.

Lemma quiet_app a b : quiet a -> quiet b -> quiet (a ++ b).
Proof.
  unfold quiet. intros (Ha1 & Ha2 & Ha3) (Hb1 & Hb2 & Hb3).
  rewrite uploadsOf_app, progressOf_app, deletionsOf_app.
  now rewrite Ha1, Ha2, Ha3, Hb1, Hb2, Hb3.
Qed.

(** ** Uploading *)

Lemma pollEvents_quiet k : quiet (pollEvents k).
Proof. induction k; [repeat split | exact IHk]. Qed.

Lemma pollUntilDone_run k last e w :
  pollUntilDone k last e w = last e (after w (pollEvents k)).
Proof.
  revert w. induction k as [|k IH]; intros w; cbn [pollUntilDone pollEvents].
  - now rewrite after_nil.
  - unfold bind, delay. rewrite !emitEvent_run, IH, !after_after.
    reflexivity.
Qed.

Lemma uploadToRagStore_run store f e w :
  ai w = true ->
  exists r t,
    uploadToRagStore store f e w = (r, after w (EvUpload store f :: t))
    /\ quiet t.
Proof.
  intros Hai. unfold uploadToRagStore.
  rewrite (bind_ok _ _ _ _ _ _ (requireAi_set e w Hai)).
  rewrite (bind_ok _ _ _ _ _ _ (emitEvent_run _ e w)).
  unfold bind at 1. unfold env at 1.
  destruct (stores_upload e store f) as [err|polls|polls err].
  - exists (Throw err), []. split; [reflexivity | repeat split].
  - exists (Ok tt), (pollEvents polls).
    rewrite pollUntilDone_run, after_after.
    split; [reflexivity | apply pollEvents_quiet].
  - exists (Throw err), (pollEvents polls ++ [EvDelay 3000; EvOperationsGet]).
    rewrite pollUntilDone_run. unfold bind, delay.
    rewrite !emitEvent_run, !after_after.
    split; [reflexivity|].
    apply quiet_app; [apply pollEvents_quiet | repeat split].
Qed.

Lemma with_uploadProgress_same a :
  with_uploadProgress (uploadProgress a) a = a.
Proof. now destruct a. Qed.

Lemma with_uploadProgress_twice p q a :
  with_uploadProgress p (with_uploadProgress q a) = with_uploadProgress p a.
Proof. reflexivity. Qed.

Lemma updateUploadProgress_run f e w :
  updateUploadProgress f e w
  = (Ok tt,
     Build_World (ai w)
       (with_uploadProgress (f (uploadProgress (state w))) (state w))
       (trace w ++ [EvProgress (f (uploadProgress (state w)))])).
Proof. reflexivity. Qed.

(** The upload loop: it touches the progress only; when it ends normally
    every remaining file has been handed to the gateway, in order, each
    after a progress update that counts the steps completed so far. *)
Lemma uploadLoop_run store count e rest : forall i w,
  ai w = true ->
  exists r p t,
    uploadLoop store count i rest e w
    = (r, Build_World true (with_uploadProgress p (state w)) (trace w ++ t))
    /\ totalOf p = totalOf (uploadProgress (state w))
    /\ deletionsOf t = []
    /\ Forall (eq (totalOf (uploadProgress (state w))))
              (totalsOf (progressOf t))
    /\ (r = Ok tt ->
        uploadsOf t = map (pair store) rest
        /\ currentsOf (progressOf t) = seq (S i) (List.length rest)
        /\ milestonesOf t = loopMilestones i rest).
Proof.
  induction rest as [|f rest IH]; intros i w Hai.
  - exists (Ok tt), (uploadProgress (state w)), [].
    cbn [uploadLoop]. unfold ret.
    rewrite with_uploadProgress_same, app_nil_r.
    destruct w as [a s t]; cbn in *. subst a.
    repeat split; constructor.
  - cbn [uploadLoop].
    rewrite (bind_ok _ _ _ _ _ _ (updateUploadProgress_run _ e w)).
    set (p1 := Some _).
    set (w1 := Build_World _ _ _).
    assert (Hai1 : ai w1 = true) by exact Hai.
    destruct (uploadToRagStore_run store f e w1 Hai1)
      as (r & tu & Hup & Hquiet).
    pose proof (quiet_milestones tu Hquiet) as Hm.
    destruct Hquiet as (Hu & Hp & Hd).
    destruct r as [[]|err].
    + rewrite (bind_ok _ _ _ _ _ _ Hup).
      set (w2 := after w1 _).
      assert (Hai2 : ai w2 = true) by exact Hai.
      destruct (IH (S i) w2 Hai2) as (r & p & t & Hloop & Htot & Hdel & Hall & Hok).
      exists r, p, (EvProgress p1 :: EvUpload store f :: tu ++ t).
      rewrite Hloop. subst w2 w1. unfold after. cbn [state trace ai].
      rewrite with_uploadProgress_twice.
      split; [rewrite <- ?app_assoc; reflexivity|].
      cbn [state uploadProgress with_uploadProgress] in Htot, Hall.
      split; [exact Htot|].
      cbn [deletionsOf progressOf totalsOf uploadsOf currentsOf].
      rewrite deletionsOf_app, progressOf_app, uploadsOf_app, Hd, Hp, Hu, Hdel.
      cbn [app]. subst p1. cbn [total current].
      split; [reflexivity|]. split; [constructor; [reflexivity | exact Hall]|].
      intros ->. destruct (Hok eq_refl) as (-> & -> & Hmil).
      cbn [map List.length seq]. rewrite Nat.add_1_r.
      repeat split.
      change (EvProgress ?p :: EvUpload ?s ?g :: ?x)
        with ([EvProgress p; EvUpload s g] ++ x).
      rewrite !milestonesOf_app, Hm, Hmil. reflexivity.
    + rewrite (bind_throw _ _ _ _ _ _ Hup).
      exists (Throw err), p1, (EvProgress p1 :: EvUpload store f :: tu).
      subst w1. unfold after. cbn [state trace ai]. rewrite Hai.
      split; [rewrite <- ?app_assoc; reflexivity|].
      cbn [deletionsOf progressOf totalsOf]. rewrite Hd, Hp.
      subst p1. cbn [totalOf total totalsOf].
      repeat split; try discriminate. constructor; [reflexivity | constructor].
Qed.

(** ** Provisioning *)

Lemma createRagStore_run displayName e w :
  ai w = true ->
  createRagStore displayName e w
  = (createOutcome (stores_create e displayName),
     after w [EvCreate displayName]).
Proof.
  intros Hai. run_service Hai. unfold createOutcome, after.
  destruct (stores_create e displayName) as [[n|]|err]; try reflexivity.
  now destruct (truthy n).
Qed.

Lemma createOutcome_truthy answer n :
  createOutcome answer = Ok n -> truthy n = true /\ answer = Ok (Some n).
Proof.
  unfold createOutcome. destruct answer as [[m|]|err]; try discriminate.
  destruct (truthy m) eqn:E; [|discriminate]. now intros [= <-].
Qed.

Ltac step_ok L := rewrite (bind_ok _ _ _ _ _ _ L); cbv beta.
Ltac step_throw L := rewrite (bind_throw _ _ _ _ _ _ L).

Ltac run_setters :=
  cbv beta iota zeta delta
    [bind ret setStatus setIsApiKeySelected setApiKeyError setError
     setActiveRagStoreName setChatHistory setIsQueryLoading
     setExampleQuestions setDocumentName setFiles setPatientName
     setUploadProgress updateUploadProgress appendChat modifyApp world
     emitEvent delay consoleError handleError throw
     with_status with_isApiKeySelected with_apiKeyError with_error
     with_uploadProgress with_activeRagStoreName with_chatHistory
     with_isQueryLoading with_exampleQuestions with_documentName
     with_files with_patientName
     ai state trace after
     status isApiKeySelected apiKeyError error uploadProgress
     activeRagStoreName chatHistory isQueryLoading exampleQuestions
     documentName files patientName].

(** The [try] block of the set-up.  It may fail only before the questions
    are asked for, with nothing but the progress changed; when it ends
    normally the session is bound to the store that was created. *)
Lemma provision_run `{Builtins} fs totalSteps e w :
  ai w = true ->
  exists r w' t,
    provision fs totalSteps e w = (r, w')
    /\ ai w' = true
    /\ trace w' = trace w ++ t
    /\ deletionsOf t = []
    /\ Forall (eq (Some totalSteps)) (totalsOf (progressOf t))
    /\ match r with
       | Throw _ =>
           with_uploadProgress None (state w')
           = with_uploadProgress None (state w)
       | Ok _ =>
           exists store,
             createOutcome (stores_create e (storeNameOf e)) = Ok store
             /\ state w'
                = {| status := Binding;
                     isApiKeySelected := isApiKeySelected (state w);
                     apiKeyError := apiKeyError (state w);
                     error := error (state w);
                     uploadProgress := Some (readyProgress totalSteps);
                     activeRagStoreName := Some store;
                     chatHistory := [];
                     isQueryLoading := isQueryLoading (state w);
                     exampleQuestions :=
                       questionsOf
                         (models_generateContent e (questionsRequest store));
                     documentName := docNameOf fs;
                     files := [];
                     patientName := patientName (state w) |}
             /\ uploadsOf t = map (pair store) fs
             /\ currentsOf (progressOf t)
                = 1 :: seq 1 (List.length fs)
                    ++ [List.length fs + 1; totalSteps]
             /\ milestonesOf t
                = inl 1 :: loopMilestones 0 fs
                    ++ [inl (List.length fs + 1); inl totalSteps]
       end.
Proof.
  intros Hai.
  destruct w as [a [st key ake er up act ch ql eqs dn fls pn] tr].
  cbn [ai] in Hai. subst a.
  unfold provision. unfold bind at 1. unfold env at 1. cbv beta iota zeta.
  fold (storeNameOf e).
  match goal with
  | |- context [bind (createRagStore ?n) _ ?e ?w] =>
      pose proof (createRagStore_run n e w eq_refl) as Hc
  end.
  destruct (createOutcome (stores_create e (storeNameOf e)))
    as [store|err] eqn:Ecreate.
  2:{ step_throw Hc. eexists _, _, _. split; [reflexivity|].
      unfold after. cbn [ai state trace].
      repeat split; try reflexivity. constructor. }
  step_ok Hc.
  match goal with
  | |- context [bind (setUploadProgress ?p) _ ?e ?w] =>
      rewrite (bind_ok _ _ _ _ _ _ (updateUploadProgress_run (fun _ => p) e w))
  end.
  unfold after. cbn [ai state trace].
  match goal with
  | |- context [bind (uploadLoop ?s ?c ?i ?r) _ ?e ?w] =>
      destruct (uploadLoop_run s c e r i w eq_refl)
        as (r0 & p0 & t0 & Hloop & Htot & Hdel & Hall & Hok)
  end.
  cbn [state trace uploadProgress with_uploadProgress totalOf total]
    in Hloop, Htot, Hall.
  destruct r0 as [[]|err].
  2:{ step_throw Hloop. eexists _, _, _. split; [reflexivity|].
      cbn [ai state trace]. split; [reflexivity|].
      split; [rewrite <- ?app_assoc; reflexivity|].
      cbn [app deletionsOf progressOf totalsOf].
      rewrite ?deletionsOf_app. cbn [deletionsOf app].
      rewrite ?progressOf_app. cbn [progressOf totalsOf app total].
      repeat split; [exact Hdel | constructor; [reflexivity | exact Hall]]. }
  step_ok Hloop. destruct (Hok eq_refl) as (Hup & Hcur & Hmil).
  match goal with
  | |- context [bind (setUploadProgress ?p) _ ?e ?w] =>
      rewrite (bind_ok _ _ _ _ _ _ (updateUploadProgress_run (fun _ => p) e w))
  end.
  cbn [ai state trace].
  match goal with
  | |- context [bind (generateExampleQuestions ?s) _ ?e ?w] =>
      destruct (generateExampleQuestions_run s e w eq_refl)
        as (tq & Hq & Hquiet)
  end.
  pose proof (quiet_milestones tq Hquiet) as Hqm.
  destruct Hquiet as (Hqu & Hqp & Hqd).
  step_ok Hq. run_setters.
  eexists _, _, _. split; [reflexivity|]. cbn [ai state trace].
  split; [reflexivity|].
  split; [rewrite <- ?app_assoc; reflexivity|].
  rewrite ?deletionsOf_app, ?progressOf_app, ?totalsOf_app, ?uploadsOf_app,
    ?currentsOf_app, ?milestonesOf_app.
  cbn [deletionsOf progressOf totalsOf uploadsOf currentsOf milestonesOf
       app total current].
  rewrite ?deletionsOf_app, ?progressOf_app, ?totalsOf_app, ?uploadsOf_app,
    ?currentsOf_app, ?milestonesOf_app.
  rewrite Hdel, Hqd, Hqp, Hqu, Hup, Hcur, Hmil, Hqm.
  cbn [deletionsOf progressOf totalsOf uploadsOf currentsOf milestonesOf
       app total current].
  rewrite ?app_nil_r.
  split; [reflexivity|]. split.
  { constructor; [reflexivity|]. apply Forall_app. split; [exact Hall|].
    repeat constructor. }
  exists store. repeat split; reflexivity.
Qed.

(** ** The set-up handler *)

Ltac run_prologue :=
  cbv beta iota zeta delta
    [handleAdminSetupComplete bind world tryCatch initialize env
     setApiKeyError modifyApp].

Lemma handleAdminSetupComplete_no_key `{Builtins} e w :
  isApiKeySelected (state w) = false ->
  handleAdminSetupComplete e w
  = (Throw (ErrorObj (js "API Key is required.")),
     Build_World (ai w) (with_apiKeyError (Some KEY_REQUIRED) (state w))
       (trace w)).
Proof.
  intros Hkey. unfold KEY_REQUIRED. run_prologue. rewrite Hkey.
  cbn [negb]. run_setters. reflexivity.
Qed.

Lemma handleAdminSetupComplete_no_client `{Builtins} e w err :
  isApiKeySelected (state w) = true ->
  new_client e = Some err ->
  handleAdminSetupComplete e w
  = (Throw err,
     Build_World (ai w)
       (with_status Error
          (with_error
             (Some (errorText (js "初始化失敗，請選擇有效的 API Key。") err))
             (with_apiKeyError None (state w))))
       (trace w
          ++ [EvConsoleError (js "初始化失敗，請選擇有效的 API Key。") err])).
Proof.
  intros Hkey Hnew. unfold errorText. run_prologue. rewrite Hkey.
  cbn [negb]. run_prologue. rewrite Hnew. run_setters. reflexivity.
Qed.

Lemma handleAdminSetupComplete_provisioning `{Builtins} e w :
  isApiKeySelected (state w) = true ->
  new_client e = None ->
  handleAdminSetupComplete e w
  = tryFinally
      (tryCatch
         (provision (files (state w)) (List.length (files (state w)) + 2))
         provisionFailed)
      (setUploadProgress None) e (provisioningStart w).
Proof.
  intros Hkey Hnew. unfold provisioningStart. run_prologue.
  rewrite Hkey. cbn [negb]. run_prologue. rewrite Hnew.
  cbv beta iota zeta delta [setAi].
  run_setters. reflexivity.
Qed.

Lemma sameButProgress_status a b :
  with_uploadProgress None a = with_uploadProgress None b ->
  status a = status b.
Proof. intros E. now apply (f_equal status) in E. Qed.

(** The set-up, once the key is selected and the client created: it ends
    bound to the new store, or, on a failure of the provisioning, asking
    for the credential again or in the fatal error, as the failure message
    decides; the store active before is kept in both failures. *)
Lemma handleAdminSetupComplete_run `{Builtins} e w :
  isApiKeySelected (state w) = true ->
  new_client e = None ->
  exists r w' t,
    handleAdminSetupComplete e w = (r, w')
    /\ ai w' = true
    /\ trace w' = trace w ++ t
    /\ deletionsOf t = []
    /\ Forall (eq (Some (List.length (files (state w)) + 2)))
              (totalsOf (progressOf t))
    /\ match r with
       | Ok _ =>
           exists store,
             createOutcome (stores_create e (storeNameOf e)) = Ok store
             /\ state w' = bound e store (state w)
             /\ uploadsOf t = map (pair store) (files (state w))
             /\ currentsOf (progressOf t)
                = 0 :: 1 :: seq 1 (List.length (files (state w)))
                    ++ [List.length (files (state w)) + 1;
                        List.length (files (state w)) + 2]
             /\ milestonesOf t
                = inl 0 :: inl 1 :: loopMilestones 0 (files (state w))
                    ++ [inl (List.length (files (state w)) + 1);
                        inl (List.length (files (state w)) + 2)]
       | Throw err =>
           state w'
           = (if invalidCredential err then credentialRetry (state w)
              else setupFailed err (state w))
           /\ exists w1,
                provision (files (state w))
                  (List.length (files (state w)) + 2) e (provisioningStart w)
                = (Throw err, w1)
                /\ status (state (provisioningStart w)) = Uploading
                /\ status (state w1) = Uploading
       end.
Proof.
  intros Hkey Hnew.
  rewrite (handleAdminSetupComplete_provisioning e w Hkey Hnew).
  destruct (provision_run (files (state w))
              (List.length (files (state w)) + 2) e (provisioningStart w)
              eq_refl)
    as (r & w1 & t & Hprov & Hai1 & Htr & Hdel & Hall & Hcase).
  unfold tryFinally, tryCatch. rewrite Hprov.
  destruct w as [a [st key ake er up act ch ql eqs dn fls pn] tr].
  cbn [state isApiKeySelected] in Hkey. subst key.
  destruct w1 as [a1 s1 tr1]. cbn [ai trace state] in Hai1, Htr, Hcase.
  subst a1 tr1.
  unfold provisioningStart in *.
  cbn [state trace files with_status with_apiKeyError with_uploadProgress
       status isApiKeySelected apiKeyError error uploadProgress
       activeRagStoreName chatHistory isQueryLoading exampleQuestions
       documentName patientName] in *.
  destruct r as [[]|err].
  - destruct Hcase as (store & Hc & Hs & Hup & Hcur & Hmil). subst s1.
    run_setters. eexists _, _, _. split; [reflexivity|].
    cbn [ai state trace]. split; [reflexivity|].
    split; [rewrite <- ?app_assoc; reflexivity|].
    rewrite ?deletionsOf_app, ?progressOf_app, ?totalsOf_app, ?uploadsOf_app,
      ?currentsOf_app, ?milestonesOf_app.
    cbn [deletionsOf progressOf totalsOf uploadsOf currentsOf milestonesOf
         app total current].
    rewrite ?deletionsOf_app, ?progressOf_app, ?totalsOf_app, ?uploadsOf_app,
      ?currentsOf_app, ?milestonesOf_app.
    cbn [deletionsOf progressOf totalsOf uploadsOf currentsOf milestonesOf
         app total current].
    rewrite Hdel, Hup, Hcur, Hmil, ?app_nil_r.
    split; [reflexivity|]. split.
    { constructor; [reflexivity|]. rewrite <- (app_nil_r (totalsOf _)).
      exact (proj2 (Forall_app _ _ _) (conj Hall (Forall_nil _))). }
    exists store. repeat split; try assumption; reflexivity.
  - destruct s1 as [st1 key1 ake1 er1 up1 act1 ch1 ql1 eqs1 dn1 fls1 pn1].
    cbn [with_uploadProgress status isApiKeySelected apiKeyError error
         uploadProgress activeRagStoreName chatHistory isQueryLoading
         exampleQuestions documentName files patientName] in Hcase.
    injection Hcase as -> -> -> -> -> -> -> -> -> -> ->.
    unfold provisionFailed. unfold bind at 1.
    unfold credentialRetry, setupFailed, errorText, KEY_INVALID.
    destruct (invalidCredential err) eqn:Einv; run_setters;
      (eexists _, _, _; split; [reflexivity|]; cbv beta iota;
       rewrite Einv; cbn [ai state trace];
       split; [reflexivity|];
       split; [rewrite <- ?app_assoc; reflexivity|];
       rewrite ?deletionsOf_app, ?progressOf_app, ?totalsOf_app;
       cbn [deletionsOf progressOf totalsOf app total];
       rewrite ?deletionsOf_app, ?progressOf_app, ?totalsOf_app;
       cbn [deletionsOf progressOf totalsOf app total];
       rewrite Hdel, ?app_nil_r;
       split; [reflexivity|]; split;
       [ constructor; [reflexivity|]; try exact Hall
       | split; [reflexivity | eexists; repeat split; reflexivity] ]).
Qed.

(** ** The chat handlers *)

Ltac run_send :=
  cbv beta iota zeta delta
    [handleSendMessage handleEndChat tryFinally tryCatch fileSearch
     deleteRagStore requireAi call env lift].

Lemma handleSendMessage_idle `{Builtins} message e w :
  activeStore (state w) = None ->
  handleSendMessage message e w = (Ok tt, w).
Proof.
  intros Hact. unfold handleSendMessage. unfold bind at 1, world at 1.
  now rewrite Hact.
Qed.

Lemma handleSendMessage_run `{Builtins} message e w name :
  activeStore (state w) = Some name ->
  handleSendMessage message e w
  = (Ok tt,
     if ai w then
       if crisisQuery message then
         Build_World true (answered message CRISIS_RESULT (state w)) (trace w)
       else
         match models_generateContent e (queryRequest name message) with
         | Ok response =>
             Build_World true (answered message (resultOf response) (state w))
               (trace w ++ [EvGenerateContent (queryRequest name message)])
         | Throw err =>
             Build_World true (queryFailed message err (state w))
               (trace w ++ [EvGenerateContent (queryRequest name message);
                            EvConsoleError (js "取得回應失敗") err])
         end
     else
       Build_World false (queryFailed message NOT_INITIALIZED (state w))
         (trace w ++ [EvConsoleError (js "取得回應失敗") NOT_INITIALIZED])).
Proof.
  intros Hact.
  unfold answered, queryFailed, CRISIS_RESULT, resultOf, errorText,
    NOT_INITIALIZED, userMessage, modelMessage, apologyMessage.
  unfold handleSendMessage. unfold bind at 1, world at 1. rewrite Hact.
  destruct w as [a s tr]. cbn [ai state trace].
  run_send. run_setters.
  destruct a; [|rewrite <- ?app_assoc; reflexivity].
  cbv beta iota.
  destruct (crisisQuery message); cbv beta iota.
  - rewrite <- ?app_assoc. reflexivity.
  - destruct (models_generateContent e (queryRequest name message));
      cbv beta iota; rewrite <- ?app_assoc; reflexivity.
Qed.

Lemma handleEndChat_run e w :
  handleEndChat e w
  = (Ok tt,
     Build_World (ai w) (ended (state w))
       (trace w
          ++ match activeStore (state w) with
             | Some name =>
               if ai w then
                 EvDelete name
                 :: match stores_delete e name with
                    | Ok _ => []
                    | Throw err =>
                      [EvConsoleError
                         (js "Failed to delete RAG store in background") err]
                    end
               else
                 [EvConsoleError
                    (js "Failed to delete RAG store in background")
                    NOT_INITIALIZED]
             | None => []
             end)).
Proof.
  unfold ended, NOT_INITIALIZED.
  unfold handleEndChat. unfold bind at 1, world at 1. cbv beta.
  destruct w as [a s tr]. cbn [ai state trace].
  destruct (activeStore s) as [name|]; run_send; run_setters.
  - destruct a; cbv beta iota.
    + destruct (stores_delete e name); cbv beta iota;
        rewrite <- ?app_assoc; reflexivity.
    + reflexivity.
  - rewrite app_nil_r. reflexivity.
Qed.

Lemma handlePatientLogin_run name phone e w :
  handlePatientLogin name phone e w
  = (Ok tt,
     Build_World (ai w)
       (with_status Chatting
          (with_chatHistory
             [ {| role := model; parts := [Some (welcomeText name)];
                  groundingChunks := None; isCrisis := None |} ]
             (with_patientName name (state w))))
       (trace w)).
Proof. reflexivity. Qed.

Lemma handleError_run message err e w :
  handleError message err e w
  = (Ok tt,
     Build_World (ai w)
       (with_status Error
          (with_error (Some (errorText message err)) (state w)))
       (trace w ++ [EvConsoleError message err])).
Proof. reflexivity. Qed.

Lemma clearError_run e w :
  clearError e w
  = (Ok tt,
     Build_World (ai w) (with_status Welcome (with_error None (state w)))
       (trace w)).
Proof. reflexivity. Qed.

(** Checking the key touches the key flag only. *)
Lemma checkApiKey_run e w :
  exists key t,
    checkApiKey e w
    = (Ok tt,
       Build_World (ai w) (with_isApiKeySelected key (state w))
         (trace w ++ t))
    /\ quiet t.
Proof.
  unfold checkApiKey. unfold bind at 1, env at 1.
  destruct (hasSelectedApiKey e) as [[hasKey|err]|].
  - exists hasKey, []. rewrite app_nil_r. split; [reflexivity | repeat split].
  - exists false, [EvConsoleError (js "Error checking for API key:") err].
    split; [reflexivity | repeat split].
  - exists (isApiKeySelected (state w)), []. rewrite app_nil_r.
    unfold ret. destruct w as [a [] tr]. split; [reflexivity | repeat split].
Qed.

Lemma handleSelectKey_run e w :
  exists key t,
    handleSelectKey e w
    = (Ok tt,
       Build_World (ai w) (with_isApiKeySelected key (state w))
         (trace w ++ t)).
Proof.
  assert (Hsame : forall t,
            (Ok tt, Build_World (ai w) (state w) (trace w ++ t))
            = (Ok tt,
               Build_World (ai w)
                 (with_isApiKeySelected (isApiKeySelected (state w)) (state w))
                 (trace w ++ t))).
  { intros t. destruct w as [a [] tr]. reflexivity. }
  unfold handleSelectKey. unfold bind at 1, env at 1.
  destruct (openSelectKey e) as [[[]|err]|].
  - destruct (checkApiKey_run e w) as (key & t & Hc & _).
    exists key, t. unfold tryCatch, bind, lift. now rewrite Hc.
  - exists (isApiKeySelected (state w)),
      [EvConsoleError (js "Failed to open API key selection dialog") err].
    rewrite <- Hsame. reflexivity.
  - exists (isApiKeySelected (state w)),
      [EvAlert (js "API key selection is not available in this environment.")].
    rewrite <- Hsame. reflexivity.
Qed.

Lemma mount_run e w :
  exists key t,
    mount e w
    = (Ok tt,
       Build_World (ai w)
         (with_status Welcome (with_isApiKeySelected key (state w)))
         (trace w ++ t)).
Proof.
  destruct (checkApiKey_run e w) as (key & t & Hc & _).
  exists key, t. unfold mount. now rewrite (bind_ok _ _ _ _ _ _ Hc).
Qed.

Lemma handleUnload_run e w :
  exists t, handleUnload e w = (Ok tt, after w t).
Proof.
  unfold handleUnload. unfold bind at 1, world at 1.
  destruct (activeRagStoreName (state w)) as [name|].
  2:{ exists []. now rewrite after_nil. }
  destruct (truthy name).
  2:{ exists []. now rewrite after_nil. }
  destruct w as [a s tr]. unfold after. cbn [ai state trace].
  run_send. run_setters.
  destruct a; cbv beta iota.
  - destruct (stores_delete e name) as [[]|err]; cbv beta iota; eexists;
      rewrite <- ?app_assoc; reflexivity.
  - eexists. reflexivity.
Qed.

(** ** What holds in every reachable state *)

Lemma isStatus_eq a b : isStatus a b = true <-> a = b.
Proof. destruct a, b; cbn; split; congruence. Qed.

Lemma activeStore_some a name :
  activeStore a = Some name ->
  activeRagStoreName a = Some name /\ truthy name = true.
Proof.
  unfold activeStore. destruct (activeRagStoreName a) as [n|]; [|discriminate].
  destruct (truthy n) eqn:E; [|discriminate]. now intros [= <-].
Qed.

Lemma invariant_frame w w' :
  sessionInvariant w ->
  (ai w = true -> ai w' = true) ->
  activeRagStoreName (state w') = activeRagStoreName (state w) ->
  (status (state w') = status (state w)
   \/ (status (state w') <> Binding /\ status (state w') <> Chatting)) ->
  sessionInvariant w'.
Proof.
  intros [Hs Ha] Hai Hact Hst. split.
  - intros Hbc. unfold activeStore. rewrite Hact. apply Hs.
    destruct Hst as [<-|[Hb Hc]]; [assumption|]. tauto.
  - intros name Hn. rewrite Hact in Hn. eauto.
Qed.

Lemma reachable_invariant `{Builtins} w : reachable w -> sessionInvariant w.
Proof.
  induction 1 as [|w act e Hreach IH Hen].
  - split; [intros [E|E]; discriminate | discriminate].
  - destruct act as [| | | |fs| |name phone|msg| |]; cbn [perform enabled] in *.
    + destruct (mount_run e w) as (key & t & ->).
      apply (invariant_frame w); auto.
      right. cbn. split; discriminate.
    + destruct (checkApiKey_run e w) as (key & t & -> & _).
      apply (invariant_frame w); auto.
    + destruct (handleUnload_run e w) as (t & ->).
      apply (invariant_frame w); auto.
    + destruct (handleSelectKey_run e w) as (key & t & ->).
      apply (invariant_frame w); auto.
    + apply (invariant_frame w); auto.
    + destruct (isApiKeySelected (state w)) eqn:Hkey.
      * destruct (new_client e) as [err|] eqn:Hnew.
        -- rewrite (handleAdminSetupComplete_no_client e w err Hkey Hnew).
           apply (invariant_frame w); auto.
           right. cbn. split; discriminate.
        -- destruct (handleAdminSetupComplete_run e w Hkey Hnew)
             as (r & w' & t & -> & Hai & _ & _ & _ & Hcase).
           cbn [snd]. destruct r as [[]|err].
           ++ destruct Hcase as (store & Hc & Hs & _).
              apply createOutcome_truthy in Hc as [Htr _].
              split; [|auto].
              intros _. exists store. rewrite Hs. unfold activeStore.
              cbn [bound activeRagStoreName]. now rewrite Htr.
           ++ destruct Hcase as [Hs _].
              apply (invariant_frame w); auto.
              ** rewrite Hs. now destruct (invalidCredential err).
              ** right. rewrite Hs.
                 destruct (invalidCredential err); cbn; split; discriminate.
      * rewrite (handleAdminSetupComplete_no_key e w Hkey).
        apply (invariant_frame w); auto.
    + rewrite handlePatientLogin_run. cbn [snd].
      apply isStatus_eq in Hen. destruct IH as [Hs Ha]. split.
      * intros _. destruct (Hs (or_introl Hen)) as [n Hn]. now exists n.
      * exact Ha.
    + destruct (activeStore (state w)) as [n|] eqn:Hact.
      * rewrite (handleSendMessage_run msg e w n Hact). cbn [snd].
        destruct IH as [Hs Ha].
        destruct (activeStore_some _ _ Hact) as [Hn _].
        rewrite (Ha n Hn).
        apply (invariant_frame w); [now split | | | ].
        -- intros _. now destruct (crisisQuery msg);
             [|destruct (models_generateContent e (queryRequest n msg))].
        -- now destruct (crisisQuery msg);
             [|destruct (models_generateContent e (queryRequest n msg))].
        -- destruct (crisisQuery msg); [now left|].
           destruct (models_generateContent e (queryRequest n msg));
             [now left|].
           right. cbn. split; discriminate.
      * rewrite (handleSendMessage_idle msg e w Hact). exact IH.
    + rewrite handleEndChat_run. cbn [snd]. split.
      * cbn. intros [E|E]; discriminate.
      * cbn. discriminate.
    + rewrite clearError_run. apply (invariant_frame w); auto.
      right. cbn. split; discriminate.
Qed.

Lemma runAll_reachable steps : forall w,
  @reachable sampleBuiltins w -> offered steps w = true ->
  @reachable sampleBuiltins (runAll steps w).
Proof.
  induction steps as [|[act e] r IH]; intros w Hw Hoff; [exact Hw|].
  cbn [offered] in Hoff. apply andb_prop in Hoff as [Hen Hr].
  cbn [runAll]. apply IH; [|exact Hr].
  now apply (@reachable_step sampleBuiltins).
Qed.

Lemma chattingWorld_reachable : @reachable sampleBuiltins chattingWorld.
Proof.
  apply (runAll_reachable [(Login (js "陳大明") (js "0912345678"), goodEnv)]).
  - apply (runAll_reachable [(Setup, goodEnv)]).
    + apply (runAll_reachable
               [(Mount, goodEnv); (EditFiles [fileA; fileB], goodEnv)]).
      * apply (@reachable_initial sampleBuiltins).
      * vm_compute. reflexivity.
    + vm_compute. reflexivity.
  - vm_compute. reflexivity.
Qed.

Lemma failedChatWorld_reachable : @reachable sampleBuiltins failedChatWorld.
Proof.
  apply (runAll_reachable [(Send (js "hi"), failingEnv)]).
  - exact chattingWorld_reachable.
  - vm_compute. reflexivity.
Qed.

Lemma acknowledgedWorld_reachable :
  @reachable sampleBuiltins acknowledgedWorld.
Proof.
  apply (runAll_reachable [(AcknowledgeError, goodEnv)]).
  - exact failedChatWorld_reachable.
  - vm_compute. reflexivity.
Qed.

Lemma truthy_not_nil (s : jsstring) : truthy s = true -> s <> [].
Proof. destruct s; [discriminate | discriminate]. Qed.

Lemma setup_ok_preconditions `{Builtins} e w :
  fst (handleAdminSetupComplete e w) = Ok tt ->
  isApiKeySelected (state w) = true /\ new_client e = None.
Proof.
  intros Hok. destruct (isApiKeySelected (state w)) eqn:Hkey.
  - destruct (new_client e) as [err|] eqn:Hnew; [|now split].
    rewrite (handleAdminSetupComplete_no_client e w err Hkey Hnew) in Hok.
    discriminate.
  - rewrite (handleAdminSetupComplete_no_key e w Hkey) in Hok. discriminate.
Qed.

(** ** The crisis gate on the way out *)

(** C1. A query whose lower-cased form contains one of the crisis keywords
    is answered by [fileSearch] (the service being initialised) with the
    fixed crisis result: [isCrisis] set, the fixed text, no grounding
    chunk.  The world is left as it was, initialised or not: no event is
    recorded, so [generateContent] is not invoked.  On the way out of the
    chat, that is for a query sent in a reachable state of status Chatting,
    the service is initialised: the message of the user and the crisis
    message are appended to the chat and the trace is unchanged. *)
Theorem fileSearch_crisis_short_circuit `{Builtins}
  (store query keyword : jsstring) (e : Env) (w : World) :
  In keyword CRISIS_KEYWORDS ->
  includes (toLowerCase query) keyword = true ->
  (ai w = true ->
     fileSearch store query e w = (Ok CRISIS_RESULT, w)
     /\ q_isCrisis CRISIS_RESULT = true
     /\ q_text CRISIS_RESULT = Some (js "CRISIS_DETECTED")
     /\ q_groundingChunks CRISIS_RESULT = [])
  /\ snd (fileSearch store query e w) = w
  /\ generationsOf (trace (snd (fileSearch store query e w)))
     = generationsOf (trace w)
  /\ (reachable w ->
      status (state w) = Chatting ->
      ai w = true
      /\ chatHistory (state (snd (handleSendMessage query e w)))
         = chatHistory (state w)
             ++ [userMessage query; modelMessage CRISIS_RESULT]
      /\ isCrisis (modelMessage CRISIS_RESULT) = Some true
      /\ status (state (snd (handleSendMessage query e w))) = Chatting
      /\ trace (snd (handleSendMessage query e w)) = trace w).
Proof.
  intros Hin Hinc.
  assert (Hc : crisisQuery query = true).
  { apply crisisQuery_keyword. now exists keyword. }
  assert (Hw : snd (fileSearch store query e w) = w).
  { destruct (ai w) eqn:Hai.
    - now rewrite fileSearch_crisis.
    - now rewrite fileSearch_unset. }
  split; [|split; [exact Hw | split; [now rewrite Hw|]]].
  - intros Hai. rewrite fileSearch_crisis by assumption. repeat split.
  - intros Hreach Hst.
    destruct (reachable_invariant w Hreach) as [Hs Ha].
    destruct (Hs (or_intror Hst)) as [name Hact].
    destruct (activeStore_some _ _ Hact) as [Hname _].
    rewrite (handleSendMessage_run query e w name Hact).
    rewrite (Ha name Hname), Hc. cbn [snd state trace].
    repeat split. exact Hst.
Qed.

Lemma fileSearch_crisis_short_circuit_witness :
  @fileSearch sampleBuiltins STORE (js "我想自殺") failingEnv chattingWorld
  = (Ok CRISIS_RESULT, chattingWorld)
  /\ @fileSearch sampleBuiltins STORE (js "I want to Hurt Myself")
       failingEnv chattingWorld
     = (Ok CRISIS_RESULT, chattingWorld)
  /\ trace (snd (@handleSendMessage sampleBuiltins (js "我想自殺") failingEnv
                   chattingWorld))
     = trace chattingWorld.
Proof.
  split; [|split].
  - apply (@fileSearch_crisis_short_circuit sampleBuiltins STORE
             (js "我想自殺") (js "自殺") failingEnv chattingWorld);
      [vm_compute; tauto | reflexivity | reflexivity].
  - apply (@fileSearch_crisis_short_circuit sampleBuiltins STORE
             (js "I want to Hurt Myself") (js "hurt myself")
             failingEnv chattingWorld);
      [vm_compute; tauto | reflexivity | reflexivity].
  - apply (@fileSearch_crisis_short_circuit sampleBuiltins STORE
             (js "我想自殺") (js "自殺") failingEnv chattingWorld);
      [vm_compute; tauto | reflexivity
       | exact chattingWorld_reachable | reflexivity].
Defined.

(** ** The store and the status *)

(** C2 (as the code has it). In every reachable state, a status of Binding
    or Chatting comes with an active store (neither null nor empty).  The
    transition into Binding sets the store, the transition into Chatting
    keeps it, and the end of the session clears it on the way to Welcome.
    The transition into Error ([handleError]) and the way back to Welcome
    ([clearError]) leave the store as it is, so the converse does not
    hold. *)
Theorem active_store_while_bound `{Builtins} :
  (forall w,
     reachable w ->
     status (state w) = Binding \/ status (state w) = Chatting ->
     exists name,
       activeRagStoreName (state w) = Some name /\ name <> [])
  /\ (forall e w,
        fst (handleAdminSetupComplete e w) = Ok tt ->
        status (state (snd (handleAdminSetupComplete e w))) = Binding
        /\ exists name,
             activeRagStoreName (state (snd (handleAdminSetupComplete e w)))
             = Some name
             /\ name <> [])
  /\ (forall name phone e w,
        status (state (snd (handlePatientLogin name phone e w))) = Chatting
        /\ activeRagStoreName (state (snd (handlePatientLogin name phone e w)))
           = activeRagStoreName (state w))
  /\ (forall e w,
        status (state (snd (handleEndChat e w))) = Welcome
        /\ activeRagStoreName (state (snd (handleEndChat e w))) = None)
  /\ (forall message err e w,
        status (state (snd (handleError message err e w))) = Error
        /\ activeRagStoreName (state (snd (handleError message err e w)))
           = activeRagStoreName (state w))
  /\ (forall e w,
        status (state (snd (clearError e w))) = Welcome
        /\ activeRagStoreName (state (snd (clearError e w)))
           = activeRagStoreName (state w)).
Proof.
  repeat split.
  - intros w Hreach Hst.
    destruct (reachable_invariant w Hreach) as [Hs _].
    destruct (Hs Hst) as [name Hname].
    apply activeStore_some in Hname as [Hname Htr].
    exists name. split; [exact Hname | now apply truthy_not_nil].
  - destruct (setup_ok_preconditions e w H0) as [Hkey Hnew].
    destruct (handleAdminSetupComplete_run e w Hkey Hnew)
      as (r & w' & t & Hrun & _ & _ & _ & _ & Hcase).
    rewrite Hrun in *. cbn [fst snd] in *. subst r.
    destruct Hcase as (store & _ & -> & _). reflexivity.
  - destruct (setup_ok_preconditions e w H0) as [Hkey Hnew].
    destruct (handleAdminSetupComplete_run e w Hkey Hnew)
      as (r & w' & t & Hrun & _ & _ & _ & _ & Hcase).
    rewrite Hrun in *. cbn [fst snd] in *. subst r.
    destruct Hcase as (store & Hc & -> & _).
    apply createOutcome_truthy in Hc as [Htr _].
    exists store. split; [reflexivity | now apply truthy_not_nil].
  - rewrite handleEndChat_run. reflexivity.
  - rewrite handleEndChat_run. reflexivity.
Qed.

Lemma active_store_while_bound_witness :
  status (state chattingWorld) = Chatting
  /\ exists name,
       activeRagStoreName (state chattingWorld) = Some name /\ name <> [].
Proof.
  split; [reflexivity|].
  destruct (@active_store_while_bound sampleBuiltins) as [Hinv _].
  apply (Hinv chattingWorld chattingWorld_reachable).
  right. reflexivity.
Defined.

(** C2, as stated, fails: after a query that failed the session is in the
    status Error, and after the acknowledgement in the status Welcome, with
    the store still named. *)
Lemma error_state_keeps_store :
  @reachable sampleBuiltins failedChatWorld
  /\ status (state failedChatWorld) = Error
  /\ activeRagStoreName (state failedChatWorld) = Some STORE
  /\ @reachable sampleBuiltins acknowledgedWorld
  /\ status (state acknowledgedWorld) = Welcome
  /\ activeRagStoreName (state acknowledgedWorld) = Some STORE.
Proof.
  split; [exact failedChatWorld_reachable|].
  split; [reflexivity|]. split; [reflexivity|].
  split; [exact acknowledgedWorld_reachable|].
  split; reflexivity.
Qed.

(** ** A query that fails *)

(** C3 (as the code has it). When the query sent while chatting makes the
    gateway throw, one model message with the fixed apology is appended to
    the chat (after the message of the user), and the failure is then
    reported through [handleError]: the error text is set and the status
    becomes Error, which is the status of the full-screen error view.  The
    store stays named and the loading flag is reset. *)
Theorem query_failure_apology_then_error `{Builtins}
  (message name : jsstring) (err : JsErr) (e : Env) (w : World) :
  reachable w ->
  status (state w) = Chatting ->
  activeRagStoreName (state w) = Some name ->
  crisisQuery message = false ->
  models_generateContent e (queryRequest name message) = Throw err ->
  fst (handleSendMessage message e w) = Ok tt
  /\ chatHistory (state (snd (handleSendMessage message e w)))
     = chatHistory (state w) ++ [userMessage message; apologyMessage]
  /\ role apologyMessage = model
  /\ parts apologyMessage = [Some APOLOGY]
  /\ status (state (snd (handleSendMessage message e w))) = Error
  /\ error (state (snd (handleSendMessage message e w)))
     = Some (errorText (js "取得回應失敗") err)
  /\ activeRagStoreName (state (snd (handleSendMessage message e w)))
     = Some name
  /\ isQueryLoading (state (snd (handleSendMessage message e w))) = false.
Proof.
  intros Hreach Hst Hname Hcrisis Hthrow.
  destruct (reachable_invariant w Hreach) as [Hs Ha].
  destruct (Hs (or_intror Hst)) as [n Hact].
  destruct (activeStore_some _ _ Hact) as [Hn _].
  assert (n = name) by congruence. subst n.
  rewrite (handleSendMessage_run message e w name Hact).
  rewrite (Ha name Hname), Hcrisis, Hthrow. cbn [fst snd state].
  repeat split. exact Hname.
Qed.

Lemma query_failure_apology_then_error_witness :
  status (state (snd (@handleSendMessage sampleBuiltins (js "hi")
                        failingEnv chattingWorld))) = Error
  /\ chatHistory (state (snd (@handleSendMessage sampleBuiltins (js "hi")
                                failingEnv chattingWorld)))
     = chatHistory (state chattingWorld)
         ++ [userMessage (js "hi"); apologyMessage].
Proof.
  destruct (@query_failure_apology_then_error sampleBuiltins
              (js "hi") STORE (ErrorObj (js "503 unavailable"))
              failingEnv chattingWorld chattingWorld_reachable
              eq_refl eq_refl eq_refl eq_refl)
    as (_ & Hchat & _ & _ & Hst & _).
  split; [exact Hst | exact Hchat].
Defined.

(** C3, as stated, fails: the status does not remain Chatting. *)
Lemma query_failure_leaves_chatting :
  status (state chattingWorld) = Chatting
  /\ models_generateContent failingEnv (queryRequest STORE (js "hi"))
     = Throw (ErrorObj (js "503 unavailable"))
  /\ failedChatWorld
     = snd (@handleSendMessage sampleBuiltins (js "hi") failingEnv
              chattingWorld)
  /\ status (state failedChatWorld) = Error
  /\ status (state failedChatWorld) <> Chatting
  /\ error (state failedChatWorld)
     = Some (js "取得回應失敗: 503 unavailable").
Proof.
  repeat split; try reflexivity. vm_compute. discriminate.
Qed.

(** ** Uploads and progress of the provisioning *)




(** ** The end of the session *)

(** C5. Ending the session while chatting asks the gateway once to delete
    the active store, and whatever the gateway answers the handler ends
    normally in the status Welcome with the store, the chat, the example
    questions, the document label and the files cleared; a failure of the
    deletion is logged and changes nothing else. *)
Theorem end_chat_deletes_once_and_clears `{Builtins} (e : Env) (w : World) :
  reachable w ->
  status (state w) = Chatting ->
  exists name,
    activeRagStoreName (state w) = Some name
    /\ fst (handleEndChat e w) = Ok tt
    /\ deletionsOf (trace (snd (handleEndChat e w)))
       = deletionsOf (trace w) ++ [name]
    /\ state (snd (handleEndChat e w)) = ended (state w)
    /\ status (ended (state w)) = Welcome
    /\ activeRagStoreName (ended (state w)) = None
    /\ chatHistory (ended (state w)) = []
    /\ exampleQuestions (ended (state w)) = []
    /\ documentName (ended (state w)) = []
    /\ files (ended (state w)) = []
    /\ (forall e', state (snd (handleEndChat e' w))
                   = state (snd (handleEndChat e w)))
    /\ (forall err,
          stores_delete e name = Throw err ->
          trace (snd (handleEndChat e w))
          = trace w
              ++ [EvDelete name;
                  EvConsoleError
                    (js "Failed to delete RAG store in background") err]).
Proof.
  intros Hreach Hst.
  destruct (reachable_invariant w Hreach) as [Hs Ha].
  destruct (Hs (or_intror Hst)) as [name Hact].
  destruct (activeStore_some _ _ Hact) as [Hname _].
  exists name. split; [exact Hname|].
  rewrite !handleEndChat_run. cbn [fst snd state trace].
  rewrite Hact, (Ha name Hname).
  split; [reflexivity|]. split.
  { rewrite deletionsOf_app. f_equal. cbn [deletionsOf].
    now destruct (stores_delete e name). }
  repeat split.
  - intros e'. now rewrite handleEndChat_run.
  - intros err ->. reflexivity.
Qed.

Lemma end_chat_deletes_once_and_clears_witness :
  deletionsOf (trace (snd (handleEndChat failingEnv chattingWorld))) = [STORE]
  /\ state (snd (handleEndChat failingEnv chattingWorld))
     = ended (state chattingWorld)
  /\ state (snd (handleEndChat goodEnv chattingWorld))
     = ended (state chattingWorld).
Proof.
  destruct (@end_chat_deletes_once_and_clears sampleBuiltins failingEnv
              chattingWorld chattingWorld_reachable eq_refl)
    as (name & Hname & _ & Hdel & Hstate & _ & _ & _ & _ & _ & _ & Hany & _).
  assert (name = STORE)
    by (clear - Hname; vm_compute; vm_compute in Hname; congruence).
  subst name. split; [exact Hdel|]. split; [exact Hstate|].
  rewrite (Hany goodEnv). exact Hstate.
Defined.

(** ** Failures of the provisioning *)



(* ===================================================================== *)
(** * Further properties of the markup renderer                            *)
(* ===================================================================== *)

(** ** Headings *)

Lemma startsWith_false_head x p c r :
  x <> c -> startsWith (x :: p) (c :: r) = false.
Proof. intros Hne. cbn. apply N.eqb_neq in Hne. now rewrite Hne. Qed.

Lemma skipn_app_exact {A} (a b : list A) : skipn (List.length a) (a ++ b) = b.
Proof. induction a; [reflexivity | assumption]. Qed.

Lemma renderLine_h1 st t :
  renderLine st (js "# " ++ t)
  = emit (H1_OPEN ++ t ++ H1_CLOSE) (flushList (flushPara st)).
Proof.
  unfold renderLine, H1_OPEN, H1_CLOSE. rewrite startsWith_app.
  unfold substring. change (skipn 2 (js "# " ++ t)) with t. reflexivity.
Qed.

Lemma renderLine_h2 st t :
  renderLine st (js "## " ++ t)
  = emit (H2_OPEN ++ t ++ H2_CLOSE) (flushList (flushPara st)).
Proof.
  unfold renderLine, H2_OPEN, H2_CLOSE. rewrite startsWith_app.
  change (startsWith (js "# ") (js "## " ++ t)) with false. cbv iota.
  unfold substring. change (skipn 3 (js "## " ++ t)) with t. reflexivity.
Qed.

Lemma flush_closed st :
  listType (flushList (flushPara st)) = None
  /\ paraBuffer (flushList (flushPara st)) = [].
Proof.
  unfold flushList, flushPara.
  destruct st as [o [t|] [|c b]]; cbn; split; reflexivity.
Qed.

Lemma emit_alone s :
  out (flushList (flushPara (emit s (flushList (flushPara renderInit))))) = s.
Proof. reflexivity. Qed.

(** X1. A heading line is emitted with its text as it stands, without the
    inline patterns being applied to it, after the open paragraph and the
    open list have been closed; a text that is one heading line is
    rendered as that heading alone. *)
Theorem heading_verbatim_closes_blocks (st : RenderState) (t : jsstring) :
  (out (renderLine st (js "# " ++ t))
   = out (flushList (flushPara st)) ++ H1_OPEN ++ t ++ H1_CLOSE
   /\ listType (renderLine st (js "# " ++ t)) = None
   /\ paraBuffer (renderLine st (js "# " ++ t)) = [])
  /\ (out (renderLine st (js "## " ++ t))
      = out (flushList (flushPara st)) ++ H2_OPEN ++ t ++ H2_CLOSE
      /\ listType (renderLine st (js "## " ++ t)) = None
      /\ paraBuffer (renderLine st (js "## " ++ t)) = [])
  /\ (~ In LF t ->
      renderMarkdown (js "# " ++ t) = H1_OPEN ++ t ++ H1_CLOSE
      /\ renderMarkdown (js "## " ++ t) = H2_OPEN ++ t ++ H2_CLOSE).
Proof.
  destruct (flush_closed st) as [Hl Hp].
  split; [|split].
  - rewrite renderLine_h1. unfold emit. cbn [out listType paraBuffer].
    now rewrite Hl, Hp.
  - rewrite renderLine_h2. unfold emit. cbn [out listType paraBuffer].
    now rewrite Hl, Hp.
  - intros Hlf.
    assert (Hrender : forall prefix,
              truthy prefix = true -> ~ In LF prefix ->
              renderMarkdown (prefix ++ t)
              = out (flushList (flushPara
                       (renderLine renderInit (prefix ++ t))))).
    { intros prefix Htr Hpre. unfold renderMarkdown.
      replace (truthy (prefix ++ t)) with true
        by (destruct prefix; [discriminate | reflexivity]).
      cbn [negb]. rewrite split_lines_single; [reflexivity|].
      intros Hin. apply in_app_or in Hin as [Hin|Hin]; contradiction. }
    split.
    + rewrite (Hrender (js "# "));
        [| reflexivity | vm_compute; intuition discriminate].
      rewrite renderLine_h1. apply emit_alone.
    + rewrite (Hrender (js "## "));
        [| reflexivity | vm_compute; intuition discriminate].
      rewrite renderLine_h2. apply emit_alone.
Qed.

Lemma heading_verbatim_closes_blocks_witness :
  renderMarkdown (js "# **not bold** `x`")
  = H1_OPEN ++ js "**not bold** `x`" ++ H1_CLOSE.
Proof.
  destruct (heading_verbatim_closes_blocks renderInit (js "**not bold** `x`"))
    as (_ & _ & Htext).
  apply Htext. vm_compute. intuition discriminate.
Defined.

(** ** Inline elements *)

Lemma undelimited_app a b :
  undelimited (a ++ b) = undelimited a && undelimited b.
Proof. apply forallb_app. Qed.

Lemma not_delimiter_neq c d :
  isDelimiter c = false -> isDelimiter d = true -> d <> c.
Proof. intros Hc Hd ->. congruence. Qed.

Lemma delimited_head open close c r d p :
  open = d :: p -> d <> c -> delimited open close (c :: r) = None.
Proof.
  intros -> Hne. unfold delimited.
  now rewrite (startsWith_false_head d p c r Hne).
Qed.

Lemma strongAt_driven : delimiterDriven strongAt.
Proof.
  intros c r Hc. unfold strongAt.
  rewrite (delimited_head [STAR; STAR] [STAR; STAR] c r STAR [STAR] eq_refl)
    by (now apply not_delimiter_neq).
  rewrite (delimited_head [UNDERSCORE; UNDERSCORE] [UNDERSCORE; UNDERSCORE]
             c r UNDERSCORE [UNDERSCORE] eq_refl)
    by (now apply not_delimiter_neq).
  reflexivity.
Qed.

Lemma emAt_driven : delimiterDriven emAt.
Proof.
  intros c r Hc. unfold emAt.
  rewrite (delimited_head [STAR] [STAR] c r STAR [] eq_refl)
    by (now apply not_delimiter_neq).
  rewrite (delimited_head [UNDERSCORE] [UNDERSCORE] c r UNDERSCORE [] eq_refl)
    by (now apply not_delimiter_neq).
  reflexivity.
Qed.

Lemma codeAt_driven : delimiterDriven codeAt.
Proof.
  intros c r Hc. unfold codeAt.
  assert (Hne : BACKTICK <> c) by (now apply not_delimiter_neq).
  apply not_eq_sym, N.eqb_neq in Hne. now rewrite Hne.
Qed.

(** A scan copies the text before the first delimiter. *)
Lemma replaceAll_prefix m a s :
  delimiterDriven m -> undelimited a = true ->
  replaceAll m (a ++ s) = a ++ replaceAll m s.
Proof.
  intros Hm. unfold replaceAll.
  induction a as [|c a IH]; intros Ha; [reflexivity|].
  cbn [undelimited forallb] in Ha. apply andb_prop in Ha as [Hc Ha].
  apply negb_true_iff in Hc.
  cbn [app replaceFrom]. rewrite (Hm c (a ++ s) Hc). f_equal. now apply IH.
Qed.

Lemma replaceAll_undelimited m b :
  delimiterDriven m -> undelimited b = true -> replaceAll m b = b.
Proof.
  intros Hm Hb. rewrite <- (app_nil_r b) at 1.
  rewrite (replaceAll_prefix m b [] Hm Hb). cbn. apply app_nil_r.
Qed.

Lemma replaceFrom_skip m x y :
  replaceFrom m (List.length x) (x ++ y) = replaceFrom m 0 y.
Proof. induction x as [|c x IH]; [now destruct y | exact IH]. Qed.

(** A scan at a match emits the replacement and resumes after the match. *)
Lemma replaceAll_match m s x y o :
  s = x ++ y -> x <> [] ->
  m s = Some (o, List.length x) ->
  replaceAll m s = o ++ replaceAll m y.
Proof.
  intros -> Hx Hm. destruct x as [|c x]; [congruence|].
  unfold replaceAll. cbn [app replaceFrom]. cbn [app] in Hm. rewrite Hm.
  cbn [List.length pred]. now rewrite replaceFrom_skip.
Qed.

Lemma lazyUntil_found d q g b :
  ~ In d g -> oneLine g = true ->
  lazyUntil (d :: q) (g ++ (d :: q) ++ b)
  = Some (g, List.length g + List.length (d :: q)).
Proof.
  induction g as [|c g IH]; intros Hd Hl.
  - cbn [app lazyUntil]. change (d :: q ++ b) with ((d :: q) ++ b).
    now rewrite startsWith_app.
  - cbn [oneLine forallb] in Hl. apply andb_prop in Hl as [Hc Hl].
    apply negb_true_iff in Hc.
    change ((c :: g) ++ (d :: q) ++ b) with (c :: g ++ (d :: q) ++ b).
    cbn [lazyUntil].
    rewrite (startsWith_false_head d q c (g ++ (d :: q) ++ b))
      by (intros ->; apply Hd; now left).
    rewrite Hc, IH; [reflexivity | | exact Hl].
    intros Hin. apply Hd. now right.
Qed.

Lemma not_in_undelimited d g :
  isDelimiter d = true -> undelimited g = true -> ~ In d g.
Proof.
  intros Hd Hg Hin. unfold undelimited in Hg. rewrite forallb_forall in Hg.
  specialize (Hg d Hin). rewrite Hd in Hg. discriminate.
Qed.

Lemma undelimited_occurrences d g :
  isDelimiter d = true -> undelimited g = true -> occurrences d g = 0.
Proof.
  intros Hd Hg. apply occurrences_zero_not_in.
  now apply not_in_undelimited.
Qed.

Lemma strongAt_pair d g b :
  d = STAR \/ d = UNDERSCORE ->
  undelimited g = true -> oneLine g = true ->
  strongAt ([d; d] ++ g ++ [d; d] ++ b)
  = Some (strong g, List.length ([d; d] ++ g ++ [d; d])).
Proof.
  intros Hd Hg Hl. unfold strongAt, strong.
  assert (Hlazy : lazyUntil [d; d] (g ++ [d; d] ++ b)
                  = Some (g, List.length g + 2)).
  { apply lazyUntil_found; [|exact Hl]. apply not_in_undelimited; [|exact Hg].
    now destruct Hd as [->| ->]. }
  assert (Hlen : 2 + (List.length g + 2) = List.length ([d; d] ++ g ++ [d; d])).
  { rewrite !length_app. cbn [List.length]. lia. }
  rewrite <- Hlen.
  assert (Hhere : delimited [d; d] [d; d] ([d; d] ++ g ++ [d; d] ++ b)
                  = Some (g, 2 + (List.length g + 2))).
  { unfold delimited. rewrite startsWith_app.
    change (List.length [d; d]) with 2.
    change (skipn 2 ([d; d] ++ g ++ [d; d] ++ b)) with (g ++ [d; d] ++ b).
    now rewrite Hlazy. }
  destruct Hd as [->| ->].
  - now rewrite Hhere.
  - unfold delimited at 1.
    change ([UNDERSCORE; UNDERSCORE] ++ g ++ [UNDERSCORE; UNDERSCORE] ++ b)
      with (UNDERSCORE :: UNDERSCORE :: g ++ [UNDERSCORE; UNDERSCORE] ++ b)
      at 1.
    rewrite (startsWith_false_head STAR [STAR] UNDERSCORE) by discriminate.
    cbn [orElse]. now rewrite Hhere.
Qed.

Lemma literal_undelimited :
  undelimited (js "<strong>") = true /\ undelimited (js "</strong>") = true
  /\ undelimited (js "<em>") = true /\ undelimited (js "</em>") = true.
Proof. repeat split; vm_compute; reflexivity. Qed.

(** X2. Bold: a run of text between doubled stars, or doubled underscores,
    that holds no delimiter and no line terminator, standing between text
    without delimiters, becomes a [strong] element around the run; the text
    around it is kept, and the emphasis and code patterns leave the result
    alone. *)
Theorem inline_bold (d : N) (a g b : jsstring) :
  d = STAR \/ d = UNDERSCORE ->
  undelimited a = true -> undelimited g = true -> undelimited b = true ->
  oneLine g = true ->
  inline (a ++ [d; d] ++ g ++ [d; d] ++ b) = a ++ strong g ++ b.
Proof.
  intros Hd Ha Hg Hb Hl. unfold inline.
  assert (Hstrong : replaceAll strongAt (a ++ [d; d] ++ g ++ [d; d] ++ b)
                    = a ++ strong g ++ b).
  { rewrite (replaceAll_prefix strongAt a _ strongAt_driven Ha). f_equal.
    rewrite (replaceAll_match strongAt _ ([d; d] ++ g ++ [d; d]) b (strong g)).
    - now rewrite (replaceAll_undelimited strongAt b strongAt_driven Hb).
    - now rewrite <- !app_assoc.
    - discriminate.
    - now apply strongAt_pair. }
  rewrite Hstrong.
  assert (Hres : undelimited (a ++ strong g ++ b) = true).
  { destruct literal_undelimited as (H1 & H2 & _). unfold strong.
    now rewrite !undelimited_app, Ha, H1, Hg, H2, Hb. }
  rewrite (replaceAll_undelimited emAt _ emAt_driven Hres).
  apply (replaceAll_undelimited codeAt _ codeAt_driven Hres).
Qed.

Lemma inline_bold_witness :
  inline (js "take **two tablets** daily")
  = js "take " ++ strong (js "two tablets") ++ js " daily"
  /\ inline (js "__note__")
     = strong (js "note").
Proof.
  split.
  - apply (inline_bold STAR (js "take ") (js "two tablets") (js " daily"));
      [now left | reflexivity ..].
  - rewrite <- (app_nil_r (strong (js "note"))).
    apply (inline_bold UNDERSCORE [] (js "note") []);
      [now right | reflexivity ..].
Defined.

Lemma occurrences_cons_le d c r : occurrences d r <= occurrences d (c :: r).
Proof. unfold occurrences. cbn. destruct (N.eq_dec c d); lia. Qed.

Lemma occurrences_single x d : occurrences x [d] <= 1.
Proof. unfold occurrences. cbn. destruct (N.eq_dec d x); lia. Qed.

Lemma startsWith_two d s :
  startsWith [d; d] s = true -> exists r, s = d :: d :: r.
Proof.
  destruct s as [|x [|y r]]; cbn; try discriminate.
  - rewrite andb_false_r. discriminate.
  - rewrite andb_true_r. intros H. apply andb_prop in H as [Hx Hy].
    apply N.eqb_eq in Hx, Hy. subst. now exists r.
Qed.

Lemma lazyUntil_two d s x :
  lazyUntil [d; d] s = Some x -> 2 <= occurrences d s.
Proof.
  revert x. induction s as [|c r IH]; intros x; [discriminate|].
  cbn [lazyUntil]. destruct (startsWith [d; d] (c :: r)) eqn:E.
  - intros _. apply startsWith_two in E as [r' ->].
    rewrite !occurrences_head. lia.
  - destruct (isLineTerminator c); [discriminate|].
    destruct (lazyUntil [d; d] r) as [[g n]|]; [|discriminate].
    intros _. specialize (IH _ eq_refl).
    pose proof (occurrences_cons_le d c r). lia.
Qed.

Lemma delimited_four d s x :
  delimited [d; d] [d; d] s = Some x -> 4 <= occurrences d s.
Proof.
  unfold delimited. destruct (startsWith [d; d] s) eqn:E; [|discriminate].
  apply startsWith_two in E as [r' ->].
  change (skipn (List.length [d; d]) (d :: d :: r')) with r'.
  destruct (lazyUntil [d; d] r') as [y|] eqn:El; [|discriminate].
  intros _. apply lazyUntil_two in El. rewrite !occurrences_head. lia.
Qed.

(** Bold takes four delimiters of a kind. *)
Lemma strongAt_few s :
  occurrences STAR s <= 3 -> occurrences UNDERSCORE s <= 3 ->
  strongAt s = None.
Proof.
  intros Hs Hu. unfold strongAt.
  destruct (delimited [STAR; STAR] [STAR; STAR] s) as [x|] eqn:E1.
  { apply delimited_four in E1. lia. }
  destruct (delimited [UNDERSCORE; UNDERSCORE] [UNDERSCORE; UNDERSCORE] s)
    as [x|] eqn:E2; [|reflexivity].
  apply delimited_four in E2. lia.
Qed.

Lemma replaceAll_strong_few s :
  occurrences STAR s <= 3 -> occurrences UNDERSCORE s <= 3 ->
  replaceAll strongAt s = s.
Proof.
  intros Hs Hu. apply replaceAll_no_match. intros p t ->.
  apply strongAt_few; eapply occurrences_suffix; eauto.
Qed.

Lemma emAt_pair d g b :
  d = STAR \/ d = UNDERSCORE ->
  undelimited g = true -> oneLine g = true ->
  emAt ([d] ++ g ++ [d] ++ b) = Some (em g, List.length ([d] ++ g ++ [d])).
Proof.
  intros Hd Hg Hl. unfold emAt, em.
  assert (Hlazy : lazyUntil [d] (g ++ [d] ++ b)
                  = Some (g, List.length g + 1)).
  { apply lazyUntil_found; [|exact Hl]. apply not_in_undelimited; [|exact Hg].
    now destruct Hd as [->| ->]. }
  assert (Hlen : 1 + (List.length g + 1) = List.length ([d] ++ g ++ [d])).
  { rewrite !length_app. cbn [List.length]. lia. }
  rewrite <- Hlen.
  assert (Hhere : delimited [d] [d] ([d] ++ g ++ [d] ++ b)
                  = Some (g, 1 + (List.length g + 1))).
  { unfold delimited. rewrite startsWith_app.
    change (List.length [d]) with 1.
    change (skipn 1 ([d] ++ g ++ [d] ++ b)) with (g ++ [d] ++ b).
    now rewrite Hlazy. }
  destruct Hd as [->| ->].
  - now rewrite Hhere.
  - unfold delimited at 1.
    change ([UNDERSCORE] ++ g ++ [UNDERSCORE] ++ b)
      with (UNDERSCORE :: g ++ [UNDERSCORE] ++ b) at 1.
    rewrite (startsWith_false_head STAR [] UNDERSCORE) by discriminate.
    cbn [orElse]. now rewrite Hhere.
Qed.

Lemma span_occurrences x d a g b :
  undelimited a = true -> undelimited g = true -> undelimited b = true ->
  isDelimiter x = true ->
  occurrences x (a ++ [d] ++ g ++ [d] ++ b) <= 2.
Proof.
  intros Ha Hg Hb Hx. rewrite !occurrences_app.
  rewrite (undelimited_occurrences x a Hx Ha),
    (undelimited_occurrences x g Hx Hg), (undelimited_occurrences x b Hx Hb).
  pose proof (occurrences_single x d). lia.
Qed.

(** X3. Emphasis: a run of text between two stars, or two underscores,
    that holds no delimiter and no line terminator, standing between text
    without delimiters, becomes an [em] element around the run (an empty
    one for an empty run: a doubled star without a partner is taken for an
    empty emphasis). *)
Theorem inline_emphasis (d : N) (a g b : jsstring) :
  d = STAR \/ d = UNDERSCORE ->
  undelimited a = true -> undelimited g = true -> undelimited b = true ->
  oneLine g = true ->
  inline (a ++ [d] ++ g ++ [d] ++ b) = a ++ em g ++ b.
Proof.
  intros Hd Ha Hg Hb Hl. unfold inline.
  rewrite replaceAll_strong_few.
  2:{ pose proof (span_occurrences STAR d a g b Ha Hg Hb eq_refl). lia. }
  2:{ pose proof (span_occurrences UNDERSCORE d a g b Ha Hg Hb eq_refl). lia. }
  assert (Hem : replaceAll emAt (a ++ [d] ++ g ++ [d] ++ b) = a ++ em g ++ b).
  { rewrite (replaceAll_prefix emAt a _ emAt_driven Ha). f_equal.
    rewrite (replaceAll_match emAt _ ([d] ++ g ++ [d]) b (em g)).
    - now rewrite (replaceAll_undelimited emAt b emAt_driven Hb).
    - now rewrite <- !app_assoc.
    - discriminate.
    - now apply emAt_pair. }
  rewrite Hem. apply (replaceAll_undelimited codeAt _ codeAt_driven).
  destruct literal_undelimited as (_ & _ & H1 & H2). unfold em.
  now rewrite !undelimited_app, Ha, H1, Hg, H2, Hb.
Qed.

Lemma inline_emphasis_witness :
  inline (js "a *gentle* reminder") = js "a " ++ em (js "gentle") ++ js " reminder"
  /\ inline (js "**bold") = em [] ++ js "bold".
Proof.
  split.
  - apply (inline_emphasis STAR (js "a ") (js "gentle") (js " reminder"));
      [now left | reflexivity ..].
  - apply (inline_emphasis STAR [] [] (js "bold"));
      [now left | reflexivity ..].
Defined.

Lemma takeWhile_stop p g x b :
  forallb p g = true -> p x = false ->
  takeWhile p (g ++ x :: b) = g /\ dropWhile p (g ++ x :: b) = x :: b.
Proof.
  intros Hg Hx. induction g as [|c g IH]; cbn.
  - now rewrite Hx.
  - cbn in Hg. apply andb_prop in Hg as [Hc Hg]. rewrite Hc.
    destruct (IH Hg) as [-> ->]. now split.
Qed.

Lemma codeAt_pair g b :
  g <> [] -> undelimited g = true ->
  codeAt ([BACKTICK] ++ g ++ [BACKTICK] ++ b)
  = Some (code g, List.length ([BACKTICK] ++ g ++ [BACKTICK])).
Proof.
  intros Hne Hg.
  assert (Hlen : List.length ([BACKTICK] ++ g ++ [BACKTICK])
                 = S (S (List.length g))).
  { rewrite !length_app. cbn [List.length]. lia. }
  rewrite Hlen. unfold codeAt, code, CODE_OPEN.
  change ([BACKTICK] ++ g ++ [BACKTICK] ++ b)
    with (BACKTICK :: g ++ BACKTICK :: b).
  cbv beta iota. rewrite N.eqb_refl.
  assert (Hrun : forallb (fun x => negb (x =? BACKTICK)%N) g = true).
  { unfold undelimited in Hg. rewrite forallb_forall in Hg.
    apply forallb_forall. intros c Hc. specialize (Hg c Hc).
    apply negb_true_iff in Hg. apply negb_true_iff, N.eqb_neq. intros ->.
    discriminate. }
  destruct (takeWhile_stop (fun x => negb (x =? BACKTICK)%N) g BACKTICK b
              Hrun eq_refl) as [-> ->].
  destruct g as [|c g]; [congruence | reflexivity].
Qed.

(** X4. Inline code: a non-empty run of text between two backticks that
    holds no delimiter, standing between text without delimiters, becomes
    a [code] element around the run; the run may span line terminators. *)
Theorem inline_code (a g b : jsstring) :
  g <> [] ->
  undelimited a = true -> undelimited g = true -> undelimited b = true ->
  inline (a ++ [BACKTICK] ++ g ++ [BACKTICK] ++ b) = a ++ code g ++ b.
Proof.
  intros Hne Ha Hg Hb. unfold inline.
  pose proof (span_occurrences STAR BACKTICK a g b Ha Hg Hb eq_refl) as Hs.
  pose proof (span_occurrences UNDERSCORE BACKTICK a g b Ha Hg Hb eq_refl)
    as Hu.
  assert (Hs0 : occurrences STAR (a ++ [BACKTICK] ++ g ++ [BACKTICK] ++ b) = 0).
  { rewrite !occurrences_app.
    now rewrite (undelimited_occurrences STAR a eq_refl Ha),
      (undelimited_occurrences STAR g eq_refl Hg),
      (undelimited_occurrences STAR b eq_refl Hb). }
  assert (Hu0 : occurrences UNDERSCORE
                  (a ++ [BACKTICK] ++ g ++ [BACKTICK] ++ b) = 0).
  { rewrite !occurrences_app.
    now rewrite (undelimited_occurrences UNDERSCORE a eq_refl Ha),
      (undelimited_occurrences UNDERSCORE g eq_refl Hg),
      (undelimited_occurrences UNDERSCORE b eq_refl Hb). }
  rewrite replaceAll_strong_few by lia.
  rewrite (replaceAll_no_match emAt).
  2:{ intros p t E. apply emAt_lone.
      - apply (occurrences_suffix STAR p t 1). rewrite <- E. lia.
      - apply (occurrences_suffix UNDERSCORE p t 1). rewrite <- E. lia. }
  rewrite (replaceAll_prefix codeAt a _ codeAt_driven Ha). f_equal.
  rewrite (replaceAll_match codeAt _ ([BACKTICK] ++ g ++ [BACKTICK]) b (code g)).
  - now rewrite (replaceAll_undelimited codeAt b codeAt_driven Hb).
  - now rewrite <- !app_assoc.
  - discriminate.
  - now apply codeAt_pair.
Qed.

Lemma inline_code_witness :
  inline (js "run `npm test` now") = js "run " ++ code (js "npm test") ++ js " now".
Proof.
  apply (inline_code (js "run ") (js "npm test") (js " now"));
    [vm_compute; discriminate | reflexivity ..].
Defined.

(** ** Blank lines and paragraphs *)

Lemma whitespace_not_delimiter c :
  isWhiteSpace c = true -> isDelimiter c = false.
Proof.
  intros Hws. unfold isDelimiter.
  destruct (c =? STAR)%N eqn:E1;
    [apply N.eqb_eq in E1; subst; discriminate|].
  destruct (c =? UNDERSCORE)%N eqn:E2;
    [apply N.eqb_eq in E2; subst; discriminate|].
  destruct (c =? BACKTICK)%N eqn:E3;
    [apply N.eqb_eq in E3; subst; discriminate|].
  reflexivity.
Qed.

Lemma blank_undelimited l : blankLine l = true -> undelimited l = true.
Proof.
  unfold blankLine, undelimited. rewrite !forallb_forall.
  intros H c Hc. apply negb_true_iff, whitespace_not_delimiter. now apply H.
Qed.

Lemma blank_no_prefix l x p :
  blankLine l = true -> isWhiteSpace x = false ->
  startsWith (x :: p) l = false.
Proof.
  intros Hl Hx. destruct l as [|c r]; [reflexivity|].
  apply startsWith_false_head. intros ->.
  cbn in Hl. apply andb_prop in Hl as [Hc _]. congruence.
Qed.

(** A blank line closes the open list and the open paragraph. *)
Lemma renderLine_blank st l :
  blankLine l = true -> renderLine st l = flushPara (flushList st).
Proof.
  intros Hl. unfold renderLine.
  change (js "# ") with (35%N :: [32%N]).
  change (js "## ") with (35%N :: [35%N; 32%N]).
  rewrite !(blank_no_prefix l 35%N) by (assumption || reflexivity).
  rewrite (inline_plain l (blank_undelimited l Hl)).
  unfold isOl, isUl, trim. rewrite (dropWhile_all isWhiteSpace l Hl).
  reflexivity.
Qed.

Lemma split_lines_app_lf x y :
  split_lines (x ++ LF :: y) = split_lines x ++ split_lines y.
Proof.
  induction x as [|c x IH]; [reflexivity|].
  cbn [app split_lines]. rewrite IH.
  destruct (c =? LF)%N; [reflexivity|].
  pose proof (split_lines_nonempty x) as Hne.
  destruct (split_lines x) as [|l ls]; [congruence | reflexivity].
Qed.

Lemma accumulate_plain ls :
  ls <> [] -> forallb plainLine ls = true ->
  accumulate [] ls = join BR ls /\ truthy (join BR ls) = true.
Proof.
  intros Hne Hall. destruct ls as [|l ls]; [congruence|].
  cbn [forallb] in Hall. apply andb_prop in Hall as [Hl _].
  apply plainLine_truthy in Hl. cbn [accumulate truthy app].
  split; [now apply accumulate_join | now apply truthy_join_cons].
Qed.

Lemma flushPara_truthy o t buffer :
  truthy buffer = true ->
  flushPara (mkRender o t buffer) = mkRender (o ++ paragraph buffer) t [].
Proof. intros H. unfold flushPara, paragraph. cbn. now rewrite H. Qed.

(** X5. A blank line (white space only, the empty line among them)
    between two plain texts closes the paragraph: the texts are rendered
    as two paragraph containers, one after the other. *)
Theorem blank_line_separates_paragraphs (tA b tB : jsstring) :
  plainText tA = true -> plainText tB = true ->
  blankLine b = true -> ~ In LF b ->
  renderMarkdown (tA ++ [LF] ++ b ++ [LF] ++ tB)
  = renderMarkdown tA ++ renderMarkdown tB
  /\ renderMarkdown (tA ++ [LF] ++ b ++ [LF] ++ tB)
     = paragraph (join BR (split_lines tA))
         ++ paragraph (join BR (split_lines tB)).
Proof.
  intros HA HB Hb Hlf.
  rewrite (renderMarkdown_plain tA HA), (renderMarkdown_plain tB HB).
  assert (Hgoal : renderMarkdown (tA ++ [LF] ++ b ++ [LF] ++ tB)
                  = paragraph (join BR (split_lines tA))
                      ++ paragraph (join BR (split_lines tB))).
  { unfold renderMarkdown.
    replace (truthy (tA ++ [LF] ++ b ++ [LF] ++ tB)) with true
      by (apply plainText_truthy in HA; destruct tA;
          [discriminate | reflexivity]).
    cbn [negb app].
    rewrite split_lines_app_lf, split_lines_app_lf,
      (split_lines_single b Hlf).
    rewrite !fold_left_app. unfold renderInit.
    unfold plainText in HA, HB.
    rewrite (fold_plain _ [] [] HA).
    destruct (accumulate_plain _ (split_lines_nonempty tA) HA) as [-> HtA].
    cbn [fold_left]. rewrite (renderLine_blank _ b Hb).
    cbn [flushList listType]. rewrite (flushPara_truthy _ _ _ HtA).
    rewrite (fold_plain _ _ [] HB).
    destruct (accumulate_plain _ (split_lines_nonempty tB) HB) as [-> HtB].
    rewrite (flushPara_truthy _ _ _ HtB). cbn [flushList listType out app].
    reflexivity. }
  split; exact Hgoal.
Qed.

Lemma blank_line_separates_paragraphs_witness :
  renderMarkdown (js "first" ++ [LF] ++ js "lines" ++ [LF] ++ [] ++ [LF]
                  ++ js "second")
  = paragraph (js "first<br/>lines") ++ paragraph (js "second").
Proof.
  pose proof (blank_line_separates_paragraphs
                (js "first" ++ [LF] ++ js "lines") [] (js "second")
                eq_refl eq_refl eq_refl (fun H => H)) as [_ H].
  rewrite <- !app_assoc in H. exact H.
Defined.

(** ** One open block, and the trailing line feed *)

Lemma flushPara_buffer st : paraBuffer (flushPara st) = [].
Proof. unfold flushPara. destruct st as [o t [|c b]]; reflexivity. Qed.

Lemma openList_buffer t st : paraBuffer (openList t st) = paraBuffer st.
Proof.
  unfold openList, flushList.
  destruct (isType t (listType st)); [reflexivity|].
  destruct (listType st); reflexivity.
Qed.

Lemma flushList_type st : listType (flushList st) = None.
Proof. unfold flushList. destruct (listType st) eqn:E; [reflexivity | exact E]. Qed.

Lemma flushPara_type st : listType (flushPara st) = listType st.
Proof. unfold flushPara. destruct (truthy (paraBuffer st)); reflexivity. Qed.

Lemma renderLine_one_open st l : oneOpenBlock (renderLine st l).
Proof.
  unfold renderLine, oneOpenBlock.
  destruct (startsWith (js "# ") l).
  { left. cbn [emit listType]. apply flushList_type. }
  destruct (startsWith (js "## ") l).
  { left. cbn [emit listType]. apply flushList_type. }
  destruct (isOl (inline l)) as [item|].
  { right. cbn [emit paraBuffer]. rewrite openList_buffer.
    apply flushPara_buffer. }
  destruct (isUl (inline l)) as [item|].
  { right. cbn [emit paraBuffer]. rewrite openList_buffer.
    apply flushPara_buffer. }
  left. destruct (jseqb (trim (inline l)) []).
  - rewrite flushPara_type. apply flushList_type.
  - cbn [listType]. apply flushList_type.
Qed.

Lemma fold_one_open ls : oneOpenBlock (fold_left renderLine ls renderInit).
Proof.
  destruct ls as [|l ls] using rev_ind; [now left|].
  rewrite fold_left_app. apply renderLine_one_open.
Qed.

Lemma flush_twice st :
  oneOpenBlock st ->
  out (flushList (flushPara (flushPara (flushList st))))
  = out (flushList (flushPara st)).
Proof.
  unfold oneOpenBlock, flushList, flushPara.
  destruct st as [o [t|] [|c b]]; cbn; intros [H|H];
    try discriminate; reflexivity.
Qed.

Lemma split_lines_trailing t : split_lines (t ++ [LF]) = split_lines t ++ [[]].
Proof. apply (split_lines_app_lf t []). Qed.

(** X6. The renderer never holds an open paragraph and an open list at
    once, and a line feed at the end of a text does not change its
    markup. *)
Theorem trailing_line_feed_ignored :
  (forall st l, oneOpenBlock (renderLine st l))
  /\ (forall t, renderMarkdown (t ++ [LF]) = renderMarkdown t).
Proof.
  split; [exact renderLine_one_open|].
  intros t. destruct t as [|c r]; [reflexivity|].
  unfold renderMarkdown. cbn [app truthy negb].
  change (c :: r ++ [LF]) with ((c :: r) ++ [LF]).
  rewrite split_lines_trailing, fold_left_app. cbn [fold_left].
  rewrite (renderLine_blank _ [] eq_refl).
  apply flush_twice, fold_one_open.
Qed.

(** ** Markup is only ever appended *)

Lemma continues_refl a : continues a a.
Proof. exists []. now rewrite app_nil_r. Qed.

Lemma continues_trans a b c : continues a b -> continues b c -> continues a c.
Proof. intros [s ->] [u ->]. exists (s ++ u). now rewrite app_assoc. Qed.

Lemma continues_app a s : continues a (a ++ s).
Proof. now exists s. Qed.

Lemma flushPara_continues st : continues (out st) (out (flushPara st)).
Proof.
  unfold flushPara. destruct (truthy (paraBuffer st));
    [apply continues_app | apply continues_refl].
Qed.

Lemma flushList_continues st : continues (out st) (out (flushList st)).
Proof.
  unfold flushList. destruct (listType st);
    [apply continues_app | apply continues_refl].
Qed.

Lemma openList_continues t st : continues (out st) (out (openList t st)).
Proof.
  unfold openList. destruct (isType t (listType st)); [apply continues_refl|].
  eapply continues_trans; [apply flushList_continues | apply continues_app].
Qed.

Lemma renderLine_continues st l : continues (out st) (out (renderLine st l)).
Proof.
  assert (Hflush : continues (out st) (out (flushList (flushPara st)))).
  { eapply continues_trans;
      [apply flushPara_continues | apply flushList_continues]. }
  assert (Hopen : forall t,
            continues (out st) (out (openList t (flushPara st)))).
  { intros t. eapply continues_trans;
      [apply flushPara_continues | apply openList_continues]. }
  unfold renderLine.
  destruct (startsWith (js "# ") l).
  { eapply continues_trans; [exact Hflush | apply continues_app]. }
  destruct (startsWith (js "## ") l).
  { eapply continues_trans; [exact Hflush | apply continues_app]. }
  destruct (isOl (inline l)) as [item|].
  { eapply continues_trans; [apply Hopen | apply continues_app]. }
  destruct (isUl (inline l)) as [item|].
  { eapply continues_trans; [apply Hopen | apply continues_app]. }
  destruct (jseqb (trim (inline l)) []).
  - eapply continues_trans;
      [apply flushList_continues | apply flushPara_continues].
  - apply flushList_continues.
Qed.

Lemma fold_continues ls : forall st,
  continues (out st) (out (fold_left renderLine ls st)).
Proof.
  induction ls as [|l ls IH]; intros st; [apply continues_refl|].
  cbn [fold_left]. eapply continues_trans; [apply renderLine_continues|].
  apply IH.
Qed.

(** X7. Markup once emitted is never revised: what has been emitted after
    the first lines of a text is the beginning of the markup of the whole
    text. *)
Theorem emitted_markup_is_kept (text : jsstring) (ls1 ls2 : list jsstring) :
  truthy text = true ->
  split_lines text = ls1 ++ ls2 ->
  continues (out (fold_left renderLine ls1 renderInit)) (renderMarkdown text).
Proof.
  intros Htr Hsplit. unfold renderMarkdown. rewrite Htr. cbn [negb].
  rewrite Hsplit, fold_left_app.
  eapply continues_trans; [apply fold_continues|].
  eapply continues_trans;
    [apply flushPara_continues | apply flushList_continues].
Qed.

Lemma emitted_markup_is_kept_witness :
  out (fold_left renderLine [js "# Hours"] renderInit)
  = H1_OPEN ++ js "Hours" ++ H1_CLOSE
  /\ continues (out (fold_left renderLine [js "# Hours"] renderInit))
       (renderMarkdown
          (js "# Hours" ++ [LF] ++ js "- Mon" ++ [LF] ++ js "- Tue")).
Proof.
  split; [vm_compute; reflexivity|].
  apply (emitted_markup_is_kept
           (js "# Hours" ++ [LF] ++ js "- Mon" ++ [LF] ++ js "- Tue")
           [js "# Hours"] [js "- Mon"; js "- Tue"]);
    vm_compute; reflexivity.
Defined.

(** ** List blocks *)

Lemma isType_same t : isType t (Some t) = true.
Proof. now destruct t. Qed.

Lemma close_tag t : js "</" ++ tagName t ++ js ">" = closeOf t.
Proof. destruct t; vm_compute; reflexivity. Qed.

Lemma openList_init t o :
  openList t (mkRender o None []) = mkRender (o ++ openOf t) (Some t) [].
Proof.
  destruct t; unfold openList, openOf, UL_OPEN, OL_OPEN, flushList;
    cbn [isType listType out paraBuffer]; reflexivity.
Qed.

Lemma list_item_step t l item o :
  listLine t l item ->
  renderLine (mkRender o (Some t) []) l
  = mkRender (o ++ itemOf t item) (Some t) [].
Proof.
  intros H. rewrite H. unfold flushPara, openList, emit.
  cbn [paraBuffer truthy listType]. rewrite isType_same. reflexivity.
Qed.

Lemma list_block_fold t lines items :
  Forall2 (listLine t) lines items ->
  forall o,
    fold_left renderLine lines (mkRender o (Some t) [])
    = mkRender (o ++ List.concat (map (itemOf t) items)) (Some t) [].
Proof.
  induction 1 as [|l item lines items Hl _ IH]; intros o.
  - cbn [fold_left map List.concat]. now rewrite app_nil_r.
  - cbn [fold_left map List.concat]. rewrite (list_item_step t l item o Hl), IH.
    now rewrite app_assoc.
Qed.

(** Lines taken for items of one list type, first to last, make one list
    block. *)
Lemma list_block t lines items :
  lines <> [] ->
  Forall2 (listLine t) lines items ->
  renderLines lines = openOf t ++ List.concat (map (itemOf t) items) ++ closeOf t.
Proof.
  intros Hne Hall. destruct Hall as [|l item lines items Hl Hall];
    [congruence|].
  unfold renderLines, renderInit. cbn [fold_left].
  rewrite Hl. unfold flushPara at 2. cbn [paraBuffer truthy].
  rewrite openList_init. unfold emit. cbn [out listType paraBuffer app].
  rewrite (list_block_fold t lines items Hall).
  unfold flushPara, flushList. cbn [paraBuffer truthy listType out].
  rewrite close_tag. cbn [map List.concat]. now rewrite <- !app_assoc.
Qed.

Lemma renderMarkdown_lines text :
  truthy text = true -> renderMarkdown text = renderLines (split_lines text).
Proof. intros H. unfold renderMarkdown, renderLines. now rewrite H. Qed.

Lemma split_lines_head_truthy text l ls :
  split_lines text = l :: ls -> l <> [] -> truthy text = true.
Proof.
  intros H Hl. destruct text as [|c r]; [|reflexivity].
  cbn in H. congruence.
Qed.

Lemma takeWhile_all p g : forallb p g = true -> takeWhile p g = g.
Proof.
  induction g as [|c g IH]; [reflexivity|]. cbn. intros H.
  apply andb_prop in H as [-> H]. now rewrite IH.
Qed.

Lemma restOfLine_oneLine item : oneLine item = true -> restOfLine item = item.
Proof. apply takeWhile_all. Qed.

Lemma no_hash_head l :
  (forall c r, l = c :: r -> c <> 35%N) ->
  startsWith (js "# ") l = false /\ startsWith (js "## ") l = false.
Proof.
  intros H. destruct l as [|c r]; [now split|].
  assert (Hc : 35%N <> c) by (intros E; now apply (H c r eq_refl)).
  change (js "# ") with (35%N :: [32%N]).
  change (js "## ") with (35%N :: [35%N; 32%N]).
  split; now apply startsWith_false_head.
Qed.

Lemma indent_head indent x rest :
  blankLine indent = true -> x <> 35%N ->
  forall c r, indent ++ x :: rest = c :: r -> c <> 35%N.
Proof.
  intros Hi Hx c r E. destruct indent as [|i indent].
  - cbn in E. congruence.
  - cbn in E. injection E as <- _. cbn in Hi.
    apply andb_prop in Hi as [Hi _]. intros ->. discriminate.
Qed.

Lemma dropWhile_indent indent x rest :
  blankLine indent = true -> isWhiteSpace x = false ->
  dropWhile isWhiteSpace (indent ++ x :: rest) = x :: rest.
Proof. intros Hi Hx. now apply (takeWhile_stop isWhiteSpace). Qed.

Lemma undelimited_cons c s :
  undelimited (c :: s) = negb (isDelimiter c) && undelimited s.
Proof. reflexivity. Qed.

(** A bullet line is taken for an item of an unordered list. *)
Lemma bullet_line l item :
  bulletLine l item -> plainItem item -> listLine ul l item.
Proof.
  intros (indent & b & w & -> & Hi & Hb & Hw) [Hu Ho] st.
  assert (Hbw : isWhiteSpace b = false /\ isDigit b = false
                /\ b <> 35%N
                /\ ((b =? STAR)%N || (b =? HYPHEN)%N) = true).
  { destruct Hb as [-> | ->]; repeat split; discriminate. }
  destruct Hbw as (Hbs & Hbd & Hbh & Hbb).
  destruct (no_hash_head (indent ++ b :: w :: item)
              (indent_head indent b _ Hi Hbh)) as [H1 H2].
  assert (Hin : inline (indent ++ b :: w :: item)
                = indent ++ b :: w :: item).
  { assert (Hd : forall d, isDelimiter d = true ->
               occurrences d (indent ++ b :: w :: item) <= 1).
    { intros d Hd. change (b :: w :: item) with ([b] ++ w :: item).
      rewrite !occurrences_app.
      rewrite (undelimited_occurrences d indent Hd (blank_undelimited _ Hi)).
      rewrite (undelimited_occurrences d (w :: item) Hd).
      - pose proof (occurrences_single d b). lia.
      - rewrite undelimited_cons, (whitespace_not_delimiter w Hw).
        exact Hu. }
    apply inline_lone; apply Hd; reflexivity. }
  unfold renderLine. rewrite H1, H2, Hin.
  unfold isOl, isUl. rewrite (dropWhile_indent indent b _ Hi Hbs).
  cbn [takeWhile]. rewrite Hbd, Hbb, Hw. cbn [andb].
  rewrite (restOfLine_oneLine item Ho).
  unfold itemOf, bulletItem, BULLET_OPEN, BULLET_CLOSE. reflexivity.
Qed.

Lemma digit_facts c :
  isDigit c = true ->
  isWhiteSpace c = false /\ isDelimiter c = false /\ c <> 35%N.
Proof.
  unfold isDigit. rewrite andb_true_iff, !N.leb_le. intros [Hlo Hhi].
  repeat split.
  - apply not_true_iff_false. unfold isWhiteSpace.
    rewrite !orb_true_iff, !andb_true_iff, !N.leb_le, !N.eqb_eq. lia.
  - apply not_true_iff_false. unfold isDelimiter, STAR, UNDERSCORE, BACKTICK.
    rewrite !orb_true_iff, !N.eqb_eq. lia.
  - lia.
Qed.

Lemma digits_undelimited ds : forallb isDigit ds = true -> undelimited ds = true.
Proof.
  unfold undelimited. rewrite !forallb_forall. intros H c Hc.
  apply negb_true_iff. now apply digit_facts, H.
Qed.

(** A numbered line is taken for an item of an ordered list. *)
Lemma number_line l item :
  numberLine l item -> plainItem item -> listLine ol l item.
Proof.
  intros (indent & ds & w & -> & Hi & Hne & Hds & Hw) [Hu Ho] st.
  destruct ds as [|d ds]; [congruence|]. clear Hne.
  assert (Hd : isDigit d = true)
    by (cbn in Hds; now apply andb_prop in Hds as [? _]).
  destruct (digit_facts d Hd) as (Hdw & _ & Hdh).
  change (indent ++ (d :: ds) ++ DOT :: w :: item)
    with (indent ++ d :: (ds ++ DOT :: w :: item)).
  destruct (no_hash_head (indent ++ d :: (ds ++ DOT :: w :: item))
              (indent_head indent d _ Hi Hdh)) as [H1 H2].
  assert (Hin : inline (indent ++ d :: (ds ++ DOT :: w :: item))
                = indent ++ d :: (ds ++ DOT :: w :: item)).
  { apply inline_plain. fold (undelimited (indent ++ d :: ds ++ DOT :: w :: item)).
    change (d :: ds ++ DOT :: w :: item)
      with ((d :: ds) ++ [DOT] ++ w :: item).
    rewrite !undelimited_app, (blank_undelimited _ Hi),
      (digits_undelimited _ Hds), (undelimited_cons w item),
      (whitespace_not_delimiter w Hw), Hu. reflexivity. }
  unfold renderLine. rewrite H1, H2, Hin.
  unfold isOl. rewrite (dropWhile_indent indent d _ Hi Hdw).
  change (d :: ds ++ DOT :: w :: item) with ((d :: ds) ++ DOT :: w :: item).
  destruct (takeWhile_stop isDigit (d :: ds) DOT (w :: item) Hds eq_refl)
    as [-> ->].
  rewrite N.eqb_refl, Hw. cbn [andb].
  rewrite (restOfLine_oneLine item Ho).
  unfold itemOf, numberedItem. reflexivity.
Qed.

Lemma Forall2_listLine (R : jsstring -> jsstring -> Prop) t lines items :
  (forall l item, R l item -> plainItem item -> listLine t l item) ->
  Forall2 R lines items -> Forall plainItem items ->
  Forall2 (listLine t) lines items.
Proof.
  intros HR Hall. induction Hall as [|l item lines items Hl _ IH];
    intros Hitems; [constructor|].
  inversion Hitems; subst. constructor; [now apply HR | now apply IH].
Qed.

Lemma bulletLine_nonempty l item : bulletLine l item -> l <> [].
Proof. intros (indent & b & w & -> & _). now destruct indent. Qed.

Lemma numberLine_nonempty l item : numberLine l item -> l <> [].
Proof.
  intros (indent & ds & w & -> & _ & Hne & _).
  destruct indent; [destruct ds; [congruence | discriminate] | discriminate].
Qed.

Lemma itemOf_ul item : itemOf ul item = bulletItem item.
Proof. reflexivity. Qed.

Lemma itemOf_ol item : itemOf ol item = numberedItem item.
Proof. reflexivity. Qed.

Lemma openOf_ul : openOf ul = UL_OPEN.
Proof. reflexivity. Qed.

Lemma openOf_ol : openOf ol = OL_OPEN.
Proof. reflexivity. Qed.

Lemma closeOf_ul : closeOf ul = UL_CLOSE.
Proof. reflexivity. Qed.

Lemma closeOf_ol : closeOf ol = OL_CLOSE.
Proof. reflexivity. Qed.

Lemma list_block_ul lines items :
  lines <> [] -> Forall2 (listLine ul) lines items ->
  renderLines lines
  = UL_OPEN ++ List.concat (map bulletItem items) ++ UL_CLOSE.
Proof.
  intros Hne Hall. rewrite (list_block ul lines items Hne Hall).
  rewrite (map_ext (itemOf ul) bulletItem itemOf_ul).
  rewrite openOf_ul, closeOf_ul. apply eq_refl.
Qed.

Lemma list_block_ol lines items :
  lines <> [] -> Forall2 (listLine ol) lines items ->
  renderLines lines
  = OL_OPEN ++ List.concat (map numberedItem items) ++ OL_CLOSE.
Proof.
  intros Hne Hall. rewrite (list_block ol lines items Hne Hall).
  rewrite (map_ext (itemOf ol) numberedItem itemOf_ol).
  rewrite openOf_ol, closeOf_ol. apply eq_refl.
Qed.

(** X8. A text whose lines are all bullet lines (a star or a hyphen,
    indented or not) is rendered as one unordered list: the list is
    opened once, every line gives one item in order, and the list is
    closed at the end. *)
Theorem bullet_lines_one_list (text : jsstring) (items : list jsstring) :
  Forall2 bulletLine (split_lines text) items ->
  Forall plainItem items ->
  renderMarkdown text = UL_OPEN ++ List.concat (map bulletItem items) ++ UL_CLOSE.
Proof.
  intros Hlines Hitems.
  assert (Htr : truthy text = true).
  { remember (split_lines text) as lines eqn:E.
    destruct Hlines as [|l item ls its Hl Hrest].
    - now destruct (split_lines_nonempty text).
    - symmetry in E. apply (split_lines_head_truthy text l ls E).
      now apply (bulletLine_nonempty l item). }
  rewrite (renderMarkdown_lines text Htr).
  apply (list_block_ul (split_lines text) items (split_lines_nonempty text)).
  now apply (Forall2_listLine bulletLine ul _ _ bullet_line).
Qed.

Lemma bullet_lines_one_list_witness :
  renderMarkdown (js "- Mon" ++ [LF] ++ js "  * Tue")
  = UL_OPEN ++ List.concat (map bulletItem [js "Mon"; js "Tue"]) ++ UL_CLOSE.
Proof.
  apply (bullet_lines_one_list (js "- Mon" ++ [LF] ++ js "  * Tue")
           [js "Mon"; js "Tue"]).
  - replace (split_lines (js "- Mon" ++ [LF] ++ js "  * Tue"))
      with [js "- Mon"; js "  * Tue"] by (vm_compute; reflexivity).
    constructor; [|constructor; [|constructor]].
    + exists [], HYPHEN, 32%N. repeat split; try reflexivity. now right.
    + exists (js "  "), STAR, 32%N. repeat split; try reflexivity. now left.
  - repeat constructor.
Defined.

(** X9. A text whose lines are all numbered lines is rendered as one
    ordered list; the numbers written in the text are dropped from the
    items. *)
Theorem numbered_lines_one_list (text : jsstring) (items : list jsstring) :
  Forall2 numberLine (split_lines text) items ->
  Forall plainItem items ->
  renderMarkdown text
  = OL_OPEN ++ List.concat (map numberedItem items) ++ OL_CLOSE.
Proof.
  intros Hlines Hitems.
  assert (Htr : truthy text = true).
  { remember (split_lines text) as lines eqn:E.
    destruct Hlines as [|l item ls its Hl Hrest].
    - now destruct (split_lines_nonempty text).
    - symmetry in E. apply (split_lines_head_truthy text l ls E).
      now apply (numberLine_nonempty l item). }
  rewrite (renderMarkdown_lines text Htr).
  apply (list_block_ol (split_lines text) items (split_lines_nonempty text)).
  now apply (Forall2_listLine numberLine ol _ _ number_line).
Qed.

Lemma numbered_lines_one_list_witness :
  renderMarkdown (js "7. Call" ++ [LF] ++ js "12. Visit")
  = OL_OPEN ++ List.concat (map numberedItem [js "Call"; js "Visit"]) ++ OL_CLOSE.
Proof.
  apply (numbered_lines_one_list (js "7. Call" ++ [LF] ++ js "12. Visit")
           [js "Call"; js "Visit"]).
  - replace (split_lines (js "7. Call" ++ [LF] ++ js "12. Visit"))
      with [js "7. Call"; js "12. Visit"] by (vm_compute; reflexivity).
    constructor; [|constructor; [|constructor]].
    + exists [], (js "7"), 32%N. repeat split; try reflexivity. discriminate.
    + exists [], (js "12"), 32%N. repeat split; try reflexivity. discriminate.
  - repeat constructor.
Defined.

(* ===================================================================== *)
(** * Further properties of the gateway service                            *)
(* ===================================================================== *)

(** X10. Before [initialize] has built the client, the functions of the
    service that create a store, upload to it and delete it throw the
    initialisation error and do nothing else; [initialize] sets the
    client unless building it throws, and then changes nothing. *)
Theorem service_requires_client (e : Env) (w : World) :
  ai w = false ->
  (forall displayName,
     createRagStore displayName e w = (Throw NOT_INITIALIZED, w))
  /\ (forall store f,
        uploadToRagStore store f e w = (Throw NOT_INITIALIZED, w))
  /\ (forall store, deleteRagStore store e w = (Throw NOT_INITIALIZED, w))
  /\ initialize e w
     = match new_client e with
       | Some err => (Throw err, w)
       | None => (Ok tt, Build_World true (state w) (trace w))
       end.
Proof.
  intros Hai. unfold NOT_INITIALIZED. repeat split.
  - intros displayName. unfold createRagStore.
    now rewrite (bind_throw _ _ _ _ _ _ (requireAi_unset e w Hai)).
  - intros store f. unfold uploadToRagStore.
    now rewrite (bind_throw _ _ _ _ _ _ (requireAi_unset e w Hai)).
  - intros store. unfold deleteRagStore.
    now rewrite (bind_throw _ _ _ _ _ _ (requireAi_unset e w Hai)).
  - unfold initialize, bind, env. now destruct (new_client e).
Qed.

Lemma service_requires_client_witness :
  createRagStore (js "clinic") goodEnv initialWorld
  = (Throw NOT_INITIALIZED, initialWorld)
  /\ ai (snd (initialize goodEnv initialWorld)) = true.
Proof.
  destruct (service_requires_client goodEnv initialWorld eq_refl)
    as (Hcreate & _ & _ & Hinit).
  split; [apply Hcreate | now rewrite Hinit].
Defined.

(** X11. [createRagStore] calls the gateway once and leaves the component
    state alone; it returns a name exactly when the gateway answers with
    a non-empty name, throws the missing-name error when the name is
    absent or empty, and lets the error of the gateway through. *)
Theorem createRagStore_named_store (displayName : jsstring)
  (e : Env) (w : World) :
  ai w = true ->
  snd (createRagStore displayName e w) = after w [EvCreate displayName]
  /\ (forall n,
        fst (createRagStore displayName e w) = Ok n
        <-> stores_create e displayName = Ok (Some n) /\ n <> [])
  /\ (stores_create e displayName = Ok None
      \/ stores_create e displayName = Ok (Some []) ->
      fst (createRagStore displayName e w) = Throw NAME_MISSING)
  /\ (forall err,
        stores_create e displayName = Throw err ->
        fst (createRagStore displayName e w) = Throw err).
Proof.
  intros Hai. rewrite (createRagStore_run displayName e w Hai).
  cbn [fst snd]. split; [reflexivity|]. split; [|split].
  - intros n. split.
    + intros Hn. apply createOutcome_truthy in Hn as [Htr Hn].
      split; [exact Hn | now apply truthy_not_nil].
    + intros [-> Hne]. unfold createOutcome.
      destruct n as [|c r]; [congruence | reflexivity].
  - intros [-> | ->]; reflexivity.
  - intros err ->. reflexivity.
Qed.

Lemma createRagStore_named_store_witness :
  fst (createRagStore (js "clinic") goodEnv boundWorld) = Ok STORE.
Proof.
  apply (createRagStore_named_store (js "clinic") goodEnv boundWorld).
  - vm_compute; reflexivity.
  - split; [reflexivity | vm_compute; discriminate].
Defined.

Lemma pollEvents_snoc k :
  pollEvents k ++ [EvDelay 3000; EvOperationsGet] = pollEvents (S k).
Proof.
  induction k as [|k IH]; [reflexivity|].
  cbn [pollEvents app]. now rewrite IH.
Qed.

Lemma getsOf_pollEvents k : getsOf (pollEvents k) = k.
Proof. induction k as [|k IH]; [reflexivity|]. cbn. now rewrite IH. Qed.

Lemma uploadToRagStore_outcome store f e w :
  ai w = true ->
  uploadToRagStore store f e w
  = match stores_upload e store f with
    | UploadRejects err => (Throw err, after w [EvUpload store f])
    | UploadDone k => (Ok tt, after w (EvUpload store f :: pollEvents k))
    | UploadPollFails k err =>
        (Throw err, after w (EvUpload store f :: pollEvents (S k)))
    end.
Proof.
  intros Hai. unfold uploadToRagStore.
  rewrite (bind_ok _ _ _ _ _ _ (requireAi_set e w Hai)).
  rewrite (bind_ok _ _ _ _ _ _ (emitEvent_run _ e w)).
  unfold bind at 1. unfold env at 1.
  destruct (stores_upload e store f) as [err|polls|polls err].
  - reflexivity.
  - now rewrite pollUntilDone_run, after_after.
  - rewrite pollUntilDone_run. unfold bind, delay.
    rewrite !emitEvent_run, !after_after. cbn [app].
    change (pollEvents polls ++ [EvDelay 3000] ++ [EvOperationsGet])
      with (pollEvents polls ++ [EvDelay 3000; EvOperationsGet]).
    now rewrite pollEvents_snoc.
Qed.

(** X12. An upload hands the file to the gateway once and then polls the
    operation: every poll comes after a wait of three seconds, the polls
    are as many as the operation needs to be done (one more when a poll
    fails), nothing else is called, and the component state is not
    touched. *)
Theorem uploadToRagStore_polls (store : jsstring) (f : File)
  (e : Env) (w : World) :
  ai w = true ->
  exists t,
    snd (uploadToRagStore store f e w) = after w (EvUpload store f :: t)
    /\ t = pollEvents (getsOf t)
    /\ match stores_upload e store f with
       | UploadRejects err =>
           fst (uploadToRagStore store f e w) = Throw err /\ getsOf t = 0
       | UploadDone k =>
           fst (uploadToRagStore store f e w) = Ok tt /\ getsOf t = k
       | UploadPollFails k err =>
           fst (uploadToRagStore store f e w) = Throw err /\ getsOf t = S k
       end.
Proof.
  intros Hai. rewrite (uploadToRagStore_outcome store f e w Hai).
  destruct (stores_upload e store f) as [err|k|k err]; cbn [fst snd].
  - exists []. repeat split.
  - exists (pollEvents k). rewrite getsOf_pollEvents. repeat split.
  - exists (pollEvents (S k)). rewrite getsOf_pollEvents. repeat split.
Qed.

Lemma uploadToRagStore_polls_witness :
  exists t,
    snd (uploadToRagStore STORE fileA goodEnv boundWorld)
    = after boundWorld (EvUpload STORE fileA :: t)
    /\ t = [EvDelay 3000; EvOperationsGet].
Proof.
  destruct (uploadToRagStore_polls STORE fileA goodEnv boundWorld)
    as (t & Hsnd & Ht & _ & Hk); [vm_compute; reflexivity|].
  exists t. split; [exact Hsnd|]. rewrite Ht, Hk. reflexivity.
Defined.

(** ** The fenced block of the suggested questions *)

Lemma startsWith_fence_open c r :
  c <> BACKTICK -> startsWith FENCE_OPEN (c :: r) = false.
Proof.
  intros Hc. change FENCE_OPEN with (BACKTICK :: tl FENCE_OPEN).
  apply startsWith_false_head. congruence.
Qed.

Lemma startsWith_fence_close g rest :
  ~ In BACKTICK g -> g <> [] ->
  startsWith FENCE_CLOSE (g ++ FENCE_CLOSE ++ rest) = false.
Proof.
  intros Hg Hne. destruct g as [|c g]; [congruence|].
  change FENCE_CLOSE with (LF :: BACKTICK :: [BACKTICK; BACKTICK]).
  cbn [app startsWith]. destruct (LF =? c)%N; [|reflexivity].
  destruct g as [|c' g]; [reflexivity|].
  cbn [app]. destruct (BACKTICK =? c')%N eqn:E; [|reflexivity].
  apply N.eqb_eq in E. subst c'. exfalso. apply Hg. right. now left.
Qed.

Lemma lazyAnyUntil_fence g rest :
  ~ In BACKTICK g ->
  lazyAnyUntil FENCE_CLOSE (g ++ FENCE_CLOSE ++ rest) = Some g.
Proof.
  induction g as [|c g IH]; intros Hg.
  - cbn [app]. destruct (FENCE_CLOSE ++ rest) eqn:E; [discriminate|].
    cbn [lazyAnyUntil]. rewrite <- E, startsWith_app. reflexivity.
  - assert (Hs : startsWith FENCE_CLOSE ((c :: g) ++ FENCE_CLOSE ++ rest)
                 = false)
      by (apply startsWith_fence_close; [assumption | discriminate]).
    change ((c :: g) ++ FENCE_CLOSE ++ rest)
      with (c :: (g ++ FENCE_CLOSE ++ rest)) in *.
    cbn [lazyAnyUntil]. rewrite Hs, IH; [reflexivity|].
    intros Hin. apply Hg. now right.
Qed.

(** The fence pattern finds the first fenced block and takes what stands
    between its two fences. *)
Lemma fencedJson_block pre g post :
  ~ In BACKTICK pre -> ~ In BACKTICK g ->
  fencedJson (pre ++ FENCE_OPEN ++ g ++ FENCE_CLOSE ++ post) = Some g.
Proof.
  intros Hpre Hg. induction pre as [|c pre IH].
  - cbn [app]. destruct (FENCE_OPEN ++ g ++ FENCE_CLOSE ++ post) eqn:E;
      [discriminate|].
    cbn [fencedJson]. rewrite <- E, startsWith_app, skipn_app_exact.
    now rewrite lazyAnyUntil_fence.
  - cbn [app fencedJson]. rewrite startsWith_fence_open.
    + apply IH. intros Hin. apply Hpre. now right.
    + intros ->. apply Hpre. now left.
Qed.

(** X13. When the answer of the gateway is no JSON as a whole but holds a
    fenced block, the suggested questions are read from the block: the
    strings of its array, at most four; a block that is no JSON either
    gives the two default questions. *)
Theorem fenced_questions_recovered `{Builtins}
  (store pre g post text : jsstring) (response : GenResponse)
  (perr : JsErr) (e : Env) (w : World) :
  ai w = true ->
  models_generateContent e (questionsRequest store) = Ok response ->
  resp_text response = Some text ->
  trim text = pre ++ FENCE_OPEN ++ g ++ FENCE_CLOSE ++ post ->
  ~ In BACKTICK pre -> ~ In BACKTICK g -> g <> [] ->
  JSON_parse (trim text) = Throw perr ->
  (forall items,
     JSON_parse g = Ok (JArray items) ->
     fst (generateExampleQuestions store e w)
     = Ok (firstn 4 (stringsOf items)))
  /\ (forall err,
        JSON_parse g = Throw err ->
        fst (generateExampleQuestions store e w) = Ok DEFAULT_QUESTIONS_2).
Proof.
  intros Hai Hresp Htext Htrim Hpre Hg Hne Hperr.
  destruct (generateExampleQuestions_run store e w Hai) as (t & -> & _).
  cbn [fst]. unfold questionsOf.
  rewrite Hresp, Htext, Hperr, Htrim, (fencedJson_block pre g post Hpre Hg).
  destruct g as [|c r]; [congruence|].
  split.
  - intros items ->. reflexivity.
  - intros err ->. reflexivity.
Qed.

Lemma fenced_questions_recovered_witness :
  fst (@generateExampleQuestions sampleBuiltins STORE fencedEnv boundWorld)
  = Ok [js "q1"; js "q2"; js "q3"; js "q4"].
Proof.
  assert (Hitems :
    firstn 4 (stringsOf [JString (js "q1"); JString (js "q2");
                         JNumber (js "7"); JString (js "q3");
                         JString (js "q4"); JString (js "q5")])
    = [js "q1"; js "q2"; js "q3"; js "q4"]) by reflexivity.
  rewrite <- Hitems.
  apply (@fenced_questions_recovered sampleBuiltins STORE
           (js "Here you are:" ++ [LF]) PAYLOAD [] FENCED_PAYLOAD
           {| resp_text := Some FENCED_PAYLOAD; resp_groundingChunks := None |}
           (ErrorObj (js "Unexpected token")) fencedEnv boundWorld);
    try (vm_compute; reflexivity);
    try (vm_compute; intuition discriminate).
Defined.

(* ===================================================================== *)
(** * Further properties of the session handlers                           *)
(* ===================================================================== *)

Ltac fields :=
  cbn [fst snd ai state trace after
       status isApiKeySelected apiKeyError error uploadProgress
       activeRagStoreName chatHistory isQueryLoading exampleQuestions
       documentName files patientName
       with_status with_isApiKeySelected with_apiKeyError with_error
       with_uploadProgress with_activeRagStoreName with_chatHistory
       with_isQueryLoading with_exampleQuestions with_documentName
       with_files with_patientName
       bound credentialRetry setupFailed answered queryFailed ended].

Lemma gatewayCalls_app a b :
  gatewayCalls (a ++ b) = gatewayCalls a ++ gatewayCalls b.
Proof. apply filter_app. Qed.

(** ** The key *)

Lemma checkApiKey_exact e w :
  checkApiKey e w
  = (Ok tt,
     Build_World (ai w)
       (with_isApiKeySelected (keyAnswer e (state w)) (state w))
       (trace w
          ++ match hasSelectedApiKey e with
             | Some (Throw err) =>
                 [EvConsoleError (js "Error checking for API key:") err]
             | _ => []
             end)).
Proof.
  unfold checkApiKey, keyAnswer. unfold bind at 1, env at 1.
  destruct (hasSelectedApiKey e) as [[hasKey|err]|].
  - now rewrite app_nil_r.
  - reflexivity.
  - rewrite app_nil_r. unfold ret. now destruct w as [a [] tr].
Qed.

Lemma with_isApiKeySelected_same a :
  with_isApiKeySelected (isApiKeySelected a) a = a.
Proof. now destruct a. Qed.

Lemma handleSelectKey_exact e w :
  handleSelectKey e w
  = match openSelectKey e with
    | Some (Ok _) => checkApiKey e w
    | Some (Throw err) =>
        (Ok tt,
         after w [EvConsoleError
                    (js "Failed to open API key selection dialog") err])
    | None =>
        (Ok tt,
         after w [EvAlert
                    (js "API key selection is not available in this environment.")])
    end.
Proof.
  unfold handleSelectKey. unfold bind at 1, env at 1.
  destruct (openSelectKey e) as [[[]|err]|]; try reflexivity.
  unfold tryCatch, bind, lift. rewrite checkApiKey_exact. reflexivity.
Qed.

(** X14. Checking for the key and asking for one never throw, never call
    the gateway, and change nothing of the component state but the key
    flag: the flag takes the answer of the host, false when the host
    throws; without a host the check does nothing and the request only
    raises an alert; a dialog that throws leaves the flag as it was. *)
Theorem key_handlers_touch_only_flag (e : Env) (w : World) :
  (fst (checkApiKey e w) = Ok tt
   /\ state (snd (checkApiKey e w))
      = with_isApiKeySelected (keyAnswer e (state w)) (state w)
   /\ ai (snd (checkApiKey e w)) = ai w
   /\ gatewayCalls (trace (snd (checkApiKey e w))) = gatewayCalls (trace w)
   /\ (hasSelectedApiKey e = None -> checkApiKey e w = (Ok tt, w)))
  /\ (fst (handleSelectKey e w) = Ok tt
      /\ state (snd (handleSelectKey e w))
         = with_isApiKeySelected
             (match openSelectKey e with
              | Some (Ok _) => keyAnswer e (state w)
              | _ => isApiKeySelected (state w)
              end) (state w)
      /\ ai (snd (handleSelectKey e w)) = ai w
      /\ gatewayCalls (trace (snd (handleSelectKey e w)))
         = gatewayCalls (trace w)
      /\ (openSelectKey e = None ->
          exists text, snd (handleSelectKey e w) = after w [EvAlert text])).
Proof.
  assert (Hcheck : gatewayCalls (trace (snd (checkApiKey e w)))
                   = gatewayCalls (trace w)).
  { rewrite checkApiKey_exact. fields. rewrite gatewayCalls_app.
    destruct (hasSelectedApiKey e) as [[hasKey|err]|]; cbn [gatewayCalls filter isGatewayCall];
      apply app_nil_r. }
  split.
  - repeat split; try (rewrite checkApiKey_exact; reflexivity).
    + exact Hcheck.
    + intros Hnone. rewrite checkApiKey_exact. unfold keyAnswer.
      rewrite Hnone, app_nil_r, with_isApiKeySelected_same.
      now destruct w.
  - rewrite handleSelectKey_exact.
    destruct (openSelectKey e) as [[[]|err]|].
    + repeat split; try (rewrite checkApiKey_exact; reflexivity).
      * exact Hcheck.
      * discriminate.
    + fields. rewrite with_isApiKeySelected_same, gatewayCalls_app.
      repeat split; try discriminate. apply app_nil_r.
    + fields. rewrite with_isApiKeySelected_same, gatewayCalls_app.
      repeat split; [apply app_nil_r | eexists; reflexivity].
Qed.

(** ** Set-up refused before the gateway is called *)

(** X15. Without a selected key the set-up throws at once: only the inline
    text about the key is set, the status stays, and nothing is called.
    When building the client throws, the set-up ends in the error view
    with the failure shown and rethrown, again without any call of the
    gateway and without any progress shown. *)
Theorem setup_refused_before_gateway `{Builtins} (e : Env) (w : World) :
  (isApiKeySelected (state w) = false ->
   fst (handleAdminSetupComplete e w)
   = Throw (ErrorObj (js "API Key is required."))
   /\ state (snd (handleAdminSetupComplete e w))
      = with_apiKeyError (Some KEY_REQUIRED) (state w)
   /\ status (state (snd (handleAdminSetupComplete e w))) = status (state w)
   /\ ai (snd (handleAdminSetupComplete e w)) = ai w
   /\ trace (snd (handleAdminSetupComplete e w)) = trace w)
  /\ (forall err,
        isApiKeySelected (state w) = true ->
        new_client e = Some err ->
        fst (handleAdminSetupComplete e w) = Throw err
        /\ status (state (snd (handleAdminSetupComplete e w))) = Error
        /\ error (state (snd (handleAdminSetupComplete e w)))
           = Some (errorText (js "初始化失敗，請選擇有效的 API Key。") err)
        /\ apiKeyError (state (snd (handleAdminSetupComplete e w))) = None
        /\ ai (snd (handleAdminSetupComplete e w)) = ai w
        /\ gatewayCalls (trace (snd (handleAdminSetupComplete e w)))
           = gatewayCalls (trace w)
        /\ progressOf (trace (snd (handleAdminSetupComplete e w)))
           = progressOf (trace w)).
Proof.
  split.
  - intros Hkey. rewrite (handleAdminSetupComplete_no_key e w Hkey).
    repeat split.
  - intros err Hkey Hnew.
    rewrite (handleAdminSetupComplete_no_client e w err Hkey Hnew).
    fields. rewrite gatewayCalls_app, progressOf_app.
    repeat split; apply app_nil_r.
Qed.

Lemma setup_refused_before_gateway_witness :
  fst (@handleAdminSetupComplete sampleBuiltins goodEnv initialWorld)
  = Throw (ErrorObj (js "API Key is required."))
  /\ status (state (snd (@handleAdminSetupComplete sampleBuiltins
                           noClientEnv readyWorld))) = Error.
Proof.
  split.
  - exact (proj1 (proj1 (@setup_refused_before_gateway sampleBuiltins
                           goodEnv initialWorld) eq_refl)).
  - apply (proj2 (@setup_refused_before_gateway sampleBuiltins
                    noClientEnv readyWorld)
             (ErrorObj (js "An API Key must be set")));
      vm_compute; reflexivity.
Defined.

(** ** The progress is cleared on every way out of the set-up *)

(** X16. A set-up that got past the key and the client always ends with
    the progress cleared, as the last thing it does; it asks for no
    deletion, leaves the service initialised, and ends in the binding
    view exactly when it does not throw, never in the uploading view. *)
Theorem setup_always_clears_progress `{Builtins} (e : Env) (w : World) :
  isApiKeySelected (state w) = true ->
  new_client e = None ->
  uploadProgress (state (snd (handleAdminSetupComplete e w))) = None
  /\ (exists t0,
        trace (snd (handleAdminSetupComplete e w)) = t0 ++ [EvProgress None])
  /\ deletionsOf (trace (snd (handleAdminSetupComplete e w)))
     = deletionsOf (trace w)
  /\ ai (snd (handleAdminSetupComplete e w)) = true
  /\ (fst (handleAdminSetupComplete e w) = Ok tt
      <-> status (state (snd (handleAdminSetupComplete e w))) = Binding)
  /\ status (state (snd (handleAdminSetupComplete e w))) <> Uploading.
Proof.
  intros Hkey Hnew.
  assert (Hlast : exists t0,
            trace (snd (handleAdminSetupComplete e w))
            = t0 ++ [EvProgress None]).
  { rewrite (handleAdminSetupComplete_provisioning e w Hkey Hnew).
    unfold tryFinally.
    match goal with
    | |- context [tryCatch ?a ?b e ?w0] =>
        destruct (tryCatch a b e w0) as [r w1]
    end.
    unfold setUploadProgress. rewrite updateUploadProgress_run.
    cbn [snd trace]. eexists; reflexivity. }
  destruct (handleAdminSetupComplete_run e w Hkey Hnew)
    as (r & w' & t & Hrun & Hai & Htr & Hdel & _ & Hcase).
  rewrite Hrun in *. cbn [fst snd] in *.
  split; [|split; [exact Hlast|split; [|split; [exact Hai|]]]].
  - destruct r as [[]|err].
    + destruct Hcase as (store & _ & -> & _). reflexivity.
    + destruct Hcase as [-> _]. now destruct (invalidCredential err).
  - now rewrite Htr, deletionsOf_app, Hdel, app_nil_r.
  - destruct r as [[]|err].
    + destruct Hcase as (store & _ & -> & _). fields.
      split; [split; reflexivity | discriminate].
    + destruct Hcase as [-> _].
      destruct (invalidCredential err); fields;
        (split; [split; discriminate | discriminate]).
Qed.

Lemma setup_always_clears_progress_witness :
  uploadProgress (state boundWorld) = None
  /\ status (state boundWorld) = Binding.
Proof.
  destruct (@setup_always_clears_progress sampleBuiltins goodEnv readyWorld)
    as (Hp & _ & _ & _ & Hb & _); [vm_compute; reflexivity ..|].
  split; [exact Hp|]. apply Hb. vm_compute; reflexivity.
Defined.

(** ** Queries *)

Lemma handleSendMessage_world `{Builtins} message e w name :
  activeStore (state w) = Some name ->
  exists a t,
    handleSendMessage message e w = (Ok tt, Build_World (ai w) a (trace w ++ t))
    /\ ((exists result, a = answered message result (state w))
        \/ (exists err, a = queryFailed message err (state w)))
    /\ deletionsOf t = [] /\ uploadsOf t = []
    /\ List.length (generationsOf t) <= 1.
Proof.
  intros Hact. rewrite (handleSendMessage_run message e w name Hact).
  destruct (ai w).
  - destruct (crisisQuery message).
    + exists (answered message CRISIS_RESULT (state w)), [].
      rewrite app_nil_r. repeat split; eauto.
    + destruct (models_generateContent e (queryRequest name message))
        as [response|err].
      * eexists _, _. split; [reflexivity|]. repeat split; eauto.
      * eexists _, _. split; [reflexivity|]. repeat split; eauto.
  - eexists _, _. split; [reflexivity|]. repeat split; eauto.
Qed.

(** X17. Sending a query never throws.  Without an active store it does
    nothing at all.  With one, it appends exactly two messages, the query
    of the user and then one message of the model, lowers the loading
    flag, keeps the store, asks for no upload and no deletion, makes at
    most one request to the model, and leaves the status as it was unless
    it ends in the error view. *)
Theorem send_appends_one_exchange `{Builtins}
  (message : jsstring) (e : Env) (w : World) :
  fst (handleSendMessage message e w) = Ok tt
  /\ ai (snd (handleSendMessage message e w)) = ai w
  /\ activeRagStoreName (state (snd (handleSendMessage message e w)))
     = activeRagStoreName (state w)
  /\ deletionsOf (trace (snd (handleSendMessage message e w)))
     = deletionsOf (trace w)
  /\ uploadsOf (trace (snd (handleSendMessage message e w)))
     = uploadsOf (trace w)
  /\ (activeStore (state w) = None -> snd (handleSendMessage message e w) = w)
  /\ (forall name,
        activeStore (state w) = Some name ->
        isQueryLoading (state (snd (handleSendMessage message e w))) = false
        /\ (exists m,
              chatHistory (state (snd (handleSendMessage message e w)))
              = chatHistory (state w) ++ [userMessage message; m]
              /\ role m = model)
        /\ (status (state (snd (handleSendMessage message e w)))
            = status (state w)
            \/ status (state (snd (handleSendMessage message e w))) = Error)
        /\ List.length
             (generationsOf (trace (snd (handleSendMessage message e w))))
           <= S (List.length (generationsOf (trace w)))).
Proof.
  destruct (activeStore (state w)) as [name|] eqn:Hact.
  - destruct (handleSendMessage_world message e w name Hact)
      as (a & t & -> & Ha & Hdel & Hup & Hgen).
    fields. rewrite deletionsOf_app, uploadsOf_app, Hdel, Hup, !app_nil_r.
    repeat split; try discriminate.
    + now destruct Ha as [[result ->]|[err ->]].
    + now destruct Ha as [[result ->]|[err ->]].
    + destruct Ha as [[result ->]|[err ->]]; fields; eexists;
        (split; [reflexivity | reflexivity]).
    + destruct Ha as [[result ->]|[err ->]]; fields; auto.
    + rewrite generationsOf_app, length_app. lia.
  - rewrite (handleSendMessage_idle message e w Hact). fields.
    repeat split; try discriminate.
Qed.

Lemma send_appends_one_exchange_witness :
  exists m,
    chatHistory (state (snd (@handleSendMessage sampleBuiltins (js "hi")
                               goodEnv chattingWorld)))
    = chatHistory (state chattingWorld) ++ [userMessage (js "hi"); m]
    /\ role m = model.
Proof.
  destruct (@send_appends_one_exchange sampleBuiltins (js "hi") goodEnv
              chattingWorld) as (_ & _ & _ & _ & _ & _ & Hsome).
  destruct (Hsome STORE) as (_ & Hm & _); [vm_compute; reflexivity|].
  exact Hm.
Defined.

(** X18. A query that is no crisis query and that the gateway answers is
    sent as it was typed, for the active store only and with the model
    of the service; the answer is appended after the query with its
    text, with its sources (none when the gateway names none) and marked
    as no crisis, and the status stays. *)
Theorem query_answered `{Builtins}
  (message name : jsstring) (response : GenResponse) (e : Env) (w : World) :
  ai w = true ->
  activeStore (state w) = Some name ->
  crisisQuery message = false ->
  models_generateContent e (queryRequest name message) = Ok response ->
  handleSendMessage message e w
  = (Ok tt,
     Build_World true (answered message (resultOf response) (state w))
       (trace w ++ [EvGenerateContent (queryRequest name message)]))
  /\ req_contents (queryRequest name message) = message
  /\ req_fileSearchStoreNames (queryRequest name message) = [name]
  /\ parts (modelMessage (resultOf response)) = [resp_text response]
  /\ isCrisis (modelMessage (resultOf response)) = Some false
  /\ (resp_groundingChunks response = None ->
      groundingChunks (modelMessage (resultOf response)) = Some [])
  /\ status (answered message (resultOf response) (state w))
     = status (state w).
Proof.
  intros Hai Hact Hcrisis Hresp.
  rewrite (handleSendMessage_run message e w name Hact), Hai, Hcrisis, Hresp.
  repeat split. intros Hnone. unfold modelMessage, resultOf.
  cbn [groundingChunks q_groundingChunks]. now rewrite Hnone.
Qed.

Lemma query_answered_witness :
  chatHistory (state (snd (@handleSendMessage sampleBuiltins (js "hi")
                             goodEnv chattingWorld)))
  = chatHistory (state chattingWorld)
      ++ [userMessage (js "hi");
          modelMessage
            (resultOf {| resp_text := Some (js "# 門診" ++ [LF] ++ js "- 週一");
                         resp_groundingChunks := None |})].
Proof.
  destruct (@query_answered sampleBuiltins (js "hi") STORE
              {| resp_text := Some (js "# 門診" ++ [LF] ++ js "- 週一");
                 resp_groundingChunks := None |} goodEnv chattingWorld)
    as (Hrun & _); [vm_compute; reflexivity ..|].
  now rewrite Hrun.
Defined.

(** ** Leaving the page *)

Lemma handleUnload_exact e w :
  handleUnload e w
  = (Ok tt,
     after w
       match activeStore (state w) with
       | Some name =>
         if ai w then
           EvDelete name
           :: match stores_delete e name with
              | Ok _ => []
              | Throw err =>
                [EvConsoleError
                   (js "Error deleting RAG store on unload:") err]
              end
         else
           [EvConsoleError (js "Error deleting RAG store on unload:")
              NOT_INITIALIZED]
       | None => []
       end).
Proof.
  unfold NOT_INITIALIZED.
  unfold handleUnload, activeStore. unfold bind at 1, world at 1.
  destruct (activeRagStoreName (state w)) as [name|].
  2:{ now rewrite after_nil. }
  destruct (truthy name).
  2:{ now rewrite after_nil. }
  destruct w as [a s tr]. unfold after. cbn [ai state trace].
  run_send. run_setters.
  destruct a; cbv beta iota.
  - destruct (stores_delete e name) as [[]|err]; cbv beta iota;
      rewrite <- ?app_assoc; reflexivity.
  - reflexivity.
Qed.

(** X19. Leaving the page never throws and changes nothing of the
    component state; it asks the gateway to delete the active store,
    once, when there is one and the service is initialised, and asks for
    no deletion otherwise; a deletion that fails is only logged. *)
Theorem unload_deletes_active_store (e : Env) (w : World) :
  fst (handleUnload e w) = Ok tt
  /\ state (snd (handleUnload e w)) = state w
  /\ ai (snd (handleUnload e w)) = ai w
  /\ deletionsOf (trace (snd (handleUnload e w)))
     = deletionsOf (trace w) ++ unloadDeletions w
  /\ uploadsOf (trace (snd (handleUnload e w))) = uploadsOf (trace w)
  /\ generationsOf (trace (snd (handleUnload e w)))
     = generationsOf (trace w).
Proof.
  rewrite handleUnload_exact. fields.
  rewrite deletionsOf_app, uploadsOf_app, generationsOf_app.
  unfold unloadDeletions.
  destruct (activeStore (state w)) as [name|]; [destruct (ai w)|];
    [destruct (stores_delete e name) as [[]|err]| |];
    cbn [deletionsOf uploadsOf generationsOf]; rewrite ?app_nil_r;
    repeat split.
Qed.

(** ** Between two handlers *)

Lemma settled_frame a b :
  settled a ->
  uploadProgress b = uploadProgress a ->
  isQueryLoading b = isQueryLoading a \/ isQueryLoading b = false ->
  status b = status a \/ status b <> Uploading ->
  exampleQuestions b = exampleQuestions a
  \/ List.length (exampleQuestions b) <= 4 ->
  settled b.
Proof.
  intros (Hp & Hq & Hs & He) Hp' Hq' Hs' He'. unfold settled.
  rewrite Hp'. repeat split.
  - exact Hp.
  - destruct Hq' as [-> | ->]; auto.
  - destruct Hs' as [-> | Hs']; auto.
  - destruct He' as [-> | He']; auto.
Qed.

Lemma perform_settled `{Builtins} act e w :
  settled (state w) -> settled (state (snd (perform act e w))).
Proof.
  intros Hset.
  destruct act as [| | | |fs| |name phone|msg| |]; cbn [perform].
  - destruct (mount_run e w) as (key & t & ->).
    apply (settled_frame (state w)); fields; auto.
    right. discriminate.
  - rewrite checkApiKey_exact.
    apply (settled_frame (state w)); fields; auto.
  - rewrite handleUnload_exact.
    apply (settled_frame (state w)); fields; auto.
  - destruct (handleSelectKey_run e w) as (key & t & ->).
    apply (settled_frame (state w)); fields; auto.
  - unfold setFiles, modifyApp.
    apply (settled_frame (state w)); fields; auto.
  - destruct (isApiKeySelected (state w)) eqn:Hkey.
    + destruct (new_client e) as [err|] eqn:Hnew.
      * rewrite (handleAdminSetupComplete_no_client e w err Hkey Hnew).
        apply (settled_frame (state w)); fields; auto.
        right. discriminate.
      * destruct (handleAdminSetupComplete_run e w Hkey Hnew)
          as (r & w' & t & -> & _ & _ & _ & _ & Hcase).
        cbn [snd]. destruct Hset as (Hp & Hq & Hs & He).
        destruct r as [[]|err].
        -- destruct Hcase as (store & _ & -> & _).
           unfold settled. fields. repeat split; auto; try discriminate.
           apply questionsOf_bound.
        -- destruct Hcase as [-> _].
           destruct (invalidCredential err); unfold settled; fields;
             repeat split; auto; discriminate.
    + rewrite (handleAdminSetupComplete_no_key e w Hkey).
      apply (settled_frame (state w)); fields; auto.
  - rewrite handlePatientLogin_run.
    apply (settled_frame (state w)); fields; auto.
    right. discriminate.
  - destruct (activeStore (state w)) as [n|] eqn:Hact.
    + destruct (handleSendMessage_world msg e w n Hact)
        as (a & t & -> & Ha & _).
      destruct Ha as [[result ->]|[err ->]];
        apply (settled_frame (state w)); fields; auto.
      right. discriminate.
    + now rewrite (handleSendMessage_idle msg e w Hact).
  - rewrite handleEndChat_run.
    apply (settled_frame (state w)); fields; auto.
    + right. discriminate.
    + right. cbn. lia.
  - rewrite clearError_run.
    apply (settled_frame (state w)); fields; auto.
    right. discriminate.
Qed.

(** X20. Whenever no handler is running, no progress is shown, no query
    is pending, the status is not the transient one of the set-up, and
    at most four questions are suggested; and every handler keeps this,
    from whatever state it is started. *)
Theorem settled_between_handlers `{Builtins} :
  (forall act e w,
     settled (state w) -> settled (state (snd (perform act e w))))
  /\ (forall w, reachable w -> settled (state w)).
Proof.
  split; [apply perform_settled|].
  induction 1 as [|w act e Hreach IH Hen].
  - unfold settled. cbn. repeat split; [discriminate | lia].
  - now apply perform_settled.
Qed.

Lemma settled_between_handlers_witness :
  settled (state failedChatWorld).
Proof.
  apply (proj2 (@settled_between_handlers sampleBuiltins)).
  apply failedChatWorld_reachable.
Defined.

(** ** The shape of the chat *)

Lemma exchanges_snoc k : exchanges k ++ [user; model] = exchanges (S k).
Proof.
  unfold exchanges. induction k as [|k IH]; [reflexivity|].
  cbn [repeat List.concat] in *. now rewrite <- app_assoc, IH.
Qed.

Lemma chat_frame (a b : AppState) :
  (status a = Binding -> chatHistory a = []) ->
  (status a = Chatting -> transcript a) ->
  status b = status a \/ (status b <> Binding /\ status b <> Chatting) ->
  chatHistory b = chatHistory a ->
  patientName b = patientName a ->
  (status b = Binding -> chatHistory b = [])
  /\ (status b = Chatting -> transcript b).
Proof.
  intros Hb Hc Hs Hh Hn. unfold transcript in *. rewrite Hh, Hn.
  destruct Hs as [-> | [Hnb Hnc]]; [now split|].
  split; intros E; congruence.
Qed.

(** X21. In every reachable state, while the patient is being verified
    the chat is empty, and while the session is chatting the chat is the
    welcome message for the verified patient followed by whole exchanges,
    each the query of the user and then one message of the model. *)
Theorem chat_is_welcome_then_exchanges `{Builtins} (w : World) :
  reachable w ->
  (status (state w) = Binding -> chatHistory (state w) = [])
  /\ (status (state w) = Chatting -> transcript (state w)).
Proof.
  induction 1 as [|w act e Hreach [IHb IHc] Hen].
  - split; discriminate.
  - pose proof (reachable_invariant w Hreach) as [Hstore _].
    destruct act as [| | | |fs| |name phone|msg| |];
      cbn [perform enabled] in *.
    + destruct (mount_run e w) as (key & t & ->).
      apply (chat_frame (state w)); fields; auto.
      right. split; discriminate.
    + rewrite checkApiKey_exact.
      apply (chat_frame (state w)); fields; auto.
    + rewrite handleUnload_exact.
      apply (chat_frame (state w)); fields; auto.
    + destruct (handleSelectKey_run e w) as (key & t & ->).
      apply (chat_frame (state w)); fields; auto.
    + unfold setFiles, modifyApp.
      apply (chat_frame (state w)); fields; auto.
    + destruct (isApiKeySelected (state w)) eqn:Hkey.
      * destruct (new_client e) as [err|] eqn:Hnew.
        -- rewrite (handleAdminSetupComplete_no_client e w err Hkey Hnew).
           apply (chat_frame (state w)); fields; auto.
           right. split; discriminate.
        -- destruct (handleAdminSetupComplete_run e w Hkey Hnew)
             as (r & w' & t & -> & _ & _ & _ & _ & Hcase).
           cbn [snd]. destruct r as [[]|err].
           ++ destruct Hcase as (store & _ & -> & _). fields.
              split; [reflexivity | discriminate].
           ++ destruct Hcase as [-> _].
              destruct (invalidCredential err); fields;
                split; discriminate.
      * rewrite (handleAdminSetupComplete_no_key e w Hkey).
        apply (chat_frame (state w)); fields; auto.
    + rewrite handlePatientLogin_run. fields.
      split; [discriminate|]. intros _.
      exists 0, []. unfold transcript. fields. split; reflexivity.
    + apply andb_prop in Hen as [Hen _]. apply andb_prop in Hen as [Hen _].
      apply isStatus_eq in Hen.
      destruct (Hstore (or_intror Hen)) as [n Hact].
      destruct (handleSendMessage_world msg e w n Hact)
        as (a & t & -> & Ha & _).
      destruct Ha as [[result ->]|[err ->]]; fields.
      * split; [congruence|]. intros _.
        destruct (IHc Hen) as (k & rest & Hh & Hr).
        exists (S k), (rest ++ [userMessage msg; modelMessage result]).
        fields. rewrite Hh, map_app, Hr, <- exchanges_snoc.
        split; reflexivity.
      * split; discriminate.
    + rewrite handleEndChat_run. fields. split; discriminate.
    + rewrite clearError_run. fields. split; discriminate.
Qed.

Lemma chat_is_welcome_then_exchanges_witness :
  transcript (state chattingWorld).
Proof.
  apply (@chat_is_welcome_then_exchanges sampleBuiltins chattingWorld).
  - apply chattingWorld_reachable.
  - vm_compute; reflexivity.
Defined.

(** ** The welcome message in the chat view *)

Lemma list_block_from t lines items o :
  lines <> [] ->
  Forall2 (listLine t) lines items ->
  fold_left renderLine lines (mkRender o None [])
  = mkRender (o ++ openOf t ++ List.concat (map (itemOf t) items))
      (Some t) [].
Proof.
  intros Hne Hall. destruct Hall as [|l item lines items Hl Hall];
    [congruence|].
  cbn [fold_left]. rewrite Hl. unfold flushPara at 1.
  cbn [paraBuffer truthy]. rewrite openList_init. unfold emit.
  cbn [out listType paraBuffer].
  rewrite (list_block_fold t lines items Hall).
  cbn [map List.concat]. now rewrite <- !app_assoc.
Qed.

Lemma fold_single st l : fold_left renderLine [l] st = renderLine st l.
Proof. reflexivity. Qed.

Lemma emit_init s :
  emit s (flushList (flushPara renderInit)) = mkRender s None [].
Proof. reflexivity. Qed.

Lemma paragraph_between o p :
  plainLine p = true ->
  fold_left renderLine [[]; p; []] (mkRender o None [])
  = mkRender (o ++ paragraph p) None [].
Proof.
  intros Hp. cbn [fold_left].
  rewrite !(renderLine_blank _ [] eq_refl).
  change (flushPara (flushList (mkRender o None [])))
    with (mkRender o None []).
  rewrite (renderLine_plain o [] p Hp). cbn [truthy app].
  cbn [flushList listType].
  apply (flushPara_truthy o None p (plainLine_truthy p Hp)).
Qed.

Lemma bullet_list_last o lines items :
  lines <> [] ->
  Forall2 (listLine ul) lines items ->
  out (flushList (flushPara
         (fold_left renderLine lines (mkRender o None []))))
  = o ++ UL_OPEN ++ List.concat (map bulletItem items) ++ UL_CLOSE.
Proof.
  intros Hne Hall.
  rewrite (list_block_from ul lines items _ Hne Hall).
  unfold flushPara, flushList. cbn [paraBuffer truthy listType out].
  rewrite close_tag, openOf_ul, closeOf_ul.
  rewrite (map_ext (itemOf ul) bulletItem itemOf_ul).
  rewrite <- !app_assoc. apply eq_refl.
Qed.

(** A heading, a blank line, a plain line, a blank line and bullet lines
    give the heading, one paragraph and one list. *)
Lemma render_heading_paragraph_list t p lines items :
  plainLine p = true ->
  lines <> [] ->
  Forall2 (listLine ul) lines items ->
  renderLines ((js "# " ++ t) :: [] :: p :: [] :: lines)
  = (H1_OPEN ++ t ++ H1_CLOSE) ++ paragraph p
      ++ UL_OPEN ++ List.concat (map bulletItem items) ++ UL_CLOSE.
Proof.
  intros Hp Hne Hall. unfold renderLines.
  change ((js "# " ++ t) :: [] :: p :: [] :: lines)
    with ([js "# " ++ t] ++ [[]; p; []] ++ lines).
  rewrite !fold_left_app, fold_single.
  rewrite renderLine_h1, emit_init, (paragraph_between _ p Hp).
  rewrite (bullet_list_last _ lines items Hne Hall).
  now rewrite <- !app_assoc.
Qed.

Lemma welcomeText_lines name :
  ~ In LF name ->
  split_lines (welcomeText name)
  = (js "# " ++ WELCOME_GREETING ++ name ++ js " ")
      :: [] :: WELCOME_QUESTION :: []
      :: map (fun topic => HYPHEN :: 32%N :: topic) WELCOME_TOPICS.
Proof.
  intros Hname. unfold welcomeText.
  replace (js "# 歡迎回來，") with (js "# " ++ WELCOME_GREETING)
    by (vm_compute; reflexivity).
  match goal with
  | |- context [name ++ ?sp ++ [LF; LF] ++ ?r] =>
      assert (Hrest : split_lines r
                      = WELCOME_QUESTION :: []
                          :: map (fun topic => HYPHEN :: 32%N :: topic)
                               WELCOME_TOPICS)
        by (vm_compute; reflexivity);
      revert Hrest; generalize r
  end.
  intros r Hrest.
  change ([LF; LF] ++ r) with (LF :: ([] ++ LF :: r)).
  replace ((js "# " ++ WELCOME_GREETING) ++ name ++ js " "
           ++ LF :: ([] ++ LF :: r))
    with ((js "# " ++ WELCOME_GREETING ++ name ++ js " ")
          ++ LF :: ([] ++ LF :: r))
    by (now rewrite <- !app_assoc).
  rewrite !split_lines_app_lf, Hrest.
  rewrite split_lines_single; [reflexivity|].
  intros Hin.
  apply in_app_or in Hin as [Hin|Hin]; [vm_compute in Hin; intuition discriminate|].
  apply in_app_or in Hin as [Hin|Hin]; [vm_compute in Hin; intuition discriminate|].
  apply in_app_or in Hin as [Hin|Hin]; [contradiction|].
  vm_compute in Hin; intuition discriminate.
Qed.

Lemma welcome_topics_lines :
  Forall2 (listLine ul)
    (map (fun topic => HYPHEN :: 32%N :: topic) WELCOME_TOPICS)
    WELCOME_TOPICS.
Proof.
  assert (Hline : forall topic,
            undelimited topic = true -> oneLine topic = true ->
            listLine ul (HYPHEN :: 32%N :: topic) topic).
  { intros topic Hu Ho. apply bullet_line; [|now split].
    exists [], HYPHEN, 32%N. repeat split. now right. }
  unfold WELCOME_TOPICS. cbn [map].
  apply Forall2_cons; [apply Hline; vm_compute; reflexivity|].
  apply Forall2_cons; [apply Hline; vm_compute; reflexivity|].
  apply Forall2_cons; [apply Hline; vm_compute; reflexivity|].
  apply Forall2_nil.
Qed.

(** X22. After the verification the chat holds one message, the welcome
    message, and the chat view renders it as a heading that greets the
    patient by name, written as it stands, then one paragraph with the
    question, then one list of the three topics. *)
Theorem welcome_message_rendering (name phone : jsstring)
  (e : Env) (w : World) :
  ~ In LF name ->
  chatHistory (state (snd (handlePatientLogin name phone e w)))
  = [welcomeMessage name]
  /\ parts (welcomeMessage name) = [Some (welcomeText name)]
  /\ renderMarkdown (welcomeText name)
     = (H1_OPEN ++ (WELCOME_GREETING ++ name ++ js " ") ++ H1_CLOSE)
         ++ paragraph WELCOME_QUESTION
         ++ UL_OPEN ++ List.concat (map bulletItem WELCOME_TOPICS)
         ++ UL_CLOSE.
Proof.
  intros Hname. rewrite handlePatientLogin_run.
  split; [reflexivity|]. split; [reflexivity|].
  rewrite renderMarkdown_lines.
  2:{ unfold welcomeText.
      change (js "# 歡迎回來，") with (35%N :: tl (js "# 歡迎回來，")).
      reflexivity. }
  rewrite (welcomeText_lines name Hname).
  apply render_heading_paragraph_list.
  - vm_compute; reflexivity.
  - discriminate.
  - apply welcome_topics_lines.
Qed.

Lemma welcome_message_rendering_witness :
  renderMarkdown (welcomeText (js "陳大明"))
  = (H1_OPEN ++ (WELCOME_GREETING ++ js "陳大明" ++ js " ") ++ H1_CLOSE)
      ++ paragraph WELCOME_QUESTION
      ++ UL_OPEN ++ List.concat (map bulletItem WELCOME_TOPICS) ++ UL_CLOSE.
Proof.
  apply (welcome_message_rendering (js "陳大明") (js "0912345678")
           goodEnv boundWorld).
  vm_compute. intuition discriminate.
Defined.

(* ===================================================================== *)
(** * Properties of the patient verification                               *)
(* ===================================================================== *)

Lemma jseqb_eq a b : jseqb a b = true <-> a = b.
Proof.
  revert b. induction a as [|x a IH]; intros [|y b]; cbn;
    try (split; [discriminate | congruence]); [tauto|].
  rewrite andb_true_iff, N.eqb_eq, IH. split.
  - now intros [-> ->].
  - now intros [= -> ->].
Qed.

Lemma jseqb_neq a b : jseqb a b = false <-> a <> b.
Proof.
  rewrite <- jseqb_eq. destruct (jseqb a b); split; congruence.
Qed.

(** A patient is found with the birthday typed exactly for the pairs on
    record. *)
Lemma lookup_registered phoneNumber birth :
  (forall patient,
     PatientLogin.lookup PatientLogin.MOCK_HIS_DB phoneNumber = Some patient ->
     jseqb (PatientLogin.birthday patient) birth = true ->
     PatientLogin.registered phoneNumber birth (PatientLogin.name patient))
  /\ (forall patientName,
        PatientLogin.registered phoneNumber birth patientName ->
        exists patient,
          PatientLogin.lookup PatientLogin.MOCK_HIS_DB phoneNumber
          = Some patient
          /\ jseqb (PatientLogin.birthday patient) birth = true
          /\ PatientLogin.name patient = patientName).
Proof.
  unfold PatientLogin.MOCK_HIS_DB, PatientLogin.registered.
  cbn [PatientLogin.lookup]. split.
  - intros patient Hl Hb.
    destruct (jseqb (js "0912345678") phoneNumber) eqn:E1.
    { apply jseqb_eq in E1. injection Hl as <-.
      cbn [PatientLogin.birthday PatientLogin.name] in *.
      apply jseqb_eq in Hb. left. repeat split; congruence. }
    destruct (jseqb (js "0987654321") phoneNumber) eqn:E2; [|discriminate].
    apply jseqb_eq in E2. injection Hl as <-.
    cbn [PatientLogin.birthday PatientLogin.name] in *.
    apply jseqb_eq in Hb. right. repeat split; congruence.
  - intros patientName [(-> & -> & ->) | (-> & -> & ->)].
    + eexists. split; [vm_compute; reflexivity|].
      split; vm_compute; reflexivity.
    + eexists. split; [vm_compute; reflexivity|].
      split; vm_compute; reflexivity.
Qed.

(** X23. The verification hands over exactly for the pairs of a phone
    number and a birthday that are on record: whatever callback the
    component is given, the callback is run once, with the name on record
    and the phone number as typed, and what it throws is passed on; for
    every other pair no callback is run, the world stays as it is, the
    failure is shown and one reset timer is set.  With the callback of
    the session the hand-over makes the status chatting and the patient
    named. *)
Theorem verification_exactly_for_registered (s : PatientLogin.LoginState)
  (e : Env) (w : World) :
  (forall nm,
     PatientLogin.registered (PatientLogin.phone s)
       (PatientLogin.birthdayInput s) nm ->
     (forall onLoginSuccess,
        PatientLogin.handleBirthdaySubmit onLoginSuccess s e w
        = match onLoginSuccess nm (PatientLogin.phone s) e w with
          | (Ok _, w') =>
              (Ok {| PatientLogin.step := PatientLogin.step s;
                     PatientLogin.phone := PatientLogin.phone s;
                     PatientLogin.birthdayInput :=
                       PatientLogin.birthdayInput s;
                     PatientLogin.error := None;
                     PatientLogin.timers := PatientLogin.timers s |}, w')
          | (Throw err, w') => (Throw err, w')
          end)
     /\ snd (PatientLogin.handleBirthdaySubmit handlePatientLogin s e w)
        = snd (handlePatientLogin nm (PatientLogin.phone s) e w)
     /\ status (state (snd (PatientLogin.handleBirthdaySubmit
                              handlePatientLogin s e w))) = Chatting
     /\ patientName (state (snd (PatientLogin.handleBirthdaySubmit
                                   handlePatientLogin s e w)))
        = nm
     /\ exists s',
          fst (PatientLogin.handleBirthdaySubmit handlePatientLogin s e w)
          = Ok s'
          /\ PatientLogin.error s' = None
          /\ PatientLogin.timers s' = PatientLogin.timers s)
  /\ ((forall nm,
         ~ PatientLogin.registered (PatientLogin.phone s)
             (PatientLogin.birthdayInput s) nm) ->
      forall onLoginSuccess,
        snd (PatientLogin.handleBirthdaySubmit onLoginSuccess s e w) = w
        /\ exists s',
             fst (PatientLogin.handleBirthdaySubmit onLoginSuccess s e w)
             = Ok s'
             /\ PatientLogin.error s' = Some PatientLogin.NOT_FOUND
             /\ PatientLogin.timers s' = S (PatientLogin.timers s)
             /\ PatientLogin.resetForm s'
                = {| PatientLogin.step := PatientLogin.PHONE;
                     PatientLogin.phone := [];
                     PatientLogin.birthdayInput := [];
                     PatientLogin.error := None;
                     PatientLogin.timers := PatientLogin.timers s |}).
Proof.
  destruct (lookup_registered (PatientLogin.phone s)
              (PatientLogin.birthdayInput s)) as [Hfound Hreg].
  split.
  - intros nm Hnm. destruct (Hreg nm Hnm) as (patient & Hl & Hb & Hn).
    assert (Hany : forall onLoginSuccess,
              PatientLogin.handleBirthdaySubmit onLoginSuccess s e w
              = match onLoginSuccess nm (PatientLogin.phone s) e w with
                | (Ok _, w') =>
                    (Ok {| PatientLogin.step := PatientLogin.step s;
                           PatientLogin.phone := PatientLogin.phone s;
                           PatientLogin.birthdayInput :=
                             PatientLogin.birthdayInput s;
                           PatientLogin.error := None;
                           PatientLogin.timers := PatientLogin.timers s |},
                     w')
                | (Throw err, w') => (Throw err, w')
                end).
    { intros k. unfold PatientLogin.handleBirthdaySubmit.
      rewrite Hl, Hb, Hn. unfold bind, ret.
      now destruct (k nm (PatientLogin.phone s) e w) as [[a|err] w']. }
    split; [exact Hany|].
    rewrite (Hany handlePatientLogin), handlePatientLogin_run.
    cbn [fst snd state status patientName with_status with_chatHistory
         with_patientName].
    repeat split. eexists. repeat split.
  - intros Hnone onLoginSuccess.
    unfold PatientLogin.handleBirthdaySubmit.
    destruct (PatientLogin.lookup PatientLogin.MOCK_HIS_DB
                (PatientLogin.phone s)) as [patient|] eqn:Hl.
    + destruct (jseqb (PatientLogin.birthday patient)
                  (PatientLogin.birthdayInput s)) eqn:Hb.
      * exfalso. exact (Hnone _ (Hfound patient eq_refl Hb)).
      * unfold ret. cbn [fst snd]. split; [reflexivity|].
        eexists. repeat split.
    + unfold ret. cbn [fst snd]. split; [reflexivity|].
      eexists. repeat split.
Qed.

Lemma verification_exactly_for_registered_witness :
  trace
    (snd (PatientLogin.handleBirthdaySubmit
            (fun nm phoneNumber => consoleError phoneNumber (ErrorObj nm))
            {| PatientLogin.step := PatientLogin.BIRTHDAY;
               PatientLogin.phone := js "0987654321";
               PatientLogin.birthdayInput := js "19950520";
               PatientLogin.error := None;
               PatientLogin.timers := 0 |} goodEnv boundWorld))
  = trace boundWorld
      ++ [EvConsoleError (js "0987654321") (ErrorObj (js "林小美"))]
  /\ snd (PatientLogin.handleBirthdaySubmit handlePatientLogin
            {| PatientLogin.step := PatientLogin.BIRTHDAY;
               PatientLogin.phone := js "0987654321";
               PatientLogin.birthdayInput := js "19900101";
               PatientLogin.error := None;
               PatientLogin.timers := 0 |} goodEnv boundWorld)
     = boundWorld.
Proof.
  split.
  - destruct (verification_exactly_for_registered
                {| PatientLogin.step := PatientLogin.BIRTHDAY;
                   PatientLogin.phone := js "0987654321";
                   PatientLogin.birthdayInput := js "19950520";
                   PatientLogin.error := None;
                   PatientLogin.timers := 0 |} goodEnv boundWorld)
      as [Hreg _].
    destruct (Hreg (js "林小美")) as [Hany _]; [right; repeat split|].
    rewrite Hany. vm_compute. reflexivity.
  - apply (proj2 (verification_exactly_for_registered _ goodEnv boundWorld)).
    intros nm [(H1 & _) | (_ & H2 & _)]; vm_compute in *; discriminate.
Defined.

(** X24. The phone step looks at the length of the number only: ten units
    or more go on to the birthday step, whether a patient is on record
    for the number or not, and fewer are refused with the text about the
    phone number; a number that is not on record then fails the
    verification whatever birthday is typed. *)
Theorem phone_step_checks_length_only (s : PatientLogin.LoginState) :
  PatientLogin.phone (PatientLogin.handlePhoneSubmit s) = PatientLogin.phone s
  /\ (10 <= List.length (PatientLogin.phone s) ->
      PatientLogin.step (PatientLogin.handlePhoneSubmit s)
      = PatientLogin.BIRTHDAY
      /\ PatientLogin.error (PatientLogin.handlePhoneSubmit s) = None)
  /\ (List.length (PatientLogin.phone s) < 10 ->
      PatientLogin.step (PatientLogin.handlePhoneSubmit s)
      = PatientLogin.step s
      /\ PatientLogin.error (PatientLogin.handlePhoneSubmit s)
         = Some PatientLogin.INVALID_PHONE
      /\ PatientLogin.lookup PatientLogin.MOCK_HIS_DB (PatientLogin.phone s)
         = None)
  /\ (PatientLogin.lookup PatientLogin.MOCK_HIS_DB (PatientLogin.phone s)
      = None ->
      forall birth onLoginSuccess e w,
        snd (PatientLogin.handleBirthdaySubmit onLoginSuccess
               {| PatientLogin.step :=
                    PatientLogin.step (PatientLogin.handlePhoneSubmit s);
                  PatientLogin.phone := PatientLogin.phone s;
                  PatientLogin.birthdayInput := birth;
                  PatientLogin.error := None;
                  PatientLogin.timers := PatientLogin.timers s |} e w) = w).
Proof.
  unfold PatientLogin.handlePhoneSubmit.
  destruct (Nat.ltb_spec (List.length (PatientLogin.phone s)) 10) as [Hlt|Hge];
    cbn [PatientLogin.phone PatientLogin.step PatientLogin.error].
  - split; [reflexivity|]. split; [lia|]. split.
    + intros _. repeat split.
      unfold PatientLogin.MOCK_HIS_DB. cbn [PatientLogin.lookup].
      destruct (jseqb (js "0912345678") (PatientLogin.phone s)) eqn:E1.
      { apply jseqb_eq in E1. rewrite <- E1 in Hlt. vm_compute in Hlt. lia. }
      destruct (jseqb (js "0987654321") (PatientLogin.phone s)) eqn:E2.
      { apply jseqb_eq in E2. rewrite <- E2 in Hlt. vm_compute in Hlt. lia. }
      reflexivity.
    + intros Hl birth k e w. unfold PatientLogin.handleBirthdaySubmit.
      cbn [PatientLogin.phone]. now rewrite Hl.
  - split; [reflexivity|]. split; [now intros _|]. split; [lia|].
    intros Hl birth k e w. unfold PatientLogin.handleBirthdaySubmit.
    cbn [PatientLogin.phone]. now rewrite Hl.
Qed.

Lemma phone_step_checks_length_only_witness :
  PatientLogin.step
    (PatientLogin.handlePhoneSubmit
       {| PatientLogin.step := PatientLogin.PHONE;
          PatientLogin.phone := js "constructor";
          PatientLogin.birthdayInput := [];
          PatientLogin.error := None;
          PatientLogin.timers := 0 |})
  = PatientLogin.BIRTHDAY.
Proof.
  apply (phone_step_checks_length_only
           {| PatientLogin.step := PatientLogin.PHONE;
              PatientLogin.phone := js "constructor";
              PatientLogin.birthdayInput := [];
              PatientLogin.error := None;
              PatientLogin.timers := 0 |}).
  vm_compute. lia.
Defined.

(* ===================================================================== *)
(** * Properties of the set-up view                                        *)
(* ===================================================================== *)

Lemma filter_index_from (l : list File) : forall k i,
  map snd
    (filter (fun entry => negb (fst entry =? i))
       (combine (seq k (List.length l)) l))
  = if i <? k then l else firstn (i - k) l ++ skipn (S (i - k)) l.
Proof.
  induction l as [|a l IH]; intros k i.
  - cbn [List.length seq combine filter map]. rewrite firstn_nil.
    now destruct (i <? k).
  - cbn [List.length seq combine filter fst].
    destruct (Nat.eqb_spec k i) as [<-|Hne]; cbn [negb map snd];
      rewrite (IH (S k)).
    + rewrite Nat.ltb_irrefl, Nat.sub_diag.
      assert (E : (k <? S k) = true) by (apply Nat.ltb_lt; lia).
      now rewrite E.
    + destruct (Nat.ltb_spec i k) as [Hlt|Hge].
      * assert (E : (i <? S k) = true) by (apply Nat.ltb_lt; lia).
        now rewrite E.
      * assert (E : (i <? S k) = false) by (apply Nat.ltb_ge; lia).
        rewrite E. replace (i - k) with (S (i - S k)) by lia.
        reflexivity.
Qed.

(** X25. Removing a file by its index takes out the entry at that index
    and keeps the others in their order; an index beyond the list
    changes nothing; and removing the last entry right after a file was
    added gives the list back. *)
Theorem remove_file_splices (i : nat) (prev : list File) :
  WelcomeScreen.handleRemoveFile i prev = firstn i prev ++ skipn (S i) prev
  /\ (i < List.length prev ->
      S (List.length (WelcomeScreen.handleRemoveFile i prev))
      = List.length prev)
  /\ (List.length prev <= i -> WelcomeScreen.handleRemoveFile i prev = prev)
  /\ (forall f,
        WelcomeScreen.handleRemoveFile (List.length prev)
          (WelcomeScreen.handleFileChange (Some [f]) prev) = prev).
Proof.
  assert (Hsplice : forall j l,
            WelcomeScreen.handleRemoveFile j l
            = firstn j l ++ skipn (S j) l).
  { intros j l. unfold WelcomeScreen.handleRemoveFile, WelcomeScreen.indexed.
    rewrite (filter_index_from l 0 j). cbn [Nat.ltb Nat.leb].
    now rewrite Nat.sub_0_r. }
  split; [apply Hsplice|]. split; [|split].
  - intros Hlt. rewrite Hsplice, length_app, length_firstn, length_skipn. lia.
  - intros Hge. rewrite Hsplice, firstn_all2, skipn_all2, app_nil_r;
      [reflexivity | lia | lia].
  - intros f. rewrite Hsplice. cbn [WelcomeScreen.handleFileChange].
    rewrite firstn_app, firstn_all, Nat.sub_diag. cbn [firstn].
    rewrite skipn_all2; [now rewrite !app_nil_r|].
    rewrite length_app. cbn. lia.
Qed.

Lemma remove_file_splices_witness :
  WelcomeScreen.handleRemoveFile 0 [fileA; fileB] = [fileB]
  /\ WelcomeScreen.handleRemoveFile 2 [fileA; fileB] = [fileA; fileB].
Proof.
  split.
  - exact (proj1 (remove_file_splices 0 [fileA; fileB])).
  - apply (remove_file_splices 2 [fileA; fileB]). cbn. lia.
Defined.

(* ===================================================================== *)
(** * Properties of the chat view                                          *)
(* ===================================================================== *)

Lemma suggestionIndex_mod n k :
  n <> 0 -> ChatInterface.suggestionIndex n k = k mod n.
Proof.
  intros Hn. induction k as [|k IH].
  - cbn. now rewrite Nat.Div0.mod_0_l.
  - cbn [ChatInterface.suggestionIndex]. unfold ChatInterface.nextSuggestion.
    rewrite IH, Nat.Div0.add_mod_idemp_l. f_equal. lia.
Qed.

(** X26. The suggestion shown rotates through the suggested questions in
    order: after a number of ticks it is the question at that number
    modulo the count, so it is always one of the questions, never an
    index without entry, and it starts again after as many ticks as
    there are questions. *)
Theorem suggestions_rotate (exampleQuestions : list jsstring) (ticks : nat) :
  exampleQuestions <> [] ->
  ChatInterface.suggestionIndex (List.length exampleQuestions) ticks
  = ticks mod List.length exampleQuestions
  /\ ChatInterface.currentSuggestion exampleQuestions ticks
     = nth_error exampleQuestions (ticks mod List.length exampleQuestions)
  /\ (exists q,
        ChatInterface.currentSuggestion exampleQuestions ticks = Some q
        /\ In q exampleQuestions)
  /\ ChatInterface.currentSuggestion exampleQuestions
       (ticks + List.length exampleQuestions)
     = ChatInterface.currentSuggestion exampleQuestions ticks.
Proof.
  intros Hne.
  assert (Hn : List.length exampleQuestions <> 0)
    by (destruct exampleQuestions; [congruence | discriminate]).
  assert (Hcur : forall k,
            ChatInterface.currentSuggestion exampleQuestions k
            = nth_error exampleQuestions
                (k mod List.length exampleQuestions)).
  { intros k. unfold ChatInterface.currentSuggestion.
    destruct exampleQuestions as [|q0 qs] eqn:E; [congruence|].
    now rewrite suggestionIndex_mod. }
  split; [now apply suggestionIndex_mod|]. split; [apply Hcur|]. split.
  - rewrite Hcur.
    destruct (nth_error exampleQuestions
                (ticks mod List.length exampleQuestions)) as [q|] eqn:E.
    + exists q. split; [reflexivity|]. eapply nth_error_In; eassumption.
    + apply nth_error_None in E.
      pose proof (Nat.mod_upper_bound ticks _ Hn). lia.
  - rewrite !Hcur. f_equal.
    rewrite <- (Nat.mul_1_l (List.length exampleQuestions)) at 1.
    apply Nat.Div0.mod_add.
Qed.

Lemma suggestions_rotate_witness :
  ChatInterface.currentSuggestion [js "q1"; js "q2"; js "q3"] 7
  = Some (js "q2").
Proof.
  destruct (suggestions_rotate [js "q1"; js "q2"; js "q3"] 7)
    as (_ & Hcur & _); [discriminate|].
  rewrite Hcur. reflexivity.
Defined.

Lemma sourceButtons_in chunks : forall i k t,
  In (k, t) (ChatInterface.sourceButtons i chunks)
  <-> exists j chunk,
        nth_error chunks j = Some chunk
        /\ k = i + j + 1
        /\ retrievedText chunk = Some t
        /\ t <> [].
Proof.
  induction chunks as [|c chunks IH]; intros i k t.
  - cbn. split; [tauto|]. intros (j & chunk & Hj & _). now destruct j.
  - assert (Hrest :
      In (k, t) (ChatInterface.sourceButtons (S i) chunks)
      <-> exists j chunk,
            nth_error (c :: chunks) (S j) = Some chunk
            /\ k = i + S j + 1
            /\ retrievedText chunk = Some t /\ t <> []).
    { rewrite IH. split; intros (j & chunk & Hj & Hk & Ht);
        exists j, chunk; (split; [exact Hj|]); (split; [lia | exact Ht]). }
    assert (Hsplit :
      (exists j chunk,
         nth_error (c :: chunks) j = Some chunk
         /\ k = i + j + 1 /\ retrievedText chunk = Some t /\ t <> [])
      <-> (k = i + 0 + 1 /\ retrievedText c = Some t /\ t <> [])
          \/ In (k, t) (ChatInterface.sourceButtons (S i) chunks)).
    { rewrite Hrest. split.
      - intros ([|j] & chunk & Hj & Hk & Ht).
        + injection Hj as <-. now left.
        + right. now exists j, chunk.
      - intros [(Hk & Ht) | (j & chunk & Hj & Hk & Ht)].
        + now exists 0, c.
        + now exists (S j), chunk. }
    rewrite Hsplit. cbn [ChatInterface.sourceButtons].
    destruct (retrievedText c) as [u|] eqn:Eu.
    + destruct u as [|x u]; cbn [truthy].
      * split; [now right|]. intros [(_ & [= <-] & Hne) | H]; [congruence|exact H].
      * cbn [In]. split.
        -- intros [[= <- <-] | H]; [left | now right].
           repeat split; [lia | discriminate].
        -- intros [(-> & [= <-] & _) | H]; [left | now right].
           f_equal. lia.
    + split; [now right|]. intros [(_ & Hc & _) | H]; [discriminate|exact H].
Qed.

(** X27. Under a message the buttons of the sources are, in order, the
    chunks that carry a text that is not empty, each numbered by its
    place among all chunks counted from one; the block of the sources is
    shown for messages of the model with at least one chunk only, never
    for a message of the user, and the crisis card replaces text and
    sources alike. *)
Theorem source_buttons_numbered (m : ChatMessage) (chunks : list Chunk) :
  (forall k t,
     In (k, t) (ChatInterface.sourceButtons 0 chunks)
     <-> exists chunk,
           1 <= k /\ nth_error chunks (k - 1) = Some chunk
           /\ retrievedText chunk = Some t /\ t <> [])
  /\ (isCrisis m = Some true ->
      ChatInterface.viewMessage m = Some ChatInterface.CrisisCard)
  /\ (forall ownMessage markup sources,
        ChatInterface.viewMessage m
        = Some (ChatInterface.Rendered ownMessage markup (Some sources)) ->
        role m = model
        /\ exists c cs,
             groundingChunks m = Some (c :: cs)
             /\ sources = ChatInterface.sourceButtons 0 (c :: cs)).
Proof.
  split; [|split].
  - intros k t. rewrite sourceButtons_in. split.
    + intros (j & chunk & Hj & -> & Ht). exists chunk.
      replace (0 + j + 1 - 1) with j by lia. repeat split; try tauto. lia.
    + intros (chunk & Hk & Hj & Ht). exists (k - 1), chunk.
      repeat split; try tauto. lia.
  - intros Hc. unfold ChatInterface.viewMessage. now rewrite Hc.
  - intros own markup sources. unfold ChatInterface.viewMessage.
    destruct (isCrisis m) as [[|]|]; try discriminate;
      (destruct (parts m) as [|part rest]; [discriminate|]);
      (destruct (role m); [discriminate|]);
      (destruct (groundingChunks m) as [[|c cs]|]; try discriminate);
      intros [= _ _ <-]; (split; [reflexivity|]); now exists c, cs.
Qed.

Lemma source_buttons_numbered_witness :
  In (2, js "hours")
    (ChatInterface.sourceButtons 0
       [ {| retrievedText := None |}; {| retrievedText := Some (js "hours") |} ]).
Proof.
  apply (source_buttons_numbered apologyMessage
           [ {| retrievedText := None |};
             {| retrievedText := Some (js "hours") |} ]).
  exists {| retrievedText := Some (js "hours") |}.
  split; [lia|]. split; [reflexivity|].
  split; [reflexivity | vm_compute; discriminate].
Defined.

(** ** The crisis card *)

(** X28. A query with a crisis keyword that is submitted from the chat view
    is sent as typed and the input is cleared; the answer appended to the
    chat is shown as the crisis card, so its text is never rendered, and
    the query itself is shown as an ordinary message of the user; nothing
    is asked of the gateway.  A blank input is not sent and stays as it
    is. *)
Theorem crisis_answer_shows_card `{Builtins}
  (message : jsstring) (e : Env) (w : World) :
  reachable w ->
  status (state w) = Chatting ->
  truthy (trim message) = true ->
  crisisQuery message = true ->
  ChatInterface.handleSubmit handleSendMessage message e w
  = (Ok [],
     Build_World true (answered message CRISIS_RESULT (state w)) (trace w))
  /\ chatHistory (answered message CRISIS_RESULT (state w))
     = chatHistory (state w)
         ++ [userMessage message; modelMessage CRISIS_RESULT]
  /\ ChatInterface.viewMessage (modelMessage CRISIS_RESULT)
     = Some ChatInterface.CrisisCard
  /\ ChatInterface.viewMessage (userMessage message)
     = Some (ChatInterface.Rendered true (renderMarkdown message) None)
  /\ (forall query onSendMessage,
        truthy (trim query) = false ->
        ChatInterface.handleSubmit onSendMessage query e w = (Ok query, w)).
Proof.
  intros Hreach Hst Htrim Hcrisis.
  destruct (reachable_invariant w Hreach) as [Hstore Hai].
  destruct (Hstore (or_intror Hst)) as [name Hact].
  destruct (activeStore_some _ _ Hact) as [Hname _].
  split; [|repeat split].
  - unfold ChatInterface.handleSubmit. rewrite Htrim. unfold bind.
    rewrite (handleSendMessage_run message e w name Hact).
    now rewrite (Hai name Hname), Hcrisis.
  - intros query k Hblank. unfold ChatInterface.handleSubmit.
    now rewrite Hblank.
Qed.

Lemma crisis_answer_shows_card_witness :
  fst (ChatInterface.handleSubmit (@handleSendMessage sampleBuiltins)
         (js "我想自殺") failingEnv chattingWorld) = Ok [].
Proof.
  destruct (@crisis_answer_shows_card sampleBuiltins (js "我想自殺")
              failingEnv chattingWorld) as [Hrun _];
    [apply chattingWorld_reachable | vm_compute; reflexivity ..|].
  now rewrite Hrun.
Defined.

(** ** Every message can be shown *)

Lemma perform_chat `{Builtins} act e w :
  chatHistory (state (snd (perform act e w))) = chatHistory (state w)
  \/ chatHistory (state (snd (perform act e w))) = []
  \/ (exists name,
        chatHistory (state (snd (perform act e w))) = [welcomeMessage name])
  \/ (exists msg m,
        chatHistory (state (snd (perform act e w)))
        = chatHistory (state w) ++ [userMessage msg; m]
        /\ (m = apologyMessage \/ exists result, m = modelMessage result)).
Proof.
  destruct act as [| | | |fs| |name phone|msg| |]; cbn [perform].
  - destruct (mount_run e w) as (key & t & ->). now left.
  - rewrite checkApiKey_exact. now left.
  - rewrite handleUnload_exact. now left.
  - destruct (handleSelectKey_run e w) as (key & t & ->). now left.
  - now left.
  - destruct (isApiKeySelected (state w)) eqn:Hkey.
    + destruct (new_client e) as [err|] eqn:Hnew.
      * rewrite (handleAdminSetupComplete_no_client e w err Hkey Hnew).
        now left.
      * destruct (handleAdminSetupComplete_run e w Hkey Hnew)
          as (r & w' & t & -> & _ & _ & _ & _ & Hcase).
        cbn [snd]. destruct r as [[]|err].
        -- destruct Hcase as (store & _ & -> & _). right. now left.
        -- destruct Hcase as [-> _]. left.
           now destruct (invalidCredential err).
    + rewrite (handleAdminSetupComplete_no_key e w Hkey). now left.
  - rewrite handlePatientLogin_run. right. right. left. now exists name.
  - destruct (activeStore (state w)) as [n|] eqn:Hact.
    + destruct (handleSendMessage_world msg e w n Hact)
        as (a & t & -> & Ha & _).
      right. right. right.
      destruct Ha as [[result ->]|[err ->]]; fields.
      * exists msg, (modelMessage result). split; [reflexivity|].
        right. now exists result.
      * exists msg, apologyMessage. split; [reflexivity | now left].
    + rewrite (handleSendMessage_idle msg e w Hact). now left.
  - rewrite handleEndChat_run. right. now left.
  - rewrite clearError_run. now left.
Qed.

Lemma view_parts m :
  parts m <> [] -> exists b, ChatInterface.viewMessage m = Some b.
Proof.
  intros Hp. unfold ChatInterface.viewMessage.
  destruct (isCrisis m) as [[|]|]; [now eexists | | ];
    (destruct (parts m); [congruence | now eexists]).
Qed.

(** X29. Whatever a handler does, the chat afterwards is the chat before,
    or empty, or the welcome message alone, or the chat before with one
    exchange appended; and every message of the chat of a reachable
    state has a part to read its text from, so that the chat view can
    show it. *)
Theorem chat_messages_can_be_shown `{Builtins} :
  (forall act e w,
     chatHistory (state (snd (perform act e w))) = chatHistory (state w)
     \/ chatHistory (state (snd (perform act e w))) = []
     \/ (exists name,
           chatHistory (state (snd (perform act e w)))
           = [welcomeMessage name])
     \/ (exists msg m,
           chatHistory (state (snd (perform act e w)))
           = chatHistory (state w) ++ [userMessage msg; m]
           /\ (m = apologyMessage \/ exists result, m = modelMessage result)))
  /\ (forall w,
        reachable w ->
        Forall (fun m => exists b, ChatInterface.viewMessage m = Some b)
          (chatHistory (state w))).
Proof.
  split; [apply perform_chat|].
  induction 1 as [|w act e Hreach IH Hen]; [constructor|].
  destruct (perform_chat act e w)
    as [-> | [-> | [(name & ->) | (msg & m & -> & Hm)]]].
  - exact IH.
  - constructor.
  - constructor; [|constructor]. apply view_parts. discriminate.
  - apply Forall_app. split; [exact IH|].
    constructor; [apply view_parts; discriminate|].
    constructor; [|constructor]. apply view_parts.
    destruct Hm as [-> | [result ->]]; discriminate.
Qed.

Lemma chat_messages_can_be_shown_witness :
  Forall (fun m => exists b, ChatInterface.viewMessage m = Some b)
    (chatHistory (state failedChatWorld)).
Proof.
  apply (proj2 (@chat_messages_can_be_shown sampleBuiltins)).
  apply failedChatWorld_reachable.
Defined.
